(** * Label store of the Google Docs Labels extension (content.js)

    A shallow embedding of the persistence engine of [content.js]: the
    label list of the active document, its storage in [localStorage] as
    JSON text, the scan for the documents that carry a label, the import of
    an exported label and the reload on external change.

    The development has three layers.
    - [JSON]: the values, [JSON.stringify] and [JSON.parse] the script
      relies on, with the round trip between them.
    - The host: [localStorage] as the list of its pairs with a quota, the
      title and the address of the page, and a monad [JS] of state and
      exceptions for the mutable globals of the script.  An exception keeps
      the changes made before it, as in JavaScript.
    - The functions of [content.js], translated one by one in that monad,
      and the properties of the label store proved about them.

    What the model leaves out.  Strings are sequences of code units below
    256 and numbers are integers: a text with a fraction, an exponent or an
    escape above [\u00ff] is outside the fragment and does not parse.  An
    object keeps its properties in insertion order; the reordering of
    integer-like keys by the engine is not modelled.  The text of
    [e.message] is the name of the error.  Of the rendering layer only the
    call of [updateLabelsDisplay] and the one way it can throw are kept. *)

From Stdlib Require Import String Ascii List ZArith NArith Lia Bool Arith.
From Stdlib Require Import Decimal DecimalString DecimalN Permutation.
Import ListNotations.
Local Open Scope string_scope.

(** ** Characters and strings *)

(** The double quote, code unit 34. *)
Definition dquote : ascii := "034"%char.

Definition backslash : ascii := "\"%char.

(** [dq s] is [s] with every single quote turned into a double quote: it
    lets JSON texts be written legibly, [dq "{'label':'Q1'}"]. *)
Fixpoint dq (s : string) : string :=
  match s with
  | EmptyString => EmptyString
  | String c r => String (if Ascii.eqb c "'"%char then dquote else c) (dq r)
  end.

(** [strip_prefix p s] is [Some r] when [s = p ++ r]. *)
Fixpoint strip_prefix (p s : string) : option string :=
  match p with
  | EmptyString => Some s
  | String a p' =>
      match s with
      | EmptyString => None
      | String b s' => if Ascii.eqb a b then strip_prefix p' s' else None
      end
  end.

(** [String.prototype.includes]: [needle] occurs in [hay]. *)
Fixpoint str_includes (hay needle : string) : bool :=
  match strip_prefix needle hay with
  | Some _ => true
  | None =>
      match hay with
      | EmptyString => false
      | String _ r => str_includes r needle
      end
  end.

(** ** JSON *)

Module JSON.

(** The values [JSON.parse] produces.  Numbers are the integers; an object
    is the list of its properties in insertion order.  The induction
    principle is the one of [json_induction] below. *)
Unset Elimination Schemes.
Inductive json : Type :=
| JNull
| JBool (b : bool)
| JNum (n : Z)
| JStr (s : string)
| JArr (items : list json)
| JObj (props : list (string * json)).
Set Elimination Schemes.

(** Induction on a value, with the hypothesis on every item of an array
    and on every property of an object. *)
Section Induction.
Variable P : json -> Prop.
Hypothesis Hnull : P JNull.
Hypothesis Hbool : forall b, P (JBool b).
Hypothesis Hnum : forall n, P (JNum n).
Hypothesis Hstr : forall s, P (JStr s).
Hypothesis Harr : forall l, Forall P l -> P (JArr l).
Hypothesis Hobj : forall m, Forall (fun kv => P (snd kv)) m -> P (JObj m).

Fixpoint json_induction (v : json) : P v :=
  match v with
  | JNull => Hnull
  | JBool b => Hbool b
  | JNum n => Hnum n
  | JStr s => Hstr s
  | JArr l =>
      Harr l ((fix go (l : list json) : Forall P l :=
                 match l with
                 | [] => Forall_nil P
                 | x :: r => Forall_cons x (json_induction x) (go r)
                 end) l)
  | JObj m =>
      Hobj m ((fix go (m : list (string * json))
                : Forall (fun kv => P (snd kv)) m :=
                 match m with
                 | [] => Forall_nil _
                 | kv :: r =>
                     Forall_cons (P := fun kv => P (snd kv)) kv
                       (json_induction (snd kv)) (go r)
                 end) m)
  end.
End Induction.

(** *** Objects *)

(** [obj.key]: the value of an own property, [None] for [undefined]. *)
Fixpoint obj_get (m : list (string * json)) (k : string) : option json :=
  match m with
  | [] => None
  | (k', v) :: r => if String.eqb k k' then Some v else obj_get r k
  end.

(** [obj.key = v]: an existing property keeps its place, a new one goes
    last. *)
Fixpoint obj_set (m : list (string * json)) (k : string) (v : json)
  : list (string * json) :=
  match m with
  | [] => [(k, v)]
  | (k', v') :: r =>
      if String.eqb k k' then (k, v) :: r else (k', v') :: obj_set r k v
  end.

Definition has_key (m : list (string * json)) (k : string) : bool :=
  existsb (fun kv => String.eqb k (fst kv)) m.

Fixpoint nodup_keys (m : list (string * json)) : bool :=
  match m with
  | [] => true
  | (k, _) :: r => negb (has_key r k) && nodup_keys r
  end.

(** A value is well formed when no object in it has two properties of the
    same name; every parsed value is. *)
Fixpoint wf (v : json) : bool :=
  match v with
  | JArr l => forallb wf l
  | JObj m => nodup_keys m && forallb (fun kv => wf (snd kv)) m
  | _ => true
  end.

(** *** JSON.stringify *)

Definition hex_digit (n : nat) : ascii :=
  match n with
  | 0 => "0" | 1 => "1" | 2 => "2" | 3 => "3" | 4 => "4" | 5 => "5"
  | 6 => "6" | 7 => "7" | 8 => "8" | 9 => "9" | 10 => "a" | 11 => "b"
  | 12 => "c" | 13 => "d" | 14 => "e" | _ => "f"
  end%char.

(** QuoteJSONString on one code unit: the quote, the backslash and the
    control characters are escaped. *)
Definition escape_char (c : ascii) : string :=
  let n := nat_of_ascii c in
  if Ascii.eqb c dquote then String backslash (String dquote "")
  else if Ascii.eqb c backslash then String backslash (String backslash "")
  else if Nat.eqb n 8 then "\b"
  else if Nat.eqb n 9 then "\t"
  else if Nat.eqb n 10 then "\n"
  else if Nat.eqb n 12 then "\f"
  else if Nat.eqb n 13 then "\r"
  else if Nat.ltb n 32 then
    "\u00" ++ String (hex_digit (n / 16)) (String (hex_digit (n mod 16)) "")
  else String c "".

Fixpoint escape (s : string) : string :=
  match s with
  | EmptyString => EmptyString
  | String c r => escape_char c ++ escape r
  end.

Definition quote (s : string) : string :=
  String dquote (escape s ++ String dquote "").

(** Decimal text of an integer. *)
Definition num_to_string (n : Z) : string :=
  match n with
  | Z0 => "0"
  | Zpos p => NilEmpty.string_of_uint (Pos.to_uint p)
  | Zneg p => String "-" (NilEmpty.string_of_uint (Pos.to_uint p))
  end.

Section Join.
Context {A : Type} (f : A -> string).
(** The items of a list, each printed by [f], separated by commas. *)
Fixpoint join (l : list A) : string :=
  match l with
  | [] => ""
  | [x] => f x
  | x :: r => f x ++ String "," (join r)
  end.
End Join.

(** [JSON.stringify(v)], without indentation. *)
Fixpoint stringify (v : json) : string :=
  match v with
  | JNull => "null"
  | JBool true => "true"
  | JBool false => "false"
  | JNum n => num_to_string n
  | JStr s => quote s
  | JArr l => String "[" (join stringify l ++ "]")
  | JObj m =>
      String "{"
        (join (fun kv => quote (fst kv) ++ String ":" (stringify (snd kv))) m
           ++ "}")
  end.

(** *** JSON.stringify with indentation *)

(** The line feed, code unit 10. *)
Definition newline : ascii := "010"%char.

Fixpoint spaces (n : nat) : string :=
  match n with
  | O => EmptyString
  | S k => String " " (spaces k)
  end.

Section JoinSep.
Context {A : Type} (f : A -> string) (sep : string).
(** The items of a list, each printed by [f], separated by [sep]. *)
Fixpoint join_sep (l : list A) : string :=
  match l with
  | [] => ""
  | [x] => f x
  | x :: r => f x ++ sep ++ join_sep r
  end.
End JoinSep.

(** [JSON.stringify(v, null, 2)] at the indentation of [indent] spaces:
    an array or an object that is not empty puts each item on its own
    line, two spaces further in, and its closing bracket on a line at
    [indent]; a property name is followed by a colon and a space. *)
Fixpoint stringify_indent (indent : nat) (v : json) : string :=
  match v with
  | JArr [] => "[]"
  | JArr l =>
      let inner := S (S indent) in
      String "[" (String newline (spaces inner))
      ++ join_sep (stringify_indent inner)
           (String "," (String newline (spaces inner))) l
      ++ String newline (spaces indent) ++ "]"
  | JObj [] => "{}"
  | JObj m =>
      let inner := S (S indent) in
      String "{" (String newline (spaces inner))
      ++ join_sep (fun kv => quote (fst kv) ++ ": "
                               ++ stringify_indent inner (snd kv))
           (String "," (String newline (spaces inner))) m
      ++ String newline (spaces indent) ++ "}"
  | _ => stringify v
  end.

(** The separator between two items at the indentation [n], and a
    property as it is printed there. *)
Definition item_sep (n : nat) : string :=
  String "," (String newline (spaces n)).

Definition print_prop (n : nat) (kv : string * json) : string :=
  quote (fst kv) ++ ": " ++ stringify_indent n (snd kv).

(** *** JSON.parse *)

Definition is_ws (c : ascii) : bool :=
  let n := nat_of_ascii c in
  Nat.eqb n 32 || Nat.eqb n 9 || Nat.eqb n 10 || Nat.eqb n 13.

Fixpoint skip_ws (s : string) : string :=
  match s with
  | String c r => if is_ws c then skip_ws r else s
  | EmptyString => EmptyString
  end.

Definition digit_of (c : ascii) : option (uint -> uint) :=
  match nat_of_ascii c - 48, Nat.leb 48 (nat_of_ascii c) with
  | 0, true => Some D0 | 1, _ => Some D1 | 2, _ => Some D2
  | 3, _ => Some D3 | 4, _ => Some D4 | 5, _ => Some D5
  | 6, _ => Some D6 | 7, _ => Some D7 | 8, _ => Some D8
  | 9, _ => Some D9 | _, _ => None
  end.

(** The longest prefix of decimal digits, and what follows it. *)
Fixpoint read_uint (s : string) : uint * string :=
  match s with
  | String c r =>
      match digit_of c with
      | Some d => let (u, r') := read_uint r in (d u, r')
      | None => (Nil, s)
      end
  | EmptyString => (Nil, EmptyString)
  end.

(** A JSON integer without its sign: [0], or digits not starting by [0]. *)
Definition read_nat (s : string) : option (Z * string) :=
  match read_uint s with
  | (Nil, _) => None
  | (D0 Nil, r) => Some (0%Z, r)
  | (D0 _, _) => None
  | (u, r) => Some (Z.of_N (N.of_uint u), r)
  end.

Definition read_number (s : string) : option (Z * string) :=
  match s with
  | String c r =>
      if Ascii.eqb c "-" then
        match read_nat r with
        | Some (n, r') => Some (Z.opp n, r')
        | None => None
        end
      else read_nat s
  | EmptyString => None
  end.

Definition hex_val (c : ascii) : option nat :=
  let n := nat_of_ascii c in
  if Nat.leb 48 n && Nat.leb n 57 then Some (n - 48)
  else if Nat.leb 97 n && Nat.leb n 102 then Some (n - 87)
  else if Nat.leb 65 n && Nat.leb n 70 then Some (n - 55)
  else None.

(** The code unit of [\uXXXX]; the model has the code units below 256. *)
Definition hex4 (a b c d : ascii) : option ascii :=
  match hex_val a, hex_val b, hex_val c, hex_val d with
  | Some 0, Some 0, Some x, Some y => Some (ascii_of_nat (16 * x + y))
  | _, _, _, _ => None
  end.

Definition simple_escape (e : ascii) : option ascii :=
  if Ascii.eqb e dquote then Some dquote
  else if Ascii.eqb e backslash then Some backslash
  else if Ascii.eqb e "/" then Some "/"%char
  else if Ascii.eqb e "b" then Some (ascii_of_nat 8)
  else if Ascii.eqb e "t" then Some (ascii_of_nat 9)
  else if Ascii.eqb e "n" then Some (ascii_of_nat 10)
  else if Ascii.eqb e "f" then Some (ascii_of_nat 12)
  else if Ascii.eqb e "r" then Some (ascii_of_nat 13)
  else None.

Definition cons_char (c : ascii) (x : option (string * string))
  : option (string * string) :=
  match x with
  | Some (s, r) => Some (String c s, r)
  | None => None
  end.

(** The characters of a string literal after its opening quote, up to the
    closing one. *)
Fixpoint read_chars (s : string) : option (string * string) :=
  match s with
  | EmptyString => None
  | String c r =>
      if Ascii.eqb c dquote then Some (EmptyString, r)
      else if Ascii.eqb c backslash then
        match r with
        | String e r1 =>
            match simple_escape e with
            | Some c' => cons_char c' (read_chars r1)
            | None =>
                if Ascii.eqb e "u" then
                  match r1 with
                  | String h1 (String h2 (String h3 (String h4 r2))) =>
                      match hex4 h1 h2 h3 h4 with
                      | Some c' => cons_char c' (read_chars r2)
                      | None => None
                      end
                  | _ => None
                  end
                else None
            end
        | EmptyString => None
        end
      else if Nat.ltb (nat_of_ascii c) 32 then None
      else cons_char c (read_chars r)
  end.

(** A string literal, opening quote included. *)
Definition read_string (s : string) : option (string * string) :=
  match s with
  | String c r => if Ascii.eqb c dquote then read_chars r else None
  | EmptyString => None
  end.

(** Recursive descent on the text; [fuel] bounds the nesting and the number
    of items, the length of the text is always enough. *)
Fixpoint parse_value (fuel : nat) (s : string) : option (json * string) :=
  match fuel with
  | O => None
  | S fuel' =>
      match skip_ws s with
      | EmptyString => None
      | String c r =>
          if Ascii.eqb c "[" then
            match skip_ws r with
            | String c' r' =>
                if Ascii.eqb c' "]" then Some (JArr [], r')
                else
                  match parse_items fuel' r with
                  | Some (l, r'') => Some (JArr l, r'')
                  | None => None
                  end
            | EmptyString => None
            end
          else if Ascii.eqb c "{" then
            match skip_ws r with
            | String c' r' =>
                if Ascii.eqb c' "}" then Some (JObj [], r')
                else
                  match parse_props fuel' r [] with
                  | Some (m, r'') => Some (JObj m, r'')
                  | None => None
                  end
            | EmptyString => None
            end
          else if Ascii.eqb c dquote then
            match read_chars r with
            | Some (str, r') => Some (JStr str, r')
            | None => None
            end
          else
            match strip_prefix "null" (String c r) with
            | Some r' => Some (JNull, r')
            | None =>
            match strip_prefix "true" (String c r) with
            | Some r' => Some (JBool true, r')
            | None =>
            match strip_prefix "false" (String c r) with
            | Some r' => Some (JBool false, r')
            | None =>
            match read_number (String c r) with
            | Some (n, r') => Some (JNum n, r')
            | None => None
            end end end end
      end
  end

with parse_items (fuel : nat) (s : string) : option (list json * string) :=
  match fuel with
  | O => None
  | S fuel' =>
      match parse_value fuel' s with
      | Some (v, r) =>
          match skip_ws r with
          | String c r' =>
              if Ascii.eqb c "," then
                match parse_items fuel' r' with
                | Some (l, r'') => Some (v :: l, r'')
                | None => None
                end
              else if Ascii.eqb c "]" then Some ([v], r')
              else None
          | EmptyString => None
          end
      | None => None
      end
  end

with parse_props (fuel : nat) (s : string) (acc : list (string * json))
  : option (list (string * json) * string) :=
  match fuel with
  | O => None
  | S fuel' =>
      match read_string (skip_ws s) with
      | Some (k, r) =>
          match skip_ws r with
          | String c r1 =>
              if Ascii.eqb c ":" then
                match parse_value fuel' r1 with
                | Some (v, r2) =>
                    match skip_ws r2 with
                    | String c' r3 =>
                        if Ascii.eqb c' "," then
                          parse_props fuel' r3 (obj_set acc k v)
                        else if Ascii.eqb c' "}" then
                          Some (obj_set acc k v, r3)
                        else None
                    | EmptyString => None
                    end
                | None => None
                end
              else None
          | EmptyString => None
          end
      | None => None
      end
  end.

(** Fuel that [parse_value] needs to read back the text of a value. *)
Fixpoint need (v : json) : nat :=
  match v with
  | JArr l => S (list_sum (map (fun x => S (need x)) l))
  | JObj m => S (list_sum (map (fun kv => S (need (snd kv))) m))
  | _ => 1
  end.

(** What may follow a number in a text: anything but a digit. *)
Definition no_digit (s : string) : Prop :=
  match s with
  | EmptyString => True
  | String c _ => digit_of c = None
  end.

(** A text that starts with the first character of a value. *)
Definition starts_value (s : string) : bool :=
  match s with
  | String c _ =>
      negb (is_ws c) && negb (Ascii.eqb c "]") && negb (Ascii.eqb c "}")
  | EmptyString => false
  end.

(** [JSON.parse(s)]: [None] stands for the SyntaxError it throws. *)
Definition parse (s : string) : option json :=
  match parse_value (String.length s) s with
  | Some (v, r) =>
      match skip_ws r with
      | EmptyString => Some v
      | String _ _ => None
      end
  | None => None
  end.

End JSON.

Import JSON.


(** ** JavaScript values *)

(** ToBoolean. *)
Definition truthy (v : json) : bool :=
  match v with
  | JNull => false
  | JBool b => b
  | JNum n => negb (Z.eqb n 0)
  | JStr s => negb (String.eqb s "")
  | JArr _ | JObj _ => true
  end.

(** [x || d], where [None] is [undefined]. *)
Definition or_default (x : option json) (d : json) : json :=
  match x with
  | Some v => if truthy v then v else d
  | None => d
  end.

(** ToString, as a template literal and [String.prototype.includes] apply
    it. *)
Fixpoint to_string (v : json) : string :=
  match v with
  | JNull => "null"
  | JBool true => "true"
  | JBool false => "false"
  | JNum n => num_to_string n
  | JStr s => s
  | JArr l =>
      join (fun x => match x with JNull => "" | _ => to_string x end) l
  | JObj _ => "[object Object]"
  end.

(** SameValueZero between two values that come from different calls of
    [JSON.parse]: primitives are compared by value, and two arrays or two
    objects are never the same reference. *)
Definition same_value_zero (a b : json) : bool :=
  match a, b with
  | JNull, JNull => true
  | JBool x, JBool y => Bool.eqb x y
  | JNum x, JNum y => Z.eqb x y
  | JStr x, JStr y => String.eqb x y
  | _, _ => false
  end.

(** [Array.prototype.includes]. *)
Definition array_includes (l : list json) (x : json) : bool :=
  existsb (same_value_zero x) l.

Definition isArray (v : json) : bool :=
  match v with
  | JArr _ => true
  | _ => false
  end.

(** The errors the script can meet. *)
Inductive exn : Type :=
| SyntaxError          (* JSON.parse on a malformed text *)
| TypeError            (* a property of null or undefined, a call of a non-function *)
| QuotaExceededError.  (* localStorage.setItem beyond the quota *)

(** [e.message]; the engine's wording is not modelled, the error's name
    stands for it. *)
Definition message (e : exn) : string :=
  match e with
  | SyntaxError => "SyntaxError"
  | TypeError => "TypeError"
  | QuotaExceededError => "QuotaExceededError"
  end.

(** How an evaluation ends: with a value, or with a thrown error. *)
Inductive completion (A : Type) : Type :=
| Normal (a : A)
| Throw (e : exn).
Arguments Normal {A} a.
Arguments Throw {A} e.

(** [v.k] for one of the keys the script reads ([labels], [title], [url],
    [label], [documents]): an own property of an object, a TypeError on
    [null], [undefined] on any other value. *)
Definition get_prop (v : json) (k : string) : completion (option json) :=
  match v with
  | JNull => Throw TypeError
  | JObj m => Normal (obj_get m k)
  | _ => Normal None
  end.

(** [v.includes(x)], where [v] is what [.labels] gave: an array searches its
    items, a string searches a substring, and anything else has no method
    [includes]. *)
Definition value_includes (v : option json) (x : json) : completion bool :=
  match v with
  | Some (JArr l) => Normal (array_includes l x)
  | Some (JStr s) => Normal (str_includes s (to_string x))
  | _ => Throw TypeError
  end.

(** *** Array.prototype.splice *)

(** The position [splice] starts at: a negative [start] counts from the
    end, and both ends clamp. *)
Definition splice_start (len : nat) (start : Z) : nat :=
  if (start <? 0)%Z then Z.to_nat (Z.max (Z.of_nat len + start) 0)
  else Nat.min (Z.to_nat start) len.

(** [l.splice(start, deleteCount, ...items)], as the array it leaves. *)
Definition splice {A : Type} (l : list A) (start : Z) (deleteCount : nat)
    (new_items : list A) : list A :=
  let a := splice_start (length l) start in
  let k := Nat.min deleteCount (length l - a) in
  (firstn a l ++ new_items ++ skipn (a + k) l)%list.

(** [l[i]]; [undefined] outside the array, which [JSON.stringify] writes as
    [null] inside an array: the model keeps [JNull] for it. *)
Definition array_get (l : list json) (i : Z) : json :=
  if (i <? 0)%Z then JNull else nth (Z.to_nat i) l JNull.

(** ** The host: localStorage *)

Module localStorage.

(** The stored pairs in the order [key(i)] enumerates them, and the room
    the origin is given, in code units. *)
Record t : Type := {
  items : list (string * string);
  quota : nat
}.

Fixpoint lookup (l : list (string * string)) (k : string) : option string :=
  match l with
  | [] => None
  | (k', v) :: r => if String.eqb k k' then Some v else lookup r k
  end.

Fixpoint update (l : list (string * string)) (k v : string)
  : list (string * string) :=
  match l with
  | [] => [(k, v)]
  | (k', v') :: r =>
      if String.eqb k k' then (k, v) :: r else (k', v') :: update r k v
  end.

Definition size (l : list (string * string)) : nat :=
  list_sum (map (fun kv => String.length (fst kv) + String.length (snd kv)) l).

Definition getItem (ls : t) (k : string) : option string :=
  lookup (items ls) k.

(** [setItem(k, v)]; [None] stands for the QuotaExceededError it throws
    when the new pair does not fit. *)
Definition setItem (ls : t) (k v : string) : option t :=
  let l := update (items ls) k v in
  if Nat.leb (size l) (quota ls) then Some {| items := l; quota := quota ls |}
  else None.

(** [key(0)], ..., [key(length - 1)]. *)
Definition keys (ls : t) : list string := map fst (items ls).

End localStorage.

(** ** The state of the script *)

(** The globals of [content.js] the label store uses, and what it sees of
    the page. *)
Record State : Type := {
  labels : json;                    (* let labels = [] *)
  draggedIndex : option Z;          (* let draggedIndex = null *)
  documentId : option string;       (* let documentId = null *)
  lastKnownLabelsJson : string;     (* let lastKnownLabelsJson = '' *)
  storage : localStorage.t;         (* window.localStorage *)
  pageTitle : string;               (* the title text found in the page *)
  href : string;                    (* window.location.href *)
  mounted : bool;                   (* labelsListContainer && noLabelsMessage *)
  refreshes : nat                   (* calls of updateLabelsDisplay so far *)
}.

Definition set_labels (v : json) (st : State) : State :=
  {| labels := v; draggedIndex := draggedIndex st;
     documentId := documentId st;
     lastKnownLabelsJson := lastKnownLabelsJson st; storage := storage st;
     pageTitle := pageTitle st; href := href st; mounted := mounted st;
     refreshes := refreshes st |}.

Definition set_draggedIndex (i : option Z) (st : State) : State :=
  {| labels := labels st; draggedIndex := i;
     documentId := documentId st;
     lastKnownLabelsJson := lastKnownLabelsJson st; storage := storage st;
     pageTitle := pageTitle st; href := href st; mounted := mounted st;
     refreshes := refreshes st |}.

Definition set_lastKnownLabelsJson (s : string) (st : State) : State :=
  {| labels := labels st; draggedIndex := draggedIndex st;
     documentId := documentId st;
     lastKnownLabelsJson := s; storage := storage st;
     pageTitle := pageTitle st; href := href st; mounted := mounted st;
     refreshes := refreshes st |}.

Definition set_storage (ls : localStorage.t) (st : State) : State :=
  {| labels := labels st; draggedIndex := draggedIndex st;
     documentId := documentId st;
     lastKnownLabelsJson := lastKnownLabelsJson st; storage := ls;
     pageTitle := pageTitle st; href := href st; mounted := mounted st;
     refreshes := refreshes st |}.

Definition set_refreshes (n : nat) (st : State) : State :=
  {| labels := labels st; draggedIndex := draggedIndex st;
     documentId := documentId st;
     lastKnownLabelsJson := lastKnownLabelsJson st; storage := storage st;
     pageTitle := pageTitle st; href := href st; mounted := mounted st;
     refreshes := n |}.

(** *** The monad of the script: state, and exceptions that keep it *)

Definition JS (A : Type) : Type := State -> State * completion A.

Definition ret {A : Type} (a : A) : JS A := fun st => (st, Normal a).

Definition throw {A : Type} (e : exn) : JS A := fun st => (st, Throw e).

Definition bind {A B : Type} (m : JS A) (k : A -> JS B) : JS B :=
  fun st =>
    match m st with
    | (st', Normal a) => k a st'
    | (st', Throw e) => (st', Throw e)
    end.

(** [try { m } catch (e) { h e }]: what [m] did to the state before it
    threw stays done. *)
Definition try_catch {A : Type} (m : JS A) (h : exn -> JS A) : JS A :=
  fun st =>
    match m st with
    | (st', Normal a) => (st', Normal a)
    | (st', Throw e) => h e st'
    end.

Definition lift {A : Type} (c : completion A) : JS A := fun st => (st, c).

Definition get {A : Type} (f : State -> A) : JS A :=
  fun st => (st, Normal (f st)).

Definition modify (f : State -> State) : JS unit :=
  fun st => (f st, Normal tt).

Declare Scope js_scope.
Delimit Scope js_scope with js.
Notation "x <- m ;; k" := (bind m (fun x => k))
  (at level 61, m at next level, right associativity) : js_scope.
Notation "m ;; k" := (bind m (fun _ => k))
  (at level 61, right associativity) : js_scope.
Local Open Scope js_scope.

(** [l.forEach(f)], with the one local variable the callback updates
    threaded through. *)
Fixpoint forEach {A B : Type} (l : list A) (f : A -> B -> JS B) (b : B)
  : JS B :=
  match l with
  | [] => ret b
  | x :: r => b' <- f x b ;; forEach r f b'
  end.

(** [localStorage.getItem(k)]. *)
Definition getItem (k : string) : JS (option string) :=
  get (fun st => localStorage.getItem (storage st) k).

(** [localStorage.setItem(k, v)]. *)
Definition setItem (k v : string) : JS unit :=
  fun st =>
    match localStorage.setItem (storage st) k v with
    | Some ls => (set_storage ls st, Normal tt)
    | None => (st, Throw QuotaExceededError)
    end.

(** [JSON.parse(s)] as a step of the script. *)
Definition JSON_parse (s : string) : completion json :=
  match JSON.parse s with
  | Some v => Normal v
  | None => Throw SyntaxError
  end.

(** ** content.js *)

(** The class [[a-zA-Z0-9_-]] of the document id. *)
Definition is_id_char (c : ascii) : bool :=
  let n := nat_of_ascii c in
  (Nat.leb 97 n && Nat.leb n 122) || (Nat.leb 65 n && Nat.leb n 90)
  || (Nat.leb 48 n && Nat.leb n 57) || Nat.eqb n 95 || Nat.eqb n 45.

(** The longest run of id characters at the head of [s]: the greedy group
    [([a-zA-Z0-9_-]+)]. *)
Fixpoint take_id (s : string) : string :=
  match s with
  | String c r => if is_id_char c then String c (take_id r) else EmptyString
  | EmptyString => EmptyString
  end.

(** [url.match(/\/document\/d\/([a-zA-Z0-9_-]+)/)], first group: the
    leftmost place where [/document/d/] is followed by an id character. *)
Fixpoint match_document_id (url : string) : option string :=
  let next :=
    match url with
    | String _ r => match_document_id r
    | EmptyString => None
    end in
  match strip_prefix "/document/d/" url with
  | Some rest =>
      match take_id rest with
      | EmptyString => next
      | id => Some id
      end
  | None => next
  end.

(** [getDocumentIdFromUrl(url)], lines 25-28; a value that is not a string
    has no method [match]. *)
Definition getDocumentIdFromUrl (url : json) : completion (option string) :=
  match url with
  | JStr s => Normal (match_document_id s)
  | _ => Throw TypeError
  end.

(** [getDocumentTitle()], lines 31-42: the text found in the page, or
    ['Untitled']. *)
Definition getDocumentTitle : JS string :=
  get (fun st => if String.eqb (pageTitle st) "" then "Untitled"
                 else pageTitle st).

(** [!id] for a document id, [null] or a string. *)
Definition no_id (id : option string) : bool :=
  match id with
  | Some (String _ _) => false
  | _ => true
  end.

(** [getStorageKey(docId)], lines 45-47: ['gd-labels-' + (docId ||
    documentId)]. *)
Definition getStorageKey (docId : option string) : JS string :=
  get (fun st =>
         "gd-labels-" ++
           (if no_id docId then
              match documentId st with Some d => d | None => "null" end
            else match docId with Some d => d | None => "" end)).

(** The object [saveLabels] stores: [{labels, title, url}]. *)
Definition record (lbls : json) (title url : string) : json :=
  JObj [("labels", lbls); ("title", JStr title); ("url", JStr url)].

(** [saveLabels()], lines 50-63. *)
Definition saveLabels : JS unit :=
  id <- get documentId ;;
  if no_id id then ret tt
  else
    try_catch
      (lbls <- get labels ;;
       title <- getDocumentTitle ;;
       url <- get href ;;
       key <- getStorageKey None ;;
       setItem key (JSON.stringify (record lbls title url)) ;;
       modify (set_lastKnownLabelsJson (JSON.stringify lbls)))
      (fun _ => ret tt).

(** [if (saved)] on what [getItem] returned: [null] and the empty string
    are falsy. *)
Definition present (saved : option string) : option string :=
  match saved with
  | Some (String _ _ as s) => saved
  | _ => None
  end.

(** Lines 71-77 and 94-99: the labels of a parsed stored value, which is
    the legacy array or an object with a property [labels]. *)
Definition labels_of (data : json) : completion json :=
  if isArray data then Normal data
  else
    match get_prop data "labels" with
    | Normal x => Normal (or_default x (JArr []))
    | Throw e => Throw e
    end.

(** [JSON.parse(saved)] followed by the choice of the labels. *)
Definition parse_labels (s : string) : completion json :=
  match JSON_parse s with
  | Normal data => labels_of data
  | Throw e => Throw e
  end.

(** Lines 91-100: [currentLabels], the labels re-read from the stored
    value, [[]] when there is none. *)
Definition current_labels (saved : option string) : completion json :=
  match present saved with
  | Some s => parse_labels s
  | None => Normal (JArr [])
  end.

(** [loadLabels()], lines 66-85. *)
Definition loadLabels : JS unit :=
  id <- get documentId ;;
  if no_id id then ret tt
  else
    try_catch
      (key <- getStorageKey None ;;
       saved <- getItem key ;;
       match present saved with
       | Some s =>
           lbls <- lift (parse_labels s) ;;
           modify (set_labels lbls)
       | None => ret tt
       end ;;
       lbls <- get labels ;;
       modify (set_lastKnownLabelsJson (JSON.stringify lbls)))
      (fun _ =>
         modify (set_labels (JArr [])) ;;
         modify (set_lastKnownLabelsJson "[]")).

(** What [updateLabelsDisplay] needs of [labels] once the list is in the
    page: [labels.length === 0], or a method [forEach]. *)
Definition displayable (lbls : json) : bool :=
  match lbls with
  | JArr _ => true
  | JStr s => String.eqb s ""
  | JObj m =>
      match obj_get m "length" with
      | Some (JNum 0) => true
      | _ => false
      end
  | _ => false
  end.

(** [updateLabelsDisplay()], lines 379-538: the refresh of the rendering
    layer.  The rows it builds are not modelled; the call is counted. *)
Definition updateLabelsDisplay : JS unit :=
  modify (fun st => set_refreshes (S (refreshes st)) st) ;;
  m <- get mounted ;;
  if negb m then ret tt
  else
    lbls <- get labels ;;
    if displayable lbls then ret tt else throw TypeError.

(** [checkAndReloadLabels()], lines 88-111. *)
Definition checkAndReloadLabels : JS unit :=
  id <- get documentId ;;
  if no_id id then ret tt
  else
    try_catch
      (key <- getStorageKey None ;;
       saved <- getItem key ;;
       currentLabels <- lift (current_labels saved) ;;
       let currentJson := JSON.stringify currentLabels in
       lastKnown <- get lastKnownLabelsJson ;;
       if negb (String.eqb currentJson lastKnown) then
         modify (set_labels currentLabels) ;;
         modify (set_lastKnownLabelsJson currentJson) ;;
         updateLabelsDisplay
       else ret tt)
      (fun _ => ret tt).

(** Line 128: the address derived from a document id. *)
Definition derived_url (docId : string) : string :=
  "https://docs.google.com/document/d/" ++ docId ++ "/edit".

(** Lines 126-137: the labels, the title and the address read from a
    parsed stored value, with their defaults. *)
Definition decode (docId : string) (data : json)
  : completion (json * json * json) :=
  let docUrl := JStr (derived_url docId) in
  if isArray data then Normal (data, JStr "Untitled", docUrl)
  else
    match get_prop data "labels", get_prop data "title", get_prop data "url" with
    | Normal l, Normal t, Normal u =>
        Normal (or_default l (JArr []), or_default t (JStr "Untitled"),
                or_default u docUrl)
    | Throw e, _, _ | _, Throw e, _ | _, _, Throw e => Throw e
    end.

(** [JSON.parse(saved)] on what [getItem] returned; [null] reads as the
    text [null]. *)
Definition JSON_parse_item (saved : option string) : completion json :=
  match saved with
  | Some s => JSON_parse s
  | None => Normal JNull
  end.

(** The body of the loop of [findDocumentsWithLabel], lines 119-150, for
    one key. *)
Definition scan_key (labelName : json) (currentDocId : option string)
    (key : string) (documents : list json) : JS (list json) :=
  match strip_prefix "gd-labels-" key with
  | None => ret documents
  | Some docId =>
      try_catch
        (saved <- getItem key ;;
         data <- lift (JSON_parse_item saved) ;;
         d <- lift (decode docId data) ;;
         let '(docLabels, docTitle, docUrl) := d in
         found <- lift (value_includes (Some docLabels) labelName) ;;
         if found then
           ret (documents ++
                  [JObj [("id", JStr docId); ("title", docTitle);
                         ("url", docUrl);
                         ("isCurrent",
                          JBool (match currentDocId with
                                 | Some c => String.eqb docId c
                                 | None => false
                                 end))]])%list
         else ret documents)
        (fun _ => ret documents)
  end.

(** [findDocumentsWithLabel(labelName)], lines 114-154. *)
Definition findDocumentsWithLabel (labelName : json) : JS (list json) :=
  currentDocId <- get documentId ;;
  keys <- get (fun st => localStorage.keys (storage st)) ;;
  forEach keys (scan_key labelName currentDocId) [].

(** Lines 188-203: the value of [existingData] after the inner [try].
    [fresh] is the record made from the payload entry.  A stored array
    becomes its [labels]; any other parsed value replaces it, and gets a
    property [labels] unless it is [null] or a primitive, on which the
    assignment throws (strict mode) and is caught; a text that does not
    parse leaves [fresh]. *)
Definition existing_data (saved : option string)
    (fresh : list (string * json)) : json :=
  match present saved with
  | Some s =>
      match JSON.parse s with
      | Some (JArr l) => JObj (obj_set fresh "labels" (JArr l))
      | Some (JObj m) =>
          JObj (obj_set m "labels" (or_default (obj_get m "labels") (JArr [])))
      | Some data => data
      | None => JObj fresh
      end
  | None => JObj fresh
  end.

(** The callback of [importData.documents.forEach], lines 181-211, with
    the counter [importedCount] it increments. *)
Definition import_entry (labelName doc : json) (importedCount : nat)
  : JS nat :=
  url <- lift (get_prop doc "url") ;;
  match url with
  | Some u =>
      if negb (truthy u) then ret importedCount
      else
        docId <- lift (getDocumentIdFromUrl u) ;;
        if no_id docId then ret importedCount
        else
          storageKey <- getStorageKey docId ;;
          title <- lift (get_prop doc "title") ;;
          saved <- getItem storageKey ;;
          let existingData :=
            existing_data saved
              [("labels", JArr []);
               ("title", or_default title (JStr "Untitled"));
               ("url", u)] in
          lbls <- lift (get_prop existingData "labels") ;;
          found <- lift (value_includes lbls labelName) ;;
          if found then ret importedCount
          else
            match existingData, lbls with
            | JObj m, Some (JArr l) =>
                setItem storageKey
                  (JSON.stringify
                     (JObj (obj_set m "labels" (JArr (l ++ [labelName])))))
                ;;
                ret (S importedCount)
            | _, _ => throw TypeError
            end
  | None => ret importedCount
  end.

Definition invalid_format : json :=
  JObj [("success", JBool false);
        ("message", JStr "Invalid JSON format. Expected { label, documents }")].

(** The result of the [catch] of [importLabel], line 222. *)
Definition failed (e : exn) : json :=
  JObj [("success", JBool false);
        ("message", JStr ("Invalid JSON: " ++ message e))].

(** The result of a completed import, lines 217-220. *)
Definition imported (labelName : json) (importedCount : nat) : json :=
  JObj [("success", JBool true);
        ("message",
         JStr (dq "Imported label '" ++ to_string labelName ++ dq "' to "
                 ++ num_to_string (Z.of_nat importedCount)
                 ++ " document(s)."))].

(** [importLabel(jsonString)], lines 170-224. *)
Definition importLabel (jsonString : string) : JS json :=
  try_catch
    (importData <- lift (JSON_parse jsonString) ;;
     label <- lift (get_prop importData "label") ;;
     documents <- lift (get_prop importData "documents") ;;
     match label, documents with
     | Some labelName, Some (JArr docs) =>
         if truthy labelName then
           importedCount <- forEach docs (import_entry labelName) 0 ;;
           loadLabels ;;
           updateLabelsDisplay ;;
           ret (imported labelName importedCount)
         else ret invalid_format
     | _, _ => ret invalid_format
     end)
    (fun e => ret (failed e)).

(** The white space [String.prototype.trim] removes, among the code units
    of the model. *)
Definition is_space (c : ascii) : bool :=
  let n := nat_of_ascii c in
  (Nat.leb 9 n && Nat.leb n 13) || Nat.eqb n 32 || Nat.eqb n 160.

Fixpoint trim_start (s : string) : string :=
  match s with
  | String c r => if is_space c then trim_start r else s
  | EmptyString => EmptyString
  end.

Fixpoint trim_end (s : string) : string :=
  match s with
  | String c r =>
      match trim_end r with
      | EmptyString => if is_space c then EmptyString else String c EmptyString
      | r' => String c r'
      end
  | EmptyString => EmptyString
  end.

Definition trim (s : string) : string := trim_end (trim_start s).

(** [addLabel(labelText)], lines 591-597. *)
Definition addLabel (labelText : string) : JS unit :=
  if negb (String.eqb labelText "") && negb (String.eqb (trim labelText) "")
  then
    lbls <- get labels ;;
    match lbls with
    | JArr l =>
        modify (set_labels (JArr (l ++ [JStr (trim labelText)]))) ;;
        saveLabels ;;
        updateLabelsDisplay
    | _ => throw TypeError
    end
  else ret tt.

(** [removeLabel(index)], lines 599-603. *)
Definition removeLabel (index : Z) : JS unit :=
  lbls <- get labels ;;
  match lbls with
  | JArr l =>
      modify (set_labels (JArr (splice l index 1 []))) ;;
      saveLabels ;;
      updateLabelsDisplay
  | _ => throw TypeError
  end.

(** The [dragstart] listener of the row at [index], lines 401-405. *)
Definition onDragStart (index : Z) : JS unit :=
  modify (set_draggedIndex (Some index)).

(** The reordering of the [drop] listener, lines 444-446, on the array. *)
Definition reorder (l : list json) (fromIndex toIndex : Z) : list json :=
  let draggedLabel := array_get l fromIndex in
  splice (splice l fromIndex 1 []) toIndex 0 [draggedLabel].

(** The [drop] listener of a row, lines 439-450: the spec's
    [reorderLabel], from [draggedIndex] to the row's index. *)
Definition onDrop (targetIndex : Z) : JS unit :=
  dragged <- get draggedIndex ;;
  match dragged with
  | Some fromIndex =>
      if negb (Z.eqb targetIndex fromIndex) then
        lbls <- get labels ;;
        match lbls with
        | JArr l =>
            modify (set_labels (JArr (reorder l fromIndex targetIndex))) ;;
            saveLabels ;;
            updateLabelsDisplay
        | _ => throw TypeError
        end
      else ret tt
  | None => ret tt
  end.

(** ** content.js: the rest of the label store *)

(** [getDocumentId()], lines 19-22: the same pattern, on the path of the
    address of the page. *)
Definition getDocumentId (pathname : string) : option string :=
  match_document_id pathname.

(** An object literal; a property whose value is [undefined] is one that
    [JSON.stringify] leaves out. *)
Definition literal (props : list (string * option json)) : json :=
  JObj (flat_map (fun p => match snd p with
                           | Some v => [(fst p, v)]
                           | None => []
                           end) props).

(** The callback of [documents.map] in [exportLabel], lines 161-164. *)
Definition export_entry (doc : json) : completion json :=
  match get_prop doc "title", get_prop doc "url" with
  | Normal t, Normal u => Normal (literal [("title", t); ("url", u)])
  | Throw e, _ | _, Throw e => Throw e
  end.

(** [l.map(f)] for a callback that can throw. *)
Fixpoint map_completion {A B : Type} (f : A -> completion B) (l : list A)
  : completion (list B) :=
  match l with
  | [] => Normal []
  | x :: r =>
      match f x with
      | Normal y =>
          match map_completion f r with
          | Normal ys => Normal (y :: ys)
          | Throw e => Throw e
          end
      | Throw e => Throw e
      end
  end.

(** [exportLabel(labelName)], lines 157-167. *)
Definition exportLabel (labelName : json) : JS string :=
  documents <- findDocumentsWithLabel labelName ;;
  entries <- lift (map_completion export_entry documents) ;;
  ret (JSON.stringify_indent 0
         (JObj [("label", labelName); ("documents", JArr entries)])).

(** The [dragend] listener of a row, lines 407-416. *)
Definition onDragEnd : JS unit := modify (set_draggedIndex None).

Definition set_mounted (b : bool) (st : State) : State :=
  {| labels := labels st; draggedIndex := draggedIndex st;
     documentId := documentId st;
     lastKnownLabelsJson := lastKnownLabelsJson st; storage := storage st;
     pageTitle := pageTitle st; href := href st; mounted := b;
     refreshes := refreshes st |}.

(** [createLabelsSection], lines 684-773, where it builds the section: the
    two elements of the list exist from lines 729-738 on, then the labels
    are loaded and displayed (lines 751-752).  The timer and the listeners
    it registers afterwards are the three handlers below. *)
Definition createLabelsSection : JS unit :=
  modify (set_mounted true) ;;
  loadLabels ;;
  updateLabelsDisplay.

(** The callback of the timer of lines 755-758, two seconds after the
    section is built; the global [documentTitle] it sets is read
    nowhere. *)
Definition onTitleTimer : JS unit := saveLabels.

(** The [visibilitychange] listener, lines 761-765. *)
Definition onVisibilityChange (visible : bool) : JS unit :=
  if visible then checkAndReloadLabels else ret tt.

(** The [focus] listener, lines 768-770. *)
Definition onFocus : JS unit := checkAndReloadLabels.

(** ** Notions used in the statements *)

(** The key of the active document. *)
Definition active_key (st : State) : string :=
  "gd-labels-" ++ match documentId st with Some d => d | None => "null" end.

(** The text [saveLabels] writes. *)
Definition saved_text (st : State) : string :=
  JSON.stringify
    (record (labels st)
       (if String.eqb (pageTitle st) "" then "Untitled" else pageTitle st)
       (href st)).

(** The text stored for a record: [JSON.stringify] of the object
    [saveLabels] builds. *)
Definition encode (lbls : json) (title url : string) : string :=
  JSON.stringify (record lbls title url).

(** The record [findDocumentsWithLabel] reads from the text stored for a
    document: [JSON.parse], then the fields with their defaults. *)
Definition decode_stored (docId : string) (s : string)
  : completion (json * json * json) :=
  match JSON_parse s with
  | Normal data => decode docId data
  | Throw e => Throw e
  end.

(** A label list made of strings. *)
Definition strings (ls : list string) : json := JArr (map JStr ls).

(** The entry [findDocumentsWithLabel] pushes for a key and its stored
    value, if any: the body of its loop, as a function. *)
Definition listing (labelName : json) (currentDocId : option string)
    (key : string) (saved : option string) : option json :=
  match strip_prefix "gd-labels-" key with
  | None => None
  | Some docId =>
      match JSON_parse_item saved with
      | Normal data =>
          match decode docId data with
          | Normal (docLabels, docTitle, docUrl) =>
              match value_includes (Some docLabels) labelName with
              | Normal true =>
                  Some (JObj [("id", JStr docId); ("title", docTitle);
                              ("url", docUrl);
                              ("isCurrent",
                               JBool (match currentDocId with
                                      | Some c => String.eqb docId c
                                      | None => false
                                      end))])
              | _ => None
              end
          | Throw _ => None
          end
      | Throw _ => None
      end
  end.

(** A label that [includes] finds by value: any value but an array or an
    object. *)
Definition primitive (v : json) : bool :=
  match v with
  | JArr _ | JObj _ => false
  | _ => true
  end.

(** Whether [findDocumentsWithLabel] lists the document of a key, given
    its stored value. *)
Definition listed (labelName : json) (key : string) (saved : option string)
  : bool :=
  match listing labelName None key saved with
  | Some _ => true
  | None => false
  end.

(** The documents [findDocumentsWithLabel] returns in a state. *)
Definition documents_with (labelName : json) (st : State) : list json :=
  match snd (findDocumentsWithLabel labelName st) with
  | Normal docs => docs
  | Throw _ => []
  end.

(** The label and the entries of an import text that passes the check of
    line 174. *)
Definition valid_payload (jsonString : string) : option (json * list json) :=
  match JSON.parse jsonString with
  | Some importData =>
      match get_prop importData "label", get_prop importData "documents" with
      | Normal (Some labelName), Normal (Some (JArr docs)) =>
          if truthy labelName then Some (labelName, docs) else None
      | _, _ => None
      end
  | None => None
  end.

(** Lines 182-188 of the callback: the key an entry addresses with the
    record made for it, [None] for an entry that is passed over, or the
    error the entry raises. *)
Definition entry_target (doc : json)
  : completion (option (string * list (string * json))) :=
  match get_prop doc "url" with
  | Throw e => Throw e
  | Normal None => Normal None
  | Normal (Some u) =>
      if negb (truthy u) then Normal None
      else
        match getDocumentIdFromUrl u with
        | Throw e => Throw e
        | Normal (Some (String c r)) =>
            Normal (Some ("gd-labels-" ++ String c r,
                          [("labels", JArr []);
                           ("title",
                            or_default
                              (match get_prop doc "title" with
                               | Normal t => t
                               | Throw _ => None
                               end) (JStr "Untitled"));
                           ("url", u)]))
        | Normal _ => Normal None
        end
  end.

(** Lines 190-210 of the callback: the merge of the label into the record
    stored under [key]. *)
Definition merge_entry (labelName : json) (key : string)
    (fresh : list (string * json)) (importedCount : nat) : JS nat :=
  fun st =>
    let existingData :=
      existing_data (localStorage.getItem (storage st) key) fresh in
    match get_prop existingData "labels" with
    | Throw e => (st, Throw e)
    | Normal lbls =>
        match value_includes lbls labelName with
        | Throw e => (st, Throw e)
        | Normal true => (st, Normal importedCount)
        | Normal false =>
            match existingData, lbls with
            | JObj m, Some (JArr l) =>
                match localStorage.setItem (storage st) key
                        (JSON.stringify
                           (JObj (obj_set m "labels"
                                    (JArr (l ++ [labelName])))))
                with
                | Some ls => (set_storage ls st, Normal (S importedCount))
                | None => (st, Throw QuotaExceededError)
                end
            | _, _ => (st, Throw TypeError)
            end
        end
    end.

(** Whether the import finds the label in the record it reads under a
    key: the test of line 206, with an error counted as not found. *)
Definition found (labelName : json) (saved : option string)
    (fresh : list (string * json)) : bool :=
  match get_prop (existing_data saved fresh) "labels" with
  | Normal lbls =>
      match value_includes lbls labelName with
      | Normal b => b
      | Throw _ => false
      end
  | Throw _ => false
  end.

(** An entry is settled in a state when importing it there changes
    nothing: it is passed over, or its record lists the label already. *)
Definition settled (labelName : json) (st : State) (doc : json) : Prop :=
  match entry_target doc with
  | Throw _ => False
  | Normal None => True
  | Normal (Some (key, _)) =>
      listed labelName key (localStorage.getItem (storage st) key) = true
  end.

(** The number of keys of a storage whose document
    [findDocumentsWithLabel] lists. *)
Definition count_listed (labelName : json) (ls : localStorage.t) : nat :=
  list_sum
    (map (fun key =>
            if listed labelName key (localStorage.getItem ls key) then 1
            else 0)
       (localStorage.keys ls)).

(** A state of the script on an open document: empty label list, nothing
    stored, the list in the page. *)
Definition initial (docId title url : string) (room : nat) : State :=
  {| labels := JArr []; draggedIndex := None; documentId := Some docId;
     lastKnownLabelsJson := ""; pageTitle := title; href := url;
     storage := {| localStorage.items := []; localStorage.quota := room |};
     mounted := true; refreshes := 0 |}.

(** A state with the given labels in memory and pairs in the storage. *)
Definition with_store (lbls : list json) (pairs : list (string * string))
    (st : State) : State :=
  set_storage {| localStorage.items := pairs;
                 localStorage.quota := localStorage.quota (storage st) |}
    (set_labels (JArr lbls) st).

(** [l] without its item at position [i]. *)
Definition remove_at {A : Type} (i : nat) (l : list A) : list A :=
  (firstn i l ++ skipn (S i) l)%list.

(** [l] with [x] put at position [j]. *)
Definition insert_at {A : Type} (j : nat) (x : A) (l : list A) : list A :=
  (firstn j l ++ x :: skipn j l)%list.

(** *** Notions for the further properties *)

(** A string made of characters of a document id only. *)
Fixpoint all_id_chars (s : string) : bool :=
  match s with
  | EmptyString => true
  | String c r => is_id_char c && all_id_chars r
  end.

(** A string of white space only. *)
Fixpoint all_space (s : string) : bool :=
  match s with
  | EmptyString => true
  | String c r => is_space c && all_space r
  end.

Definition starts_with_space (s : string) : bool :=
  match s with
  | String c _ => is_space c
  | EmptyString => false
  end.

Fixpoint ends_with_space (s : string) : bool :=
  match s with
  | EmptyString => false
  | String c EmptyString => is_space c
  | String _ r => ends_with_space r
  end.

(** The entry the scan builds for a document. *)
Definition scan_entry (c : option string) (docId : string) (t u : json)
  : json :=
  JObj [("id", JStr docId); ("title", t); ("url", u);
        ("isCurrent", JBool (match c with
                             | Some d => String.eqb docId d
                             | None => false
                             end))].

(** The pattern that precedes a document id in an address. *)
Definition id_marker : string := "/document/d/".

(** ** Examples *)

Module Examples.

Definition urlA : string := "https://docs.google.com/document/d/docA/edit".
Definition urlB : string := "https://docs.google.com/document/d/docB/edit".

(** The script on document [docA], titled "Report", before anything is
    stored. *)
Definition blank : State := initial "docA" "Report" urlA 5000.

(** The same with the labels [a], [b] in memory. *)
Definition st_ab : State := with_store [JStr "a"; JStr "b"] [] blank.

(** The labels [a], [b], [c], [d] in memory, the row 0 being dragged. *)
Definition st_drag : State :=
  set_draggedIndex (Some 0%Z)
    (with_store [JStr "a"; JStr "b"; JStr "c"; JStr "d"] [] blank).

(** Last known labels [a], [b]; another tab has stored [a], [b], [c]. *)
Definition st_behind : State :=
  set_lastKnownLabelsJson (JSON.stringify (strings ["a"; "b"]))
    (with_store [JStr "a"; JStr "b"]
       [("gd-labels-docA", encode (strings ["a"; "b"; "c"]) "Report" urlA)]
       blank).

(** Last known labels [a]; the stored value is a text that does not
    parse. *)
Definition st_malformed : State :=
  set_lastKnownLabelsJson (JSON.stringify (strings ["a"]))
    (with_store [JStr "a"] [("gd-labels-docA", "{")] blank).

(** A legacy value, the bare array, stored for document [abc]. *)
Definition st_legacy : State :=
  with_store [] [("gd-labels-abc", dq "['x','y']")] blank.

(** [docA] lists [Q1] and [x]; [docB] has no label. *)
Definition two_docs : list (string * string) :=
  [("gd-labels-docA", encode (strings ["x"; "Q1"]) "Report" urlA);
   ("gd-labels-docB", encode (strings []) "Notes" urlB)].

Definition st_two : State := with_store [] two_docs blank.

(** The export of [Q1] from a storage where both documents list it. *)
Definition payload : string :=
  dq "{'label':'Q1','documents':[{'title':'Report','url':'"
  ++ urlA ++ dq "'},{'title':'Notes','url':'" ++ urlB ++ dq "'}]}".

(** The entries of [payload], parsed. *)
Definition payload_docs : list json :=
  [JObj [("title", JStr "Report"); ("url", JStr urlA)];
   JObj [("title", JStr "Notes"); ("url", JStr urlB)]].

(** The same with the two entries in the other order. *)
Definition payload_rev : string :=
  dq "{'label':'Q1','documents':[{'title':'Notes','url':'"
  ++ urlB ++ dq "'},{'title':'Report','url':'" ++ urlA ++ dq "'}]}".

(** The same with the entry of [docB] only. *)
Definition payload_B : string :=
  dq "{'label':'Q1','documents':[{'title':'Notes','url':'"
  ++ urlB ++ dq "'}]}".

(** [docA] lists [x], [docB] nothing, and the storage has room for four
    more code units: enough to add [Q1] to the empty list of [docB], one
    short of adding it after [x] in [docA]. *)
Definition tight_docs : list (string * string) :=
  [("gd-labels-docA", encode (strings ["x"]) "Report" urlA);
   ("gd-labels-docB", encode (strings []) "Notes" urlB)].

Definition st_tight : State :=
  set_storage {| localStorage.items := tight_docs;
                 localStorage.quota := localStorage.size tight_docs + 4 |}
    blank.

(** A legacy value, the bare array, stored for the active document. *)
Definition st_legacy_active : State :=
  with_store [] [("gd-labels-docA", dq "['x','y']")] blank.

(** A second tab on [docA] that shows no label, its snapshot in step. *)
Definition tab_b : State := set_lastKnownLabelsJson "[]" blank.

(** The labels [a], [b], and a dragged index left from a longer list. *)
Definition st_stale : State := set_draggedIndex (Some 3%Z) st_ab.

End Examples.
(** * Properties *)

(** ** Strings *)

Lemma strip_prefix_app p r : strip_prefix p (p ++ r) = Some r.
Proof.
  induction p as [|a p IH]; simpl; [reflexivity|].
  rewrite Ascii.eqb_refl. exact IH.
Qed.

Lemma strip_prefix_spec p s r : strip_prefix p s = Some r -> s = p ++ r.
Proof.
  revert s; induction p as [|a p IH]; intros s H; simpl in *.
  - congruence.
  - destruct s as [|b s]; [discriminate|].
    destruct (Ascii.eqb_spec a b); [subst|discriminate].
    f_equal. apply IH. exact H.
Qed.

(** ** JSON: examples *)

Example parse_legacy :
  JSON.parse (dq "['x', 'y']") = Some (JArr [JStr "x"; JStr "y"]).
Proof. vm_compute. reflexivity. Qed.

Example parse_record :
  JSON.parse (dq "{ 'labels' : ['a\n',-12,true,null,{}] , 'title':'T', 'labels':[]}")
  = Some (JObj [("labels", JArr []); ("title", JStr "T")]).
Proof. vm_compute. reflexivity. Qed.

Example stringify_record :
  JSON.stringify (JObj [("labels", JArr [JStr "a"; JNum (-12)]); ("title", JStr "T")])
  = dq "{'labels':['a',-12],'title':'T'}".
Proof. vm_compute. reflexivity. Qed.

Example parse_bad :
  JSON.parse (dq "{'labels':[1.5]}") = None
  /\ JSON.parse "" = None /\ JSON.parse "012" = None.
Proof. vm_compute. auto. Qed.

(** ** Strings: append *)

Lemma sapp_assoc (a b c : string) : (a ++ b) ++ c = a ++ (b ++ c).
Proof. induction a as [|x a IH]; simpl; [reflexivity | now rewrite IH]. Qed.

Lemma sapp_nil_r (a : string) : a ++ "" = a.
Proof. induction a as [|x a IH]; simpl; [reflexivity | now rewrite IH]. Qed.

Lemma slength_app (a b : string) :
  String.length (a ++ b) = String.length a + String.length b.
Proof. induction a as [|x a IH]; simpl; [reflexivity | now rewrite IH]. Qed.

(** ** JSON: the round trip of [stringify] and [parse] *)

Module JSONFacts.
Import JSON.

Lemma read_uint_print (d : uint) (rest : string) :
  no_digit rest ->
  read_uint (NilEmpty.string_of_uint d ++ rest) = (d, rest).
Proof.
  intros Hr.
  induction d; simpl;
    try (rewrite IHd; reflexivity).
  destruct rest as [|c r]; simpl in *; [reflexivity | now rewrite Hr].
Qed.

Lemma to_uint_head (p : positive) :
  match Pos.to_uint p with Nil | D0 _ => False | _ => True end.
Proof.
  destruct (Pos.to_uint p) as [|d'| | | | | | | | | ] eqn:E; try exact I.
  - now apply (DecimalPos.Unsigned.to_uint_nonnil p).
  - assert (Hn : unorm (Pos.to_uint p) = Pos.to_uint p).
    { rewrite <- (DecimalPos.Unsigned.to_of (Pos.to_uint p)).
      now rewrite DecimalPos.Unsigned.of_to. }
    rewrite E in Hn. rewrite DecimalFacts.unorm_D0 in Hn.
    destruct d' as [|d''| | | | | | | | | ] eqn:E';
      try (assert (Hl := DecimalFacts.nb_digits_unorm d');
           subst d'; rewrite Hn in Hl; simpl in Hl;
           specialize (Hl ltac:(discriminate)); lia).
    apply (DecimalPos.Unsigned.to_uint_nonzero p). exact E.
Qed.

Lemma read_nat_print (p : positive) (rest : string) :
  no_digit rest ->
  read_nat (NilEmpty.string_of_uint (Pos.to_uint p) ++ rest)
  = Some (Zpos p, rest).
Proof.
  intros Hr. unfold read_nat. rewrite read_uint_print by exact Hr.
  assert (Hh := to_uint_head p).
  assert (Hv : N.of_uint (Pos.to_uint p) = Npos p)
    by apply DecimalPos.Unsigned.of_to.
  destruct (Pos.to_uint p); try contradiction; rewrite Hv; reflexivity.
Qed.

Lemma print_head (p : positive) :
  exists c r, NilEmpty.string_of_uint (Pos.to_uint p) = String c r
              /\ digit_of c <> None /\ c <> "0"%char.
Proof.
  assert (Hh := to_uint_head p).
  destruct (Pos.to_uint p); try contradiction; simpl;
    eexists; eexists; (split; [reflexivity | split; discriminate]).
Qed.

Lemma read_number_print (n : Z) (rest : string) :
  no_digit rest ->
  read_number (num_to_string n ++ rest) = Some (n, rest).
Proof.
  intros Hr. destruct n as [|p|p]; simpl.
  - unfold read_nat. simpl.
    destruct rest as [|c r]; simpl in *; [reflexivity | now rewrite Hr].
  - destruct (print_head p) as (c & r & E & Hd & _).
    assert (H := read_nat_print p rest Hr). rewrite E in *. simpl.
    destruct (Ascii.eqb_spec c "-") as [->|_]; [now elim Hd | exact H].
  - now rewrite read_nat_print.
Qed.

(** A character of a string literal reads back from its escaped form. *)
Lemma read_chars_escape_char (c : ascii) (r : string) :
  read_chars (escape_char c ++ r) = cons_char c (read_chars r).
Proof.
  destruct c as [[] [] [] [] [] [] [] []]; reflexivity.
Qed.

Lemma read_chars_escape (s rest : string) :
  read_chars (escape s ++ String dquote rest) = Some (s, rest).
Proof.
  induction s as [|c s IH]; simpl; [reflexivity|].
  rewrite sapp_assoc, read_chars_escape_char, IH. reflexivity.
Qed.

Lemma read_string_quote (s rest : string) :
  read_string (quote s ++ rest) = Some (s, rest).
Proof.
  unfold quote. simpl. rewrite sapp_assoc. simpl.
  apply read_chars_escape.
Qed.

Lemma digit_starts (c : ascii) (r : string) :
  digit_of c <> None -> starts_value (String c r) = true.
Proof.
  destruct c as [[] [] [] [] [] [] [] []]; simpl; intros H;
    solve [reflexivity | now elim H].
Qed.

Lemma parse_value_digit (fuel : nat) (c : ascii) (r : string) :
  digit_of c <> None ->
  parse_value (S fuel) (String c r)
  = match read_number (String c r) with
    | Some (n, r') => Some (JNum n, r')
    | None => None
    end.
Proof.
  destruct c as [[] [] [] [] [] [] [] []]; simpl; intros H;
    solve [reflexivity | now elim H].
Qed.

Lemma starts_value_print (v : json) (r : string) :
  starts_value (stringify v ++ r) = true.
Proof.
  destruct v as [|[]|[|p|p]|s|l|m]; try reflexivity.
  change (stringify (JNum (Zpos p)))
    with (NilEmpty.string_of_uint (Pos.to_uint p)).
  destruct (print_head p) as (c & r' & E & Hd & _).
  rewrite E. exact (digit_starts c (r' ++ r) Hd).
Qed.

Lemma skip_ws_starts (s : string) : starts_value s = true -> skip_ws s = s.
Proof.
  destruct s as [|c r]; simpl; [reflexivity|].
  destruct (is_ws c); [discriminate | reflexivity].
Qed.

Lemma obj_set_fresh (m : list (string * json)) k v :
  has_key m k = false -> obj_set m k v = (m ++ [(k, v)])%list.
Proof.
  induction m as [|[k' v'] m IH]; simpl; [reflexivity|].
  intros H. apply orb_false_iff in H as [H1 H2].
  rewrite H1, IH by exact H2. reflexivity.
Qed.

Lemma has_key_app (m1 m2 : list (string * json)) k :
  has_key (m1 ++ m2)%list k = has_key m1 k || has_key m2 k.
Proof. unfold has_key. apply existsb_app. Qed.

(** The equations of the parser, one per call the proofs unfold. *)
Lemma parse_items_S fuel s :
  parse_items (S fuel) s
  = match parse_value fuel s with
    | Some (v, r) =>
        match skip_ws r with
        | String c r' =>
            if Ascii.eqb c "," then
              match parse_items fuel r' with
              | Some (l, r'') => Some (v :: l, r'')
              | None => None
              end
            else if Ascii.eqb c "]" then Some ([v], r')
            else None
        | EmptyString => None
        end
    | None => None
    end.
Proof. reflexivity. Qed.

Lemma parse_props_S fuel s acc :
  parse_props (S fuel) s acc
  = match read_string (skip_ws s) with
    | Some (k, r) =>
        match skip_ws r with
        | String c r1 =>
            if Ascii.eqb c ":" then
              match parse_value fuel r1 with
              | Some (v, r2) =>
                  match skip_ws r2 with
                  | String c' r3 =>
                      if Ascii.eqb c' "," then
                        parse_props fuel r3 (obj_set acc k v)
                      else if Ascii.eqb c' "}" then
                        Some (obj_set acc k v, r3)
                      else None
                  | EmptyString => None
                  end
              | None => None
              end
            else None
        | EmptyString => None
        end
    | None => None
    end.
Proof. reflexivity. Qed.

Lemma parse_value_arr fuel r :
  parse_value (S fuel) (String "[" r)
  = match skip_ws r with
    | String c' r' =>
        if Ascii.eqb c' "]" then Some (JArr [], r')
        else
          match parse_items fuel r with
          | Some (l, r'') => Some (JArr l, r'')
          | None => None
          end
    | EmptyString => None
    end.
Proof. reflexivity. Qed.

Lemma parse_value_obj fuel r :
  parse_value (S fuel) (String "{" r)
  = match skip_ws r with
    | String c' r' =>
        if Ascii.eqb c' "}" then Some (JObj [], r')
        else
          match parse_props fuel r [] with
          | Some (m, r'') => Some (JObj m, r'')
          | None => None
          end
    | EmptyString => None
    end.
Proof. reflexivity. Qed.

Section RoundTrip.

(** The statement proved by induction on the value. *)
Let reads_back (v : json) : Prop :=
  wf v = true ->
  forall fuel rest, need v <= fuel -> no_digit rest ->
    parse_value fuel (stringify v ++ rest) = Some (v, rest).

Lemma parse_items_print (l : list json) :
  Forall reads_back l -> l <> [] -> forallb wf l = true ->
  forall fuel rest,
    list_sum (map (fun x => S (need x)) l) <= fuel ->
    parse_items fuel (join stringify l ++ String "]" rest) = Some (l, rest).
Proof.
  induction 1 as [|v l Hv Hl IH]; [congruence|].
  intros _ Hwf fuel rest Hf. simpl in Hwf, Hf.
  apply andb_true_iff in Hwf as [Hwv Hwl].
  destruct fuel as [|fuel]; [lia|].
  rewrite parse_items_S.
  destruct l as [|v' l'].
  - change (join stringify [v]) with (stringify v).
    rewrite (Hv Hwv fuel (String "]" rest)); [reflexivity | lia | reflexivity].
  - change (join stringify (v :: v' :: l'))
      with (stringify v ++ String "," (join stringify (v' :: l'))).
    rewrite sapp_assoc.
    rewrite (Hv Hwv fuel); [| simpl in Hf; lia | reflexivity].
    change (String "," ?x ++ ?y) with (String "," (x ++ y)).
    change (skip_ws (String "," ?x)) with (String "," x).
    cbv iota. change (Ascii.eqb "," ",") with true. cbv iota.
    rewrite IH; [reflexivity | discriminate | exact Hwl | simpl in *; lia].
Qed.

Lemma parse_props_print (m : list (string * json)) :
  Forall (fun kv => reads_back (snd kv)) m -> m <> [] ->
  nodup_keys m = true -> forallb (fun kv => wf (snd kv)) m = true ->
  forall fuel rest acc,
    (forall kv, In kv m -> has_key acc (fst kv) = false) ->
    list_sum (map (fun kv => S (need (snd kv))) m) <= fuel ->
    parse_props fuel
      (join (fun kv => quote (fst kv) ++ String ":" (stringify (snd kv))) m
         ++ String "}" rest) acc
    = Some ((acc ++ m)%list, rest).
Proof.
  induction 1 as [|[k v] m Hv Hm IH]; [congruence|].
  intros _ Hnd Hwf fuel rest acc Hacc Hf. simpl in Hnd, Hwf, Hf, Hv.
  apply andb_true_iff in Hwf as [Hwv Hwm].
  apply andb_true_iff in Hnd as [Hk Hnd].
  apply negb_true_iff in Hk.
  destruct fuel as [|fuel]; [lia|].
  assert (Hfresh : has_key acc k = false) by (apply (Hacc (k, v)); now left).
  assert (Hq : forall x, skip_ws (quote k ++ x) = quote k ++ x) by reflexivity.
  rewrite parse_props_S.
  destruct m as [|kv' m'].
  - change (join _ [(k, v)]) with (quote k ++ String ":" (stringify v)).
    rewrite !sapp_assoc, Hq, read_string_quote.
    change (String ":" ?x ++ ?y) with (String ":" (x ++ y)).
    change (skip_ws (String ":" ?x)) with (String ":" x).
    cbv iota. change (Ascii.eqb ":" ":") with true. cbv iota.
    rewrite (Hv Hwv fuel); [| lia | reflexivity].
    change (skip_ws (String "}" ?x)) with (String "}" x).
    cbv iota. change (Ascii.eqb "}" ",") with false.
    change (Ascii.eqb "}" "}") with true. cbv iota.
    now rewrite obj_set_fresh.
  - change (join _ ((k, v) :: kv' :: m'))
      with ((quote k ++ String ":" (stringify v))
              ++ String ","
                   (join (fun kv => quote (fst kv)
                                      ++ String ":" (stringify (snd kv)))
                      (kv' :: m'))).
    rewrite !sapp_assoc, Hq, read_string_quote.
    change (String ":" ?x ++ ?y) with (String ":" (x ++ y)).
    change (skip_ws (String ":" ?x)) with (String ":" x).
    cbv iota. change (Ascii.eqb ":" ":") with true. cbv iota.
    rewrite ?sapp_assoc.
    rewrite (Hv Hwv fuel); [| simpl in Hf; lia | reflexivity].
    change (String "," ?x ++ ?y) with (String "," (x ++ y)).
    change (skip_ws (String "," ?x)) with (String "," x).
    cbv iota. change (Ascii.eqb "," ",") with true. cbv iota.
    rewrite IH; try assumption; try discriminate.
    + rewrite obj_set_fresh by exact Hfresh.
      now rewrite <- app_assoc.
    + intros kv Hin. rewrite obj_set_fresh by exact Hfresh.
      rewrite has_key_app, (Hacc kv) by now right. simpl.
      rewrite orb_false_r.
      destruct (String.eqb_spec (fst kv) k) as [E|]; [|reflexivity].
      exfalso. unfold has_key in Hk.
      assert (Ht : existsb (fun kv0 => (k =? fst kv0)%string) (kv' :: m') = true).
      { apply existsb_exists. exists kv. split; [exact Hin|].
        rewrite E. apply String.eqb_refl. }
      congruence.
    + simpl in *; lia.
Qed.

Lemma parse_value_print (v : json) : reads_back v.
Proof.
  induction v as [|b|n|s|l IH|m IH] using json_induction;
    intros Hwf fuel rest Hf Hr; (destruct fuel as [|fuel]; [simpl in Hf; lia|]).
  - reflexivity.
  - destruct b; reflexivity.
  - destruct n as [|p|p].
    + assert (H := read_number_print 0 rest Hr).
      change (num_to_string 0 ++ rest) with (String "0" rest) in H.
      change (stringify (JNum 0) ++ rest) with (String "0" rest).
      rewrite parse_value_digit by discriminate. now rewrite H.
    + assert (H := read_number_print (Zpos p) rest Hr).
      change (stringify (JNum (Zpos p))) with (num_to_string (Zpos p)).
      unfold num_to_string in *.
      destruct (print_head p) as (c & r' & E & Hd & _).
      rewrite E in *. change (String c r' ++ rest) with (String c (r' ++ rest)) in *.
      rewrite parse_value_digit by exact Hd. now rewrite H.
    + assert (H := read_number_print (Zneg p) rest Hr).
      change (stringify (JNum (Zneg p)))
        with (String "-" (NilEmpty.string_of_uint (Pos.to_uint p))) in *.
      change (num_to_string (Zneg p))
        with (String "-" (NilEmpty.string_of_uint (Pos.to_uint p))) in *.
      change (String "-" ?x ++ rest) with (String "-" (x ++ rest)) in *.
      change (parse_value (S fuel) (String "-" ?x))
        with (match read_number (String "-" x) with
              | Some (n, r') => Some (JNum n, r')
              | None => None
              end).
      now rewrite H.
  - assert (H := read_string_quote s rest).
    unfold quote in *.
    change (stringify (JStr s)) with (String dquote (escape s ++ String dquote "")).
    change (String dquote ?x ++ rest) with (String dquote (x ++ rest)) in *.
    change (parse_value (S fuel) (String dquote ?x))
      with (match read_chars x with
            | Some (str, r') => Some (JStr str, r')
            | None => None
            end).
    change (read_string (String dquote ?x)) with (read_chars x) in H.
    now rewrite H.
  - simpl in Hwf, Hf.
    change (stringify (JArr l)) with (String "[" (join stringify l ++ "]")).
    change (String "[" ?x ++ rest) with (String "[" (x ++ rest)).
    rewrite sapp_assoc. change ("]" ++ rest) with (String "]" rest).
    rewrite parse_value_arr.
    destruct l as [|v l].
    + reflexivity.
    + assert (Hs : starts_value (join stringify (v :: l) ++ String "]" rest) = true).
      { destruct l.
        - apply starts_value_print.
        - change (join stringify (v :: j :: l))
            with (stringify v ++ String "," (join stringify (j :: l))).
          rewrite sapp_assoc. apply starts_value_print. }
      rewrite (skip_ws_starts _ Hs).
      destruct (join stringify (v :: l) ++ String "]" rest) as [|c' r'] eqn:Ej;
        [discriminate|].
      simpl in Hs. apply andb_true_iff in Hs as [Hs _].
      apply andb_true_iff in Hs as [_ Hs]. apply negb_true_iff in Hs.
      rewrite Hs. rewrite <- Ej.
      rewrite parse_items_print; try assumption;
        [reflexivity | discriminate | lia].
  - simpl in Hwf, Hf. apply andb_true_iff in Hwf as [Hnd Hwf].
    set (pr := fun kv : string * json =>
                 quote (fst kv) ++ String ":" (stringify (snd kv))).
    change (stringify (JObj m)) with (String "{" (join pr m ++ "}")).
    change (String "{" ?x ++ rest) with (String "{" (x ++ rest)).
    rewrite sapp_assoc. change ("}" ++ rest) with (String "}" rest).
    rewrite parse_value_obj.
    destruct m as [|kv m].
    + reflexivity.
    + assert (Hs : starts_value (join pr (kv :: m) ++ String "}" rest) = true).
      { destruct m; reflexivity. }
      rewrite (skip_ws_starts _ Hs).
      destruct (join pr (kv :: m) ++ String "}" rest) as [|c' r'] eqn:Ej;
        [discriminate|].
      simpl in Hs. apply andb_true_iff in Hs as [_ Hs].
      apply negb_true_iff in Hs.
      rewrite Hs. rewrite <- Ej. subst pr.
      rewrite parse_props_print; try assumption;
        [reflexivity | discriminate | reflexivity | lia].
Qed.

End RoundTrip.

Lemma num_to_string_length (n : Z) : 1 <= String.length (num_to_string n).
Proof.
  destruct n as [|p|p]; simpl; try lia.
  destruct (print_head p) as (c & r & E & _). rewrite E. simpl. lia.
Qed.

Lemma need_le_length (v : json) : need v <= String.length (stringify v).
Proof.
  induction v as [|b|n|s|l IH|m IH] using json_induction.
  - simpl; lia.
  - destruct b; simpl; lia.
  - apply num_to_string_length.
  - simpl; lia.
  - change (stringify (JArr l)) with (String "[" (join stringify l ++ "]")).
    simpl. rewrite slength_app. simpl.
    enough (list_sum (map (fun x => S (need x)) l)
            <= S (String.length (join stringify l))) by lia.
    induction IH as [|v l Hv Hl IHl]; [simpl; lia|].
    destruct l as [|v' l'].
    + simpl in *. lia.
    + change (join stringify (v :: v' :: l'))
        with (stringify v ++ String "," (join stringify (v' :: l'))).
      rewrite slength_app. simpl in *. lia.
  - set (pr := fun kv : string * json =>
                 quote (fst kv) ++ String ":" (stringify (snd kv))).
    change (stringify (JObj m)) with (String "{" (join pr m ++ "}")).
    simpl. rewrite slength_app. simpl.
    enough (list_sum (map (fun kv => S (need (snd kv))) m)
            <= S (String.length (join pr m))) by lia.
    induction IH as [|kv m Hv Hl IHl]; [simpl; lia|].
    destruct m as [|kv' m'].
    + simpl in *. rewrite slength_app. simpl. lia.
    + change (join pr (kv :: kv' :: m'))
        with (pr kv ++ String "," (join pr (kv' :: m'))).
      rewrite slength_app. unfold pr at 1. simpl in *.
      rewrite slength_app. simpl. lia.
Qed.

(** [JSON.parse(JSON.stringify(v))] is [v]. *)
Theorem parse_stringify (v : json) :
  wf v = true -> JSON.parse (JSON.stringify v) = Some v.
Proof.
  intros Hwf. unfold JSON.parse.
  rewrite <- (sapp_nil_r (stringify v)) at 2.
  rewrite (parse_value_print v Hwf _ "" (need_le_length v) I).
  reflexivity.
Qed.

(** Two well-formed values with the same text are the same value. *)
Corollary stringify_inj (v w : json) :
  wf v = true -> wf w = true -> stringify v = stringify w -> v = w.
Proof.
  intros Hv Hw E.
  assert (H := parse_stringify v Hv). rewrite E, parse_stringify in H by exact Hw.
  congruence.
Qed.

(** *** Every parsed value is well formed *)

Lemma has_key_obj_set m k v k' :
  has_key (obj_set m k v) k' = has_key m k' || String.eqb k' k.
Proof.
  induction m as [|[k0 v0] m IH]; simpl.
  - now rewrite orb_false_r.
  - destruct (String.eqb_spec k k0) as [->|Hne]; simpl.
    + destruct (String.eqb k' k0); simpl;
        rewrite ?orb_false_r, ?orb_true_r; reflexivity.
    + rewrite IH. now rewrite orb_assoc.
Qed.

Lemma nodup_keys_obj_set m k v :
  nodup_keys m = true -> nodup_keys (obj_set m k v) = true.
Proof.
  induction m as [|[k0 v0] m IH]; simpl; [reflexivity|].
  intros H. apply andb_true_iff in H as [H1 H2].
  destruct (String.eqb_spec k k0) as [->|Hne]; simpl.
  - now rewrite H1, H2.
  - rewrite has_key_obj_set, IH by exact H2.
    apply negb_true_iff in H1. rewrite H1. simpl.
    destruct (String.eqb_spec k0 k); [congruence | reflexivity].
Qed.

Lemma wf_obj_set m k v :
  forallb (fun kv => wf (snd kv)) m = true -> wf v = true ->
  forallb (fun kv => wf (snd kv)) (obj_set m k v) = true.
Proof.
  induction m as [|[k0 v0] m IH]; simpl; intros H Hv.
  - now rewrite Hv.
  - apply andb_true_iff in H as [H1 H2].
    destruct (String.eqb k k0); simpl.
    + now rewrite Hv, H2.
    + now rewrite H1, IH.
Qed.

Lemma wf_obj_get m k v :
  wf (JObj m) = true -> obj_get m k = Some v -> wf v = true.
Proof.
  simpl. intros H. apply andb_true_iff in H as [_ H].
  induction m as [|[k0 v0] m IH]; simpl in *; [discriminate|].
  apply andb_true_iff in H as [H1 H2].
  destruct (String.eqb k k0); [congruence | now apply IH].
Qed.

Lemma parse_value_S fuel s :
  parse_value (S fuel) s
  = match skip_ws s with
    | EmptyString => None
    | String c r =>
        if Ascii.eqb c "[" then
          match skip_ws r with
          | String c' r' =>
              if Ascii.eqb c' "]" then Some (JArr [], r')
              else
                match parse_items fuel r with
                | Some (l, r'') => Some (JArr l, r'')
                | None => None
                end
          | EmptyString => None
          end
        else if Ascii.eqb c "{" then
          match skip_ws r with
          | String c' r' =>
              if Ascii.eqb c' "}" then Some (JObj [], r')
              else
                match parse_props fuel r [] with
                | Some (m, r'') => Some (JObj m, r'')
                | None => None
                end
          | EmptyString => None
          end
        else if Ascii.eqb c dquote then
          match read_chars r with
          | Some (str, r') => Some (JStr str, r')
          | None => None
          end
        else
          match strip_prefix "null" (String c r) with
          | Some r' => Some (JNull, r')
          | None =>
          match strip_prefix "true" (String c r) with
          | Some r' => Some (JBool true, r')
          | None =>
          match strip_prefix "false" (String c r) with
          | Some r' => Some (JBool false, r')
          | None =>
          match read_number (String c r) with
          | Some (n, r') => Some (JNum n, r')
          | None => None
          end end end end
    end.
Proof. reflexivity. Qed.

Ltac break_match H :=
  repeat match type of H with
    | context [match ?x with _ => _ end] => destruct x eqn:?; try discriminate
    end.

Lemma parse_wf_fuel (fuel : nat) :
  (forall s v r, parse_value fuel s = Some (v, r) -> wf v = true)
  /\ (forall s l r, parse_items fuel s = Some (l, r) -> forallb wf l = true)
  /\ (forall s acc m r,
        nodup_keys acc = true ->
        forallb (fun kv => wf (snd kv)) acc = true ->
        parse_props fuel s acc = Some (m, r) ->
        nodup_keys m = true /\ forallb (fun kv => wf (snd kv)) m = true).
Proof.
  induction fuel as [|fuel (IHv & IHi & IHp)].
  - repeat split; intros; discriminate.
  - repeat apply conj.
    + intros s v r H. rewrite parse_value_S in H.
      break_match H; inversion H; subst; try reflexivity.
      * simpl. eapply IHi; eassumption.
      * match goal with
        | E : parse_props _ _ _ = Some _ |- _ =>
            apply IHp in E as [E1 E2]; [| reflexivity | reflexivity]
        end.
        simpl. now rewrite E1, E2.
    + intros s l r H. rewrite parse_items_S in H.
      break_match H; inversion H; subst; simpl.
      * erewrite IHv by eassumption. eapply IHi; eassumption.
      * erewrite IHv by eassumption. reflexivity.
    + intros s acc m r Ha1 Ha2 H. rewrite parse_props_S in H.
      break_match H.
      * eapply IHp; [| | exact H].
        -- now apply nodup_keys_obj_set.
        -- apply wf_obj_set; [assumption | eapply IHv; eassumption].
      * inversion H; subst. split.
        -- now apply nodup_keys_obj_set.
        -- apply wf_obj_set; [assumption | eapply IHv; eassumption].
Qed.

Theorem parse_wf (s : string) (v : json) :
  JSON.parse s = Some v -> wf v = true.
Proof.
  unfold JSON.parse. intros H. break_match H. inversion H; subst.
  eapply (proj1 (parse_wf_fuel _)); eassumption.
Qed.

End JSONFacts.

Import JSONFacts.
Local Open Scope js_scope.

(** ** The monad *)

Ltac js_unfold :=
  unfold getStorageKey, getDocumentTitle, getItem, setItem;
  unfold bind, ret, get, modify, lift, try_catch, throw;
  change (no_id None) with true;
  cbv beta iota.

Lemma bind_get {A B} (f : State -> A) (k : A -> JS B) st :
  bind (get f) k st = k (f st) st.
Proof. reflexivity. Qed.

Lemma bind_modify {B} (f : State -> State) (k : unit -> JS B) st :
  bind (modify f) k st = k tt (f st).
Proof. reflexivity. Qed.

Lemma bind_lift {A B} (c : completion A) (k : A -> JS B) st :
  bind (lift c) k st
  = match c with Normal a => k a st | Throw e => (st, Throw e) end.
Proof. destruct c; reflexivity. Qed.

(** ** localStorage *)

Lemma lookup_update_same l k v :
  localStorage.lookup (localStorage.update l k v) k = Some v.
Proof.
  induction l as [|[k' v'] l IH]; simpl.
  - now rewrite String.eqb_refl.
  - destruct (String.eqb k k') eqn:E; simpl.
    + now rewrite String.eqb_refl.
    + now rewrite E.
Qed.

Lemma lookup_update_other l k v k' :
  k' <> k ->
  localStorage.lookup (localStorage.update l k v) k' = localStorage.lookup l k'.
Proof.
  intros Hne. induction l as [|[k0 v0] l IH]; simpl.
  - destruct (String.eqb_spec k' k); [congruence | reflexivity].
  - destruct (String.eqb_spec k k0) as [->|]; simpl.
    + destruct (String.eqb_spec k' k0); [congruence | reflexivity].
    + now rewrite IH.
Qed.

Lemma setItem_get ls k v ls' :
  localStorage.setItem ls k v = Some ls' ->
  localStorage.getItem ls' k = Some v.
Proof.
  unfold localStorage.setItem, localStorage.getItem. intros H.
  destruct (Nat.leb _ _); inversion H; subst; simpl.
  apply lookup_update_same.
Qed.

Lemma setItem_get_other ls k v ls' k' :
  localStorage.setItem ls k v = Some ls' -> k' <> k ->
  localStorage.getItem ls' k' = localStorage.getItem ls k'.
Proof.
  unfold localStorage.setItem, localStorage.getItem. intros H Hne.
  destruct (Nat.leb _ _); inversion H; subst; simpl.
  now apply lookup_update_other.
Qed.

(** ** saveLabels and updateLabelsDisplay *)

(** [saveLabels] as a function of the state. *)
Lemma saveLabels_eq st :
  saveLabels st
  = (if no_id (documentId st) then st
     else
       match localStorage.setItem (storage st) (active_key st) (saved_text st)
       with
       | Some ls =>
           set_lastKnownLabelsJson (JSON.stringify (labels st))
             (set_storage ls st)
       | None => st
       end, Normal tt).
Proof.
  unfold saveLabels, active_key, saved_text. js_unfold.
  destruct (no_id (documentId st)); [reflexivity|].
  destruct (localStorage.setItem _ _ _); reflexivity.
Qed.

Lemma saveLabels_no_id st :
  no_id (documentId st) = true -> saveLabels st = (st, Normal tt).
Proof. intros H. rewrite saveLabels_eq. now rewrite H. Qed.

Lemma saveLabels_written st ls :
  no_id (documentId st) = false ->
  localStorage.setItem (storage st) (active_key st) (saved_text st) = Some ls ->
  saveLabels st
  = (set_lastKnownLabelsJson (JSON.stringify (labels st)) (set_storage ls st),
     Normal tt).
Proof. intros H E. rewrite saveLabels_eq. now rewrite H, E. Qed.

Lemma saveLabels_refused st :
  no_id (documentId st) = false ->
  localStorage.setItem (storage st) (active_key st) (saved_text st) = None ->
  saveLabels st = (st, Normal tt).
Proof. intros H E. rewrite saveLabels_eq. now rewrite H, E. Qed.

(** [saveLabels] never throws, and touches nothing but the storage and the
    last known snapshot. *)
Lemma saveLabels_frame st :
  exists st', saveLabels st = (st', Normal tt)
    /\ labels st' = labels st /\ draggedIndex st' = draggedIndex st
    /\ documentId st' = documentId st /\ pageTitle st' = pageTitle st
    /\ href st' = href st /\ mounted st' = mounted st
    /\ refreshes st' = refreshes st.
Proof.
  destruct (no_id (documentId st)) eqn:H.
  - exists st. rewrite saveLabels_no_id by exact H. repeat split.
  - destruct (localStorage.setItem (storage st) (active_key st) (saved_text st))
      as [ls|] eqn:E.
    + eexists. rewrite (saveLabels_written st ls H E). repeat split.
    + exists st. rewrite (saveLabels_refused st H E). repeat split.
Qed.

(** [updateLabelsDisplay] as a function of the state: the call is counted
    and nothing else changes, also when the rendering throws. *)
Lemma updateLabelsDisplay_eq st :
  updateLabelsDisplay st
  = (set_refreshes (S (refreshes st)) st,
     if mounted st then
       if displayable (labels st) then Normal tt else Throw TypeError
     else Normal tt).
Proof.
  destruct st as [l di id lk sto pt hr [|] n];
    unfold updateLabelsDisplay, bind, ret, get, modify, throw, set_refreshes;
    simpl; [|reflexivity].
  destruct (displayable l); reflexivity.
Qed.

Lemma updateLabelsDisplay_array st l :
  labels st = JArr l ->
  updateLabelsDisplay st = (set_refreshes (S (refreshes st)) st, Normal tt).
Proof.
  intros H. rewrite updateLabelsDisplay_eq, H. simpl.
  destruct (mounted st); reflexivity.
Qed.

(** ** Array.prototype.splice *)

Lemma splice_start_in (len : nat) (i : Z) :
  (0 <= i < Z.of_nat len)%Z -> splice_start len i = Z.to_nat i.
Proof.
  intros H. unfold splice_start.
  destruct (Z.ltb_spec i 0); lia.
Qed.

Lemma splice_start_neg (len : nat) (i : Z) :
  (i < 0)%Z -> splice_start len i = Z.to_nat (Z.of_nat len + i).
Proof.
  intros H. unfold splice_start.
  destruct (Z.ltb_spec i 0); lia.
Qed.

(** Removing one item at a position of the array. *)
Lemma splice_remove_in {A} (l : list A) (i : Z) :
  (0 <= i < Z.of_nat (length l))%Z ->
  splice l i 1 [] = remove_at (Z.to_nat i) l.
Proof.
  intros H. unfold splice, remove_at. rewrite splice_start_in by exact H.
  replace (Nat.min 1 (length l - Z.to_nat i)) with 1 by lia.
  simpl. now rewrite Nat.add_1_r.
Qed.

(** Past the end nothing is removed. *)
Lemma splice_remove_past {A} (l : list A) (i : Z) :
  (Z.of_nat (length l) <= i)%Z -> splice l i 1 [] = l.
Proof.
  intros H. unfold splice, splice_start.
  destruct (Z.ltb_spec i 0); [lia|].
  replace (Nat.min (Z.to_nat i) (length l)) with (length l) by lia.
  rewrite Nat.sub_diag. simpl. rewrite Nat.add_0_r.
  rewrite firstn_all, skipn_all. apply app_nil_r.
Qed.

(** A negative index counts from the end. *)
Lemma splice_remove_neg {A} (l : list A) (i : Z) :
  (- Z.of_nat (length l) <= i < 0)%Z ->
  splice l i 1 [] = remove_at (Z.to_nat (Z.of_nat (length l) + i)) l.
Proof.
  intros H. unfold splice, remove_at. rewrite splice_start_neg by lia.
  replace (Nat.min 1 (length l - Z.to_nat (Z.of_nat (length l) + i)))
    with 1 by lia.
  simpl. now rewrite Nat.add_1_r.
Qed.

(** Below minus the length the start clamps to the first item. *)
Lemma splice_remove_below {A} (l : list A) (i : Z) :
  (i < - Z.of_nat (length l))%Z -> splice l i 1 [] = tl l.
Proof.
  intros H. unfold splice. rewrite splice_start_neg by lia.
  replace (Z.to_nat (Z.of_nat (length l) + i)) with 0 by lia.
  destruct l; reflexivity.
Qed.

Lemma splice_insert {A} (l : list A) (j : Z) (x : A) :
  (0 <= j <= Z.of_nat (length l))%Z ->
  splice l j 0 [x] = insert_at (Z.to_nat j) x l.
Proof.
  intros H. unfold splice, insert_at, splice_start.
  destruct (Z.ltb_spec j 0); [lia|].
  replace (Nat.min (Z.to_nat j) (length l)) with (Z.to_nat j) by lia.
  simpl. now rewrite Nat.add_0_r.
Qed.

Lemma array_get_in (l : list json) (i : Z) :
  (0 <= i)%Z -> array_get l i = nth (Z.to_nat i) l JNull.
Proof.
  intros H. unfold array_get. destruct (Z.ltb_spec i 0); [lia | reflexivity].
Qed.

Lemma remove_at_length {A} (i : nat) (l : list A) :
  i < length l -> length (remove_at i l) = length l - 1.
Proof.
  intros H. unfold remove_at.
  rewrite length_app, length_firstn, length_skipn. lia.
Qed.

(** Putting back at [i] the item taken from [i] restores the list. *)
Lemma insert_remove {A} (i : nat) (l : list A) (d : A) :
  i < length l -> insert_at i (nth i l d) (remove_at i l) = l.
Proof.
  revert i; induction l as [|x l IH]; intros i H; simpl in H; [lia|].
  destruct i as [|i]; [reflexivity|].
  unfold insert_at, remove_at in *. simpl.
  f_equal. apply IH. lia.
Qed.

(** After an insertion at [j] the item at [j] is the inserted one, and
    removing it undoes the insertion. *)
Lemma nth_insert_at {A} (j : nat) (x d : A) (l : list A) :
  j <= length l -> nth j (insert_at j x l) d = x.
Proof.
  intros H. unfold insert_at.
  rewrite app_nth2; rewrite length_firstn; [|lia].
  replace (j - Nat.min j (length l)) with 0 by lia. reflexivity.
Qed.

Lemma remove_insert {A} (j : nat) (x : A) (l : list A) :
  j <= length l -> remove_at j (insert_at j x l) = l.
Proof.
  revert j; induction l as [|y l IH]; intros j H; simpl in H.
  - replace j with 0 by lia. reflexivity.
  - destruct j as [|j]; [reflexivity|].
    unfold insert_at, remove_at in *. simpl. f_equal. apply IH. lia.
Qed.

Lemma insert_at_length {A} (j : nat) (x : A) (l : list A) :
  length (insert_at j x l) = S (length l).
Proof.
  unfold insert_at. rewrite length_app. simpl.
  rewrite length_firstn, length_skipn. lia.
Qed.

(** The reordering, in the words of the specification. *)
Lemma reorder_in (l : list json) (i j : Z) :
  (0 <= i < Z.of_nat (length l))%Z -> (0 <= j < Z.of_nat (length l))%Z ->
  reorder l i j
  = insert_at (Z.to_nat j) (nth (Z.to_nat i) l JNull) (remove_at (Z.to_nat i) l).
Proof.
  intros Hi Hj. unfold reorder.
  rewrite array_get_in by lia. rewrite splice_remove_in by exact Hi.
  apply splice_insert. rewrite remove_at_length by lia. lia.
Qed.

(** ** removeLabel and the drop listener *)

Lemma persist_refresh st l :
  labels st = JArr l ->
  (saveLabels ;; updateLabelsDisplay) st
  = (set_refreshes (S (refreshes st)) (fst (saveLabels st)), Normal tt).
Proof.
  intros H. unfold bind.
  destruct (saveLabels_frame st) as (st' & E & Hl & _ & _ & _ & _ & _ & Hr).
  rewrite E. simpl.
  rewrite (updateLabelsDisplay_array st' l) by congruence.
  now rewrite Hr.
Qed.

Lemma removeLabel_eq st l i :
  labels st = JArr l ->
  removeLabel i st
  = (set_refreshes (S (refreshes st))
       (fst (saveLabels (set_labels (JArr (splice l i 1 [])) st))),
     Normal tt).
Proof.
  intros H. unfold removeLabel. rewrite bind_get, H, bind_modify.
  now rewrite (persist_refresh _ (splice l i 1 [])).
Qed.

Lemma onDrop_eq st l i j :
  labels st = JArr l -> draggedIndex st = Some i -> j <> i ->
  onDrop j st
  = (set_refreshes (S (refreshes st))
       (fst (saveLabels (set_labels (JArr (reorder l i j)) st))),
     Normal tt).
Proof.
  intros H Hd Hne. unfold onDrop. rewrite bind_get, Hd. cbv beta iota.
  destruct (Z.eqb_spec j i); [contradiction|]. cbn [negb].
  rewrite bind_get, H, bind_modify.
  now rewrite (persist_refresh _ (reorder l i j)).
Qed.

Lemma saveLabels_labels st : labels (fst (saveLabels st)) = labels st.
Proof.
  destruct (saveLabels_frame st) as (st' & E & Hl & _). now rewrite E.
Qed.

(** What [saveLabels] leaves in the storage when the write is accepted. *)
Lemma saveLabels_persists st ls :
  no_id (documentId st) = false ->
  localStorage.setItem (storage st) (active_key st) (saved_text st) = Some ls ->
  let st' := fst (saveLabels st) in
  storage st' = ls
  /\ localStorage.getItem (storage st') (active_key st) = Some (saved_text st)
  /\ lastKnownLabelsJson st' = JSON.stringify (labels st).
Proof.
  intros Hid E. rewrite (saveLabels_written st ls Hid E). simpl.
  repeat split. eapply setItem_get; eassumption.
Qed.

(** C1, as the code has it: [removeLabel(index)] never raises an error on a
    label list.  An index of the list removes exactly the item at that
    position; an index past the end removes nothing; a negative index
    counts from the end, and below minus the length it removes the first
    item.  In every case the resulting list is handed to [saveLabels], which
    stores it under the key of the active document whenever the write is
    accepted, and the rendering is refreshed once. *)
Theorem removeLabel_spec (st : State) (l : list json) (i : Z) :
  labels st = JArr l ->
  let n := Z.of_nat (length l) in
  let st' := fst (removeLabel i st) in
  exists l',
    snd (removeLabel i st) = Normal tt
    /\ labels st' = JArr l'
    /\ refreshes st' = S (refreshes st)
    /\ ((0 <= i < n)%Z -> l' = remove_at (Z.to_nat i) l)
    /\ ((n <= i)%Z -> l' = l)
    /\ ((- n <= i < 0)%Z -> l' = remove_at (Z.to_nat (n + i)) l)
    /\ ((i < - n)%Z -> l' = tl l)
    /\ (forall ls,
          no_id (documentId st) = false ->
          localStorage.setItem (storage st) (active_key st)
            (saved_text (set_labels (JArr l') st)) = Some ls ->
          storage st' = ls
          /\ localStorage.getItem (storage st') (active_key st)
             = Some (saved_text (set_labels (JArr l') st))
          /\ lastKnownLabelsJson st' = JSON.stringify (JArr l')).
Proof.
  intros H n st'. exists (splice l i 1 []).
  subst st'. rewrite (removeLabel_eq st l i H). simpl fst. simpl snd.
  split; [reflexivity|]. split.
  { simpl. apply saveLabels_labels. }
  split; [reflexivity|].
  split; [apply splice_remove_in|].
  split; [apply splice_remove_past|].
  split; [apply splice_remove_neg|].
  split; [apply splice_remove_below|].
  intros ls Hid E.
  exact (saveLabels_persists (set_labels (JArr (splice l i 1 [])) st) ls Hid E).
Qed.

(** C6: for two different indices of the list, the drop listener removes
    the item at [i] and puts it at [j] of the list after the removal, and
    the same move from [j] to [i] restores the list. *)
Theorem reorder_spec (st : State) (l : list json) (i j : Z) :
  labels st = JArr l -> draggedIndex st = Some i ->
  (0 <= i < Z.of_nat (length l))%Z -> (0 <= j < Z.of_nat (length l))%Z ->
  i <> j ->
  let moved :=
    insert_at (Z.to_nat j) (nth (Z.to_nat i) l JNull)
      (remove_at (Z.to_nat i) l) in
  let st1 := fst (onDrop j st) in
  reorder l i j = moved
  /\ reorder (reorder l i j) j i = l
  /\ onDrop j st = (st1, Normal tt)
  /\ labels st1 = JArr moved
  /\ labels (fst ((onDragStart j ;; onDrop i) st1)) = JArr l.
Proof.
  intros H Hd Hi Hj Hne moved st1.
  assert (E1 : reorder l i j = moved) by (apply reorder_in; assumption).
  assert (Hlen : length moved = length l).
  { unfold moved. rewrite insert_at_length, remove_at_length by lia. lia. }
  assert (Hlr : Z.to_nat j <= length (remove_at (Z.to_nat i) l)).
  { rewrite remove_at_length by lia. lia. }
  assert (E2 : reorder moved j i = l).
  { rewrite reorder_in by (rewrite Hlen; assumption).
    unfold moved. rewrite nth_insert_at by exact Hlr.
    rewrite remove_insert by exact Hlr.
    apply insert_remove. lia. }
  assert (E3 : labels st1 = JArr moved).
  { subst st1. rewrite (onDrop_eq st l i j H Hd) by congruence.
    simpl. rewrite saveLabels_labels. simpl. now rewrite E1. }
  split; [exact E1|]. split; [now rewrite E1|].
  split.
  { subst st1. now rewrite (onDrop_eq st l i j H Hd) by congruence. }
  split; [exact E3|].
  unfold onDragStart. rewrite bind_modify.
  assert (E4 : labels (set_draggedIndex (Some j) st1) = JArr moved) by exact E3.
  rewrite (onDrop_eq _ moved j i E4 eq_refl) by congruence.
  simpl. rewrite saveLabels_labels. simpl. now rewrite E2.
Qed.

(** ** loadLabels, checkAndReloadLabels and the scan, as functions *)

Lemma loadLabels_eq st :
  loadLabels st
  = (if no_id (documentId st) then st
     else
       match present (localStorage.getItem (storage st) (active_key st)) with
       | Some s =>
           match parse_labels s with
           | Normal lbls =>
               set_lastKnownLabelsJson (JSON.stringify lbls) (set_labels lbls st)
           | Throw _ => set_lastKnownLabelsJson "[]" (set_labels (JArr []) st)
           end
       | None => set_lastKnownLabelsJson (JSON.stringify (labels st)) st
       end, Normal tt).
Proof.
  unfold loadLabels, active_key. js_unfold.
  destruct (no_id (documentId st)); [reflexivity|].
  destruct (present _) as [s|]; [|reflexivity].
  destruct (parse_labels s); reflexivity.
Qed.

Lemma checkAndReloadLabels_eq st :
  checkAndReloadLabels st
  = (if no_id (documentId st) then st
     else
       match current_labels
               (localStorage.getItem (storage st) (active_key st)) with
       | Normal cur =>
           if negb (String.eqb (JSON.stringify cur) (lastKnownLabelsJson st))
           then
             set_refreshes (S (refreshes st))
               (set_lastKnownLabelsJson (JSON.stringify cur)
                  (set_labels cur st))
           else st
       | Throw _ => st
       end, Normal tt).
Proof.
  unfold checkAndReloadLabels, active_key. js_unfold.
  destruct (no_id (documentId st)); [reflexivity|].
  destruct (current_labels _) as [cur|e]; [|reflexivity].
  destruct (negb _); [|reflexivity].
  unfold bind, modify. rewrite updateLabelsDisplay_eq.
  cbn [mounted labels set_lastKnownLabelsJson set_labels refreshes].
  destruct (mounted st); [destruct (displayable cur)|]; reflexivity.
Qed.

Lemma scan_key_eq labelName c key docs st :
  scan_key labelName c key docs st
  = (st, Normal (docs ++
                   match listing labelName c key
                           (localStorage.getItem (storage st) key) with
                   | Some d => [d]
                   | None => []
                   end)%list).
Proof.
  unfold scan_key, listing. js_unfold.
  destruct (strip_prefix "gd-labels-" key) as [docId|];
    [| now rewrite app_nil_r].
  destruct (JSON_parse_item _) as [data|]; [| now rewrite app_nil_r].
  destruct (decode docId data) as [[[dl dt] du]|]; [| now rewrite app_nil_r].
  destruct (value_includes (Some dl) labelName) as [[|]|];
    cbv beta iota; try now rewrite app_nil_r.
  reflexivity.
Qed.

Lemma forEach_scan labelName c keys docs st :
  forEach keys (scan_key labelName c) docs st
  = (st, Normal (docs ++
                   flat_map (fun key =>
                               match listing labelName c key
                                       (localStorage.getItem (storage st) key)
                               with
                               | Some d => [d]
                               | None => []
                               end) keys)%list).
Proof.
  revert docs; induction keys as [|k keys IH]; intros docs; simpl.
  - unfold ret. now rewrite app_nil_r.
  - unfold bind. rewrite scan_key_eq, IH. now rewrite <- app_assoc.
Qed.

(** The documents that carry a label, as [findDocumentsWithLabel] finds
    them in a storage. *)
Lemma findDocumentsWithLabel_eq labelName st :
  findDocumentsWithLabel labelName st
  = (st, Normal (flat_map (fun key =>
                             match listing labelName (documentId st) key
                                     (localStorage.getItem (storage st) key)
                             with
                             | Some d => [d]
                             | None => []
                             end) (localStorage.keys (storage st)))).
Proof.
  unfold findDocumentsWithLabel. rewrite !bind_get. apply forEach_scan.
Qed.

(** C8: the read paths do not write.  [loadLabels], [checkAndReloadLabels]
    and [findDocumentsWithLabel] leave the storage as it is (the scan leaves
    the whole state), and [saveLabels], which persists the record of the
    active document, leaves the value of every other key. *)
Theorem read_paths_do_not_write (st : State) (labelName : json) :
  storage (fst (loadLabels st)) = storage st
  /\ storage (fst (checkAndReloadLabels st)) = storage st
  /\ fst (findDocumentsWithLabel labelName st) = st
  /\ (forall k, k <> active_key st ->
        localStorage.getItem (storage (fst (saveLabels st))) k
        = localStorage.getItem (storage st) k).
Proof.
  split; [|split; [|split]].
  - rewrite loadLabels_eq. simpl.
    destruct (no_id _); [reflexivity|].
    destruct (present _) as [s|]; [|reflexivity].
    destruct (parse_labels s); reflexivity.
  - rewrite checkAndReloadLabels_eq. simpl.
    destruct (no_id _); [reflexivity|].
    destruct (current_labels _); [|reflexivity].
    destruct (negb _); reflexivity.
  - now rewrite findDocumentsWithLabel_eq.
  - intros k Hk. rewrite saveLabels_eq. simpl.
    destruct (no_id _); [reflexivity|].
    destruct (localStorage.setItem _ _ _) as [ls|] eqn:E; [|reflexivity].
    simpl. eapply setItem_get_other; eassumption.
Qed.

(** C10: when re-reading the stored value of the active document throws,
    on a text that does not parse or on [null], the check changes nothing:
    labels, last known snapshot, storage and refresh count are those of
    before.  [loadLabels] on the same state instead falls back to the empty
    list. *)
Theorem check_throw_no_effect (st : State) (e : exn) :
  current_labels (localStorage.getItem (storage st) (active_key st)) = Throw e ->
  checkAndReloadLabels st = (st, Normal tt)
  /\ (no_id (documentId st) = false ->
      loadLabels st
      = (set_lastKnownLabelsJson "[]" (set_labels (JArr []) st), Normal tt)).
Proof.
  intros H. split.
  - rewrite checkAndReloadLabels_eq, H. now destruct (no_id _).
  - intros Hid. rewrite loadLabels_eq, Hid.
    unfold current_labels in H.
    destruct (present _) as [s|]; [|discriminate]. now rewrite H.
Qed.

Lemma labels_of_wf data lbls :
  wf data = true -> labels_of data = Normal lbls -> wf lbls = true.
Proof.
  unfold labels_of. intros Hw H.
  destruct data as [|b|n|s|l|m]; simpl in H; inversion H; subst;
    try reflexivity; try assumption.
  unfold or_default. destruct (obj_get m "labels") as [v|] eqn:E; [|reflexivity].
  destruct (truthy v); [|reflexivity].
  eapply wf_obj_get; eassumption.
Qed.

Lemma parse_labels_wf s lbls : parse_labels s = Normal lbls -> wf lbls = true.
Proof.
  unfold parse_labels, JSON_parse. intros H.
  destruct (JSON.parse s) as [data|] eqn:E; [|discriminate].
  eapply labels_of_wf; [eapply parse_wf|]; eassumption.
Qed.

Lemma current_labels_wf saved lbls :
  current_labels saved = Normal lbls -> wf lbls = true.
Proof.
  unfold current_labels. destruct (present saved) as [s|].
  - apply parse_labels_wf.
  - intros H; inversion H; reflexivity.
Qed.

(** C4, as the code has it: on a state with an active document whose
    stored value is absent or decodes without error, the check refreshes
    exactly once and replaces the labels and the last known snapshot when
    the labels re-read differ from the last known ones, and does nothing at
    all when they are the same; it never writes to the storage. *)
Theorem check_fires_iff_differs (st : State) (snap cur : json) :
  no_id (documentId st) = false ->
  lastKnownLabelsJson st = JSON.stringify snap -> wf snap = true ->
  current_labels (localStorage.getItem (storage st) (active_key st))
  = Normal cur ->
  let st' := fst (checkAndReloadLabels st) in
  snd (checkAndReloadLabels st) = Normal tt
  /\ storage st' = storage st
  /\ (cur <> snap ->
      labels st' = cur /\ lastKnownLabelsJson st' = JSON.stringify cur
      /\ refreshes st' = S (refreshes st))
  /\ (cur = snap -> st' = st).
Proof.
  intros Hid Hk Hw Hc st'. subst st'.
  rewrite checkAndReloadLabels_eq, Hid, Hc, Hk. simpl fst. simpl snd.
  assert (Hwc := current_labels_wf _ _ Hc).
  destruct (String.eqb_spec (JSON.stringify cur) (JSON.stringify snap)) as [E|E];
    simpl negb; cbv iota.
  - apply stringify_inj in E; [|assumption|assumption].
    repeat split; [congruence | congruence | congruence].
  - repeat split. intros ->. now elim E.
Qed.

(** ** The stored form of a record *)

Lemma wf_strings (ls : list string) : wf (strings ls) = true.
Proof. unfold strings. simpl. induction ls; simpl; auto. Qed.

Lemma wf_record lbls title url :
  wf lbls = true -> wf (record lbls title url) = true.
Proof. intros H. unfold record. simpl. now rewrite H. Qed.

Lemma parse_encode lbls title url :
  wf lbls = true ->
  JSON_parse (encode lbls title url) = Normal (record lbls title url).
Proof.
  intros H. unfold JSON_parse, encode.
  now rewrite parse_stringify by (apply wf_record; exact H).
Qed.

(** C7, as the code has it: a stored value that parses as a bare array of
    strings decodes to that array as labels, the title ["Untitled"] and the
    address derived from the document id of its key; [loadLabels] reads
    the same array. *)
Theorem legacy_array_decodes (s : string) (ls : list string) (docId : string) :
  JSON.parse s = Some (strings ls) ->
  decode_stored docId s
  = Normal (strings ls, JStr "Untitled", JStr (derived_url docId))
  /\ parse_labels s = Normal (strings ls)
  /\ decode_stored "abc" (dq "['x','y']")
     = Normal (strings ["x"; "y"], JStr "Untitled",
               JStr "https://docs.google.com/document/d/abc/edit").
Proof.
  intros H. unfold decode_stored, parse_labels, JSON_parse. rewrite H.
  repeat split.
Qed.

(** C9, as the code has it: a record of string labels with a non-empty
    title and a non-empty address decodes from its stored text to itself;
    the labels do so whatever the title and the address, in the scan and
    in [loadLabels]. *)
Theorem decode_encode (ls : list string) (title url docId : string) :
  title <> "" -> url <> "" ->
  decode_stored docId (encode (strings ls) title url)
  = Normal (strings ls, JStr title, JStr url)
  /\ (forall t u,
        parse_labels (encode (strings ls) t u) = Normal (strings ls)
        /\ exists t' u',
             decode_stored docId (encode (strings ls) t u)
             = Normal (strings ls, t', u')).
Proof.
  intros Ht Hu. split.
  - unfold decode_stored. rewrite parse_encode by apply wf_strings.
    unfold decode, record. simpl.
    destruct (String.eqb_spec title ""); [contradiction|].
    destruct (String.eqb_spec url ""); [contradiction|]. reflexivity.
  - intros t u. split.
    + unfold parse_labels. rewrite parse_encode by apply wf_strings.
      reflexivity.
    + unfold decode_stored. rewrite parse_encode by apply wf_strings.
      unfold decode, record. simpl. eauto.
Qed.

(** ** importLabel *)

Lemma import_entry_eq labelName doc n st :
  import_entry labelName doc n st
  = match entry_target doc with
    | Throw e => (st, Throw e)
    | Normal None => (st, Normal n)
    | Normal (Some (key, fresh)) => merge_entry labelName key fresh n st
    end.
Proof.
  unfold import_entry, entry_target, merge_entry.
  rewrite bind_lift.
  destruct (get_prop doc "url") as [[u|]|e] eqn:Eu; try reflexivity.
  destruct (truthy u); [|reflexivity]. cbn [negb].
  rewrite bind_lift.
  destruct (getDocumentIdFromUrl u) as [[[|c r]|]|e]; try reflexivity.
  cbn [no_id]. unfold getStorageKey. rewrite bind_get. cbn [no_id].
  assert (Ht : exists t, get_prop doc "title" = Normal t).
  { destruct doc; simpl in *; try discriminate; eauto. }
  destruct Ht as (t & Ht). rewrite Ht, bind_lift.
  unfold getItem. rewrite bind_get, bind_lift.
  destruct (get_prop _ "labels") as [lbls|e]; [|reflexivity].
  rewrite bind_lift.
  destruct (value_includes lbls labelName) as [[|]|e]; try reflexivity.
  destruct (existing_data _ _); try reflexivity.
  destruct lbls as [[| | | |l|]|]; try reflexivity.
  unfold bind, setItem. destruct (localStorage.setItem _ _ _); reflexivity.
Qed.

Lemma loadLabels_normal st : snd (loadLabels st) = Normal tt.
Proof. now rewrite loadLabels_eq. Qed.

(** An import text that does not pass the check of line 174, or does not
    parse, gives a failed result and leaves the whole state, storage
    included, as it was. *)
Lemma importLabel_invalid s st :
  valid_payload s = None ->
  exists r, importLabel s st = (st, Normal r)
            /\ get_prop r "success" = Normal (Some (JBool false)).
Proof.
  unfold valid_payload, importLabel, try_catch, JSON_parse. intros H.
  rewrite bind_lift.
  destruct (JSON.parse s) as [d|]; [|eexists; split; reflexivity].
  rewrite bind_lift.
  destruct (get_prop d "label") as [label|e] eqn:El;
    [|eexists; split; reflexivity].
  rewrite bind_lift.
  destruct (get_prop d "documents") as [docs|e] eqn:Ed;
    [|destruct d; discriminate].
  destruct label as [L|]; [|eexists; split; reflexivity].
  destruct docs as [[| | | |docs|]|]; try (eexists; split; reflexivity).
  destruct (truthy L); [discriminate|]. eexists; split; reflexivity.
Qed.

(** An import text that passes the check runs the loop, then reloads and
    refreshes. *)
Lemma importLabel_valid s st labelName docs :
  valid_payload s = Some (labelName, docs) ->
  importLabel s st
  = match forEach docs (import_entry labelName) 0 st with
    | (st1, Throw e) => (st1, Normal (failed e))
    | (st1, Normal n) =>
        let st2 := fst (loadLabels st1) in
        (set_refreshes (S (refreshes st2)) st2,
         Normal (if mounted st2 && negb (displayable (labels st2))
                 then failed TypeError
                 else imported labelName n))
    end.
Proof.
  unfold valid_payload, importLabel, try_catch, JSON_parse. intros H.
  rewrite bind_lift.
  destruct (JSON.parse s) as [d|]; [|discriminate].
  rewrite bind_lift.
  destruct (get_prop d "label") as [label|e] eqn:El; [|discriminate].
  rewrite bind_lift.
  destruct (get_prop d "documents") as [ds|e] eqn:Ed; [|destruct label; discriminate].
  destruct label as [L|]; [|discriminate].
  destruct ds as [[| | | |ds|]|]; try discriminate.
  destruct (truthy L); [|discriminate]. inversion H; subst.
  unfold bind at 1.
  destruct (forEach docs (import_entry labelName) 0 st) as [st1 [n|e]];
    [|reflexivity].
  unfold bind at 1.
  assert (Hl := loadLabels_normal st1).
  destruct (loadLabels st1) as [st2 c]. simpl in Hl. subst c. simpl fst.
  unfold bind. rewrite updateLabelsDisplay_eq.
  destruct (mounted st2); [destruct (displayable (labels st2))|]; reflexivity.
Qed.

(** *** The test of the import and the test of the scan agree *)

Lemma obj_get_set_same m k v : obj_get (obj_set m k v) k = Some v.
Proof.
  induction m as [|[k' v'] m IH]; simpl.
  - now rewrite String.eqb_refl.
  - destruct (String.eqb k k') eqn:E; simpl.
    + now rewrite String.eqb_refl.
    + now rewrite E.
Qed.

Lemma parse_empty : JSON.parse "" = None.
Proof. reflexivity. Qed.

Lemma found_listed labelName saved fresh id :
  obj_get fresh "labels" = Some (JArr []) ->
  found labelName saved fresh = listed labelName ("gd-labels-" ++ id) saved.
Proof.
  intros Hf. unfold found, listed, listing.
  rewrite strip_prefix_app.
  unfold existing_data, JSON_parse_item, JSON_parse, present.
  destruct saved as [[|c s]|].
  - rewrite parse_empty. simpl. now rewrite Hf.
  - destruct (JSON.parse (String c s)) as [[|b|n|t|l|m]|];
      try (simpl; rewrite ?Hf; reflexivity).
    + cbn [get_prop]. rewrite obj_get_set_same. cbn [decode isArray].
      destruct (value_includes _ _) as [[|]|]; reflexivity.
    + cbn [get_prop]. rewrite obj_get_set_same. cbn [decode isArray get_prop].
      destruct (value_includes _ _) as [[|]|]; reflexivity.
  - simpl. now rewrite Hf.
Qed.

Lemma listing_current labelName c key saved :
  match listing labelName c key saved with Some _ => true | None => false end
  = listed labelName key saved.
Proof.
  unfold listed, listing.
  destruct (strip_prefix _ _); [|reflexivity].
  destruct (JSON_parse_item saved); [|reflexivity].
  destruct (decode _ _) as [[[dl dt] du]|]; [|reflexivity].
  destruct (value_includes _ _) as [[|]|]; reflexivity.
Qed.

(** *** Well-formedness along the import *)

Lemma wf_existing_data saved fresh :
  wf (JObj fresh) = true -> wf (existing_data saved fresh) = true.
Proof.
  intros Hf. unfold existing_data.
  destruct (present saved) as [s|]; [|exact Hf].
  destruct (JSON.parse s) as [data|] eqn:E; [|exact Hf].
  apply parse_wf in E.
  simpl in Hf. apply andb_true_iff in Hf as [Hf1 Hf2].
  destruct data as [|b|n|t|l|m]; try reflexivity.
  - simpl. rewrite nodup_keys_obj_set, wf_obj_set; auto.
  - simpl in E. apply andb_true_iff in E as [E1 E2].
    simpl. rewrite nodup_keys_obj_set by exact E1.
    rewrite wf_obj_set; auto.
    unfold or_default. destruct (obj_get m "labels") as [v|] eqn:Ev; [|reflexivity].
    destruct (truthy v); [|reflexivity].
    eapply wf_obj_get; [|exact Ev]. simpl. now rewrite E1, E2.
Qed.

Lemma forallb_wf_app l1 l2 :
  forallb wf l1 = true -> forallb wf l2 = true -> forallb wf (l1 ++ l2) = true.
Proof. intros H1 H2. rewrite forallb_app. now rewrite H1, H2. Qed.

Lemma entry_target_wf doc key fresh :
  wf doc = true -> entry_target doc = Normal (Some (key, fresh)) ->
  wf (JObj fresh) = true /\ obj_get fresh "labels" = Some (JArr [])
  /\ exists id, key = "gd-labels-" ++ id.
Proof.
  unfold entry_target. intros Hw H.
  destruct (get_prop doc "url") as [[u|]|] eqn:Eu; try discriminate.
  destruct (truthy u); [|discriminate]. cbn [negb] in H.
  destruct (getDocumentIdFromUrl u) as [[[|c r]|]|]; try discriminate.
  inversion H; subst; clear H.
  split; [|split; [reflexivity | exists (String c r); reflexivity]].
  destruct doc as [| | | | |m]; try discriminate.
  cbn [get_prop] in *. inversion Eu as [Eu'].
  assert (Hu : wf u = true) by (eapply wf_obj_get; eassumption).
  simpl. rewrite Hu.
  unfold or_default. destruct (obj_get m "title") as [t|] eqn:Et; [|reflexivity].
  destruct (truthy t); [|reflexivity].
  now rewrite (wf_obj_get m "title" t Hw Et).
Qed.

Lemma valid_payload_wf s labelName docs :
  valid_payload s = Some (labelName, docs) ->
  wf labelName = true /\ forallb wf docs = true /\ truthy labelName = true.
Proof.
  unfold valid_payload. intros H.
  destruct (JSON.parse s) as [d|] eqn:E; [|discriminate].
  apply parse_wf in E.
  destruct d as [| | | | |m]; try discriminate. cbn [get_prop] in H.
  destruct (obj_get m "label") as [L|] eqn:El; [|discriminate].
  destruct (obj_get m "documents") as [[| | | |ds|]|] eqn:Ed; try discriminate.
  destruct (truthy L) eqn:Et; [|discriminate]. inversion H; subst.
  split; [eapply wf_obj_get; eassumption|].
  split; [|exact Et].
  exact (wf_obj_get m "documents" (JArr docs) E Ed).
Qed.

Lemma same_value_zero_refl v : primitive v = true -> same_value_zero v v = true.
Proof.
  destruct v as [|b|n|s|l|m]; simpl; try discriminate; intros _.
  - reflexivity.
  - now destruct b.
  - apply Z.eqb_refl.
  - apply String.eqb_refl.
Qed.

Lemma array_includes_last l v :
  primitive v = true -> array_includes (l ++ [v]) v = true.
Proof.
  intros H. unfold array_includes. rewrite existsb_app. simpl.
  rewrite same_value_zero_refl by exact H. now rewrite orb_true_r.
Qed.

(** *** One entry *)

(** An entry whose record already lists the label changes nothing. *)
Lemma merge_entry_listed labelName fresh id n st :
  obj_get fresh "labels" = Some (JArr []) ->
  listed labelName ("gd-labels-" ++ id)
    (localStorage.getItem (storage st) ("gd-labels-" ++ id)) = true ->
  merge_entry labelName ("gd-labels-" ++ id) fresh n st = (st, Normal n).
Proof.
  intros Hf Hl. rewrite <- (found_listed _ _ fresh id Hf) in Hl.
  unfold found in Hl. unfold merge_entry. cbv zeta.
  destruct (get_prop _ "labels") as [lbls|]; [|discriminate].
  destruct (value_includes lbls labelName) as [[|]|]; try discriminate.
  reflexivity.
Qed.

(** An entry that completes either leaves the state, its record listing
    the label already, or writes the record with the label appended, the
    record not listing it before and listing it after. *)
Lemma merge_entry_normal labelName fresh id n st st' n' :
  let key := "gd-labels-" ++ id in
  wf (JObj fresh) = true -> obj_get fresh "labels" = Some (JArr []) ->
  wf labelName = true -> primitive labelName = true ->
  merge_entry labelName key fresh n st = (st', Normal n') ->
  (st' = st /\ n' = n
   /\ listed labelName key (localStorage.getItem (storage st) key) = true)
  \/ (n' = S n
      /\ listed labelName key (localStorage.getItem (storage st) key) = false
      /\ exists m l ls,
           existing_data (localStorage.getItem (storage st) key) fresh = JObj m
           /\ obj_get m "labels" = Some (JArr l)
           /\ array_includes l labelName = false
           /\ localStorage.setItem (storage st) key
                (JSON.stringify (JObj (obj_set m "labels" (JArr (l ++ [labelName])))))
              = Some ls
           /\ st' = set_storage ls st
           /\ listed labelName key
                (Some (JSON.stringify
                         (JObj (obj_set m "labels" (JArr (l ++ [labelName]))))))
              = true).
Proof.
  intros key Hwf Hf HwL Hp H.
  assert (Hfl := found_listed labelName
                   (localStorage.getItem (storage st) key) fresh id Hf).
  fold key in Hfl. unfold found in Hfl.
  assert (Hwe := wf_existing_data (localStorage.getItem (storage st) key) fresh Hwf).
  unfold merge_entry in H. cbv zeta in H.
  destruct (get_prop _ "labels") as [lbls|] eqn:Eg; [|discriminate].
  destruct (value_includes lbls labelName) as [[|]|] eqn:Ei; try discriminate.
  - inversion H; subst. left. auto.
  - destruct (existing_data _ _) as [| | | | |m] eqn:Ee; try discriminate.
    destruct lbls as [[| | | |l|]|]; try discriminate.
    destruct (localStorage.setItem _ _ _) as [ls|] eqn:Es; [|discriminate].
    inversion H; subst. right.
    split; [reflexivity|]. split; [now rewrite <- Hfl|].
    assert (Eg' : obj_get m "labels" = Some (JArr l))
      by (cbn [get_prop] in Eg; congruence).
    assert (Ei' : array_includes l labelName = false)
      by (cbn [value_includes] in Ei; congruence).
    exists m, l, ls. repeat split; try assumption.
    (* the written text lists the label *)
    assert (Hwl : wf (JArr l) = true) by (eapply wf_obj_get; eassumption).
    assert (Hwm : wf (JObj (obj_set m "labels" (JArr (l ++ [labelName])))) = true).
    { simpl in Hwe. apply andb_true_iff in Hwe as [H1 H2].
      simpl. rewrite nodup_keys_obj_set by exact H1.
      rewrite wf_obj_set; auto.
      simpl. apply forallb_wf_app; [exact Hwl | simpl; now rewrite HwL]. }
    unfold listed, listing, key. rewrite strip_prefix_app.
    unfold JSON_parse_item, JSON_parse. rewrite parse_stringify by exact Hwm.
    cbn [decode isArray get_prop]. rewrite obj_get_set_same.
    cbn [or_default truthy value_includes].
    rewrite array_includes_last by exact Hp. reflexivity.
Qed.

(** An entry that completes: nothing changes, or one record, which did not
    list the label, is written and lists it. *)
Lemma import_entry_normal labelName doc n st st' n' :
  wf doc = true -> wf labelName = true -> primitive labelName = true ->
  import_entry labelName doc n st = (st', Normal n') ->
  (st' = st /\ n' = n /\ settled labelName st doc)
  \/ (n' = S n
      /\ exists key fresh text ls,
           entry_target doc = Normal (Some (key, fresh))
           /\ listed labelName key (localStorage.getItem (storage st) key) = false
           /\ localStorage.setItem (storage st) key text = Some ls
           /\ st' = set_storage ls st
           /\ listed labelName key (Some text) = true).
Proof.
  intros Hw HwL Hp H. rewrite import_entry_eq in H. unfold settled.
  destruct (entry_target doc) as [[[key fresh]|]|e] eqn:Et; try discriminate.
  - destruct (entry_target_wf doc key fresh Hw Et) as (Hwf & Hf & id & ->).
    apply (merge_entry_normal labelName fresh id n st st' n' Hwf Hf HwL Hp) in H.
    destruct H as [(-> & -> & Hl)|(-> & Hl & m & l & ls & _ & _ & _ & Hs & -> & Hl')].
    + left. auto.
    + right. split; [reflexivity|]. eauto 10.
  - inversion H; subst. left. auto.
Qed.

Lemma import_entry_settled labelName doc n st :
  wf doc = true -> settled labelName st doc ->
  import_entry labelName doc n st = (st, Normal n).
Proof.
  intros Hw H. rewrite import_entry_eq. unfold settled in H.
  destruct (entry_target doc) as [[[key fresh]|]|e] eqn:Et;
    [| reflexivity | contradiction].
  destruct (entry_target_wf doc key fresh Hw Et) as (_ & Hf & id & ->).
  now apply merge_entry_listed.
Qed.

Lemma setItem_storage_get ls key text ls' k :
  localStorage.setItem ls key text = Some ls' ->
  localStorage.getItem ls' k
  = if String.eqb k key then Some text else localStorage.getItem ls k.
Proof.
  intros H. destruct (String.eqb_spec k key) as [->|Hne].
  - eapply setItem_get; eassumption.
  - eapply setItem_get_other; eassumption.
Qed.

Lemma step_settles labelName doc n st st' n' :
  wf doc = true -> wf labelName = true -> primitive labelName = true ->
  import_entry labelName doc n st = (st', Normal n') ->
  settled labelName st' doc.
Proof.
  intros Hw HwL Hp H.
  destruct (import_entry_normal _ _ _ _ _ _ Hw HwL Hp H)
    as [(-> & _ & Hs)|(_ & key & fresh & text & ls & Et & _ & Hs & -> & Hl)];
    [exact Hs|].
  unfold settled. rewrite Et. simpl.
  rewrite (setItem_storage_get _ _ _ _ key Hs), String.eqb_refl. exact Hl.
Qed.

Lemma step_preserves labelName doc n st st' n' d :
  wf doc = true -> wf labelName = true -> primitive labelName = true ->
  import_entry labelName doc n st = (st', Normal n') ->
  settled labelName st d -> settled labelName st' d.
Proof.
  intros Hw HwL Hp H Hd.
  destruct (import_entry_normal _ _ _ _ _ _ Hw HwL Hp H)
    as [(-> & _ & _)|(_ & key & fresh & text & ls & Et & Hn & Hs & -> & Hl)];
    [exact Hd|].
  unfold settled in *.
  destruct (entry_target d) as [[[key' fresh']|]|e]; try exact Hd.
  simpl. rewrite (setItem_storage_get _ _ _ _ key' Hs).
  destruct (String.eqb_spec key' key) as [->|]; [exact Hl | exact Hd].
Qed.

(** *** The loop *)

Lemma forEach_cons {A B} (x : A) (r : list A) (f : A -> B -> JS B) b st :
  forEach (x :: r) f b st
  = match f x b st with
    | (st', Normal b') => forEach r f b' st'
    | (st', Throw e) => (st', Throw e)
    end.
Proof. reflexivity. Qed.

Lemma forEach_preserves labelName docs n st st1 n1 d :
  forallb wf docs = true -> wf labelName = true -> primitive labelName = true ->
  forEach docs (import_entry labelName) n st = (st1, Normal n1) ->
  settled labelName st d -> settled labelName st1 d.
Proof.
  intros Hw HwL Hp. revert n st.
  induction docs as [|doc docs IH]; intros n st H Hd.
  - inversion H; subst. exact Hd.
  - simpl in Hw. apply andb_true_iff in Hw as [Hw1 Hw2].
    rewrite forEach_cons in H.
    destruct (import_entry labelName doc n st) as [st' [n'|e]] eqn:E;
      [|discriminate].
    apply (IH Hw2 n' st' H).
    exact (step_preserves labelName doc n st st' n' d Hw1 HwL Hp E Hd).
Qed.

(** After a loop that completes, every entry is settled. *)
Lemma forEach_settles labelName docs n st st1 n1 :
  forallb wf docs = true -> wf labelName = true -> primitive labelName = true ->
  forEach docs (import_entry labelName) n st = (st1, Normal n1) ->
  Forall (settled labelName st1) docs.
Proof.
  intros Hw HwL Hp. revert n st.
  induction docs as [|doc docs IH]; intros n st H; [constructor|].
  simpl in Hw. apply andb_true_iff in Hw as [Hw1 Hw2].
  rewrite forEach_cons in H.
  destruct (import_entry labelName doc n st) as [st' [n'|e]] eqn:E;
    [|discriminate].
  constructor; [|apply (IH Hw2 n' st' H)].
  apply (forEach_preserves labelName docs n' st' st1 n1 doc Hw2 HwL Hp H).
  exact (step_settles labelName doc n st st' n' Hw1 HwL Hp E).
Qed.

(** On settled entries the loop changes nothing and counts nothing. *)
Lemma forEach_settled labelName docs n st :
  forallb wf docs = true -> Forall (settled labelName st) docs ->
  forEach docs (import_entry labelName) n st = (st, Normal n).
Proof.
  intros Hw H. induction H as [|doc docs Hd Hds IH]; [reflexivity|].
  simpl in Hw. apply andb_true_iff in Hw as [Hw1 Hw2].
  rewrite forEach_cons, (import_entry_settled _ _ _ _ Hw1 Hd).
  apply IH. exact Hw2.
Qed.

Lemma settled_storage labelName a b d :
  storage a = storage b -> settled labelName a d -> settled labelName b d.
Proof. unfold settled. intros ->. auto. Qed.

Lemma loadLabels_frame st :
  let st' := fst (loadLabels st) in
  storage st' = storage st /\ documentId st' = documentId st
  /\ mounted st' = mounted st /\ refreshes st' = refreshes st.
Proof.
  rewrite loadLabels_eq. simpl.
  destruct (no_id _); [auto|].
  destruct (present _) as [s|]; [|auto].
  destruct (parse_labels s); auto.
Qed.

(** Reloading again, whatever the refresh count, reads the same labels. *)
Lemma reload_stable st n :
  let s2 := fst (loadLabels st) in
  labels (fst (loadLabels (set_refreshes n s2))) = labels s2.
Proof.
  intros s2. destruct (loadLabels_frame st) as (Hs & Hd & _).
  fold s2 in Hs, Hd.
  rewrite loadLabels_eq. cbn [fst documentId storage set_refreshes].
  unfold active_key. cbn [documentId set_refreshes]. rewrite Hd, Hs.
  subst s2. rewrite loadLabels_eq. cbn [fst]. unfold active_key.
  destruct (no_id (documentId st)); [reflexivity|].
  destruct (present _) as [s|]; [|reflexivity].
  destruct (parse_labels s); reflexivity.
Qed.

Lemma imported_success labelName n :
  get_prop (imported labelName n) "success" = Normal (Some (JBool true)).
Proof. reflexivity. Qed.

Lemma failed_success e :
  get_prop (failed e) "success" = Normal (Some (JBool false)).
Proof. reflexivity. Qed.

(** An entry appends only to a record whose labels do not include the
    label, and is counted only when it appends. *)
Lemma import_entry_appends labelName doc n sa sb n' :
  import_entry labelName doc n sa = (sb, Normal n') ->
  (sb = sa /\ n' = n)
  \/ (n' = S n
      /\ exists key fresh m l,
           entry_target doc = Normal (Some (key, fresh))
           /\ existing_data (localStorage.getItem (storage sa) key) fresh = JObj m
           /\ obj_get m "labels" = Some (JArr l)
           /\ array_includes l labelName = false
           /\ localStorage.getItem (storage sb) key
              = Some (JSON.stringify
                        (JObj (obj_set m "labels" (JArr (l ++ [labelName])))))).
Proof.
  intros H. rewrite import_entry_eq in H.
  destruct (entry_target doc) as [[[key fresh]|]|e] eqn:Et; try discriminate.
  2:{ injection H as -> ->. left. auto. }
  unfold merge_entry in H. cbv zeta in H.
  destruct (get_prop _ "labels") as [lbls|] eqn:Eg; [|discriminate].
  destruct (value_includes lbls labelName) as [[|]|] eqn:Ei; try discriminate.
  { injection H as -> ->. left. auto. }
  destruct (existing_data _ _) as [| | | | |m] eqn:Ee; try discriminate.
  destruct lbls as [[| | | |l|]|]; try discriminate.
  destruct (localStorage.setItem _ _ _) as [ls|] eqn:Es; [|discriminate].
  injection H as <- <-. right. split; [reflexivity|].
  exists key, fresh, m, l.
  split; [reflexivity|]. split; [exact Ee|].
  split; [cbn [get_prop] in Eg; congruence|].
  split; [cbn [value_includes] in Ei; congruence|].
  cbn [storage set_storage]. eapply setItem_get; eassumption.
Qed.

(** C5: during an import, an entry appends the label to the record of its
    document only when the labels of that record do not include it, and is
    counted only then; so, for a label that [includes] finds by value (a
    string), once an import has completed, importing the same text again
    in the state the first import left appends nothing, writes nothing and
    reports 0 documents. *)
Theorem import_twice (st st1 : State) (s : string) (r1 labelName : json)
    (docs : list json) :
  valid_payload s = Some (labelName, docs) ->
  importLabel s st = (st1, Normal r1) ->
  get_prop r1 "success" = Normal (Some (JBool true)) ->
  (forall doc n sa sb n',
      import_entry labelName doc n sa = (sb, Normal n') ->
      (sb = sa /\ n' = n)
      \/ (n' = S n
          /\ exists key fresh m l,
               entry_target doc = Normal (Some (key, fresh))
               /\ existing_data (localStorage.getItem (storage sa) key) fresh
                  = JObj m
               /\ obj_get m "labels" = Some (JArr l)
               /\ array_includes l labelName = false
               /\ localStorage.getItem (storage sb) key
                  = Some (JSON.stringify
                            (JObj (obj_set m "labels"
                                     (JArr (l ++ [labelName])))))))
  /\ (primitive labelName = true ->
      exists st2,
        importLabel s st1 = (st2, Normal (imported labelName 0))
        /\ storage st2 = storage st1).
Proof.
  intros Hv H Hr.
  destruct (valid_payload_wf s labelName docs Hv) as (HwL & Hwd & _).
  split.
  { intros doc n sa sb n'. apply import_entry_appends. }
  intros Hp.
  rewrite (importLabel_valid s st labelName docs Hv) in H.
  destruct (forEach docs (import_entry labelName) 0 st) as [sA [N|e]] eqn:EF.
  2:{ inversion H; subst. rewrite failed_success in Hr. discriminate. }
  cbv zeta in H.
  destruct (mounted (fst (loadLabels sA))
            && negb (displayable (labels (fst (loadLabels sA))))) eqn:Em.
  { inversion H; subst. rewrite failed_success in Hr. discriminate. }
  injection H as Hst Hres.
  destruct (loadLabels_frame sA) as (Hs & _ & Hm & _).
  assert (Hst1 : storage st1 = storage sA) by (rewrite <- Hst; exact Hs).
  assert (Hset : Forall (settled labelName st1) docs).
  { eapply Forall_impl;
      [| exact (forEach_settles labelName docs 0 st sA N Hwd HwL Hp EF)].
    intros d. apply settled_storage. now rewrite Hst1. }
  rewrite (importLabel_valid s st1 labelName docs Hv).
  rewrite (forEach_settled labelName docs 0 st1 Hwd Hset). cbv zeta.
  destruct (loadLabels_frame st1) as (Hs1 & _ & Hm1 & _).
  exists (set_refreshes (S (refreshes (fst (loadLabels st1))))
            (fst (loadLabels st1))).
  split; [|exact Hs1].
  f_equal. f_equal.
  assert (El : labels (fst (loadLabels st1)) = labels (fst (loadLabels sA))).
  { rewrite <- Hst. apply reload_stable. }
  rewrite El, Hm1, <- Hst. cbn [mounted set_refreshes]. now rewrite Em.
Qed.

(** *** Counting the documents that list a label *)

Lemma documents_with_length labelName st :
  length (documents_with labelName st) = count_listed labelName (storage st).
Proof.
  unfold documents_with, count_listed.
  rewrite findDocumentsWithLabel_eq. cbn [snd].
  rewrite length_flat_map. f_equal. apply map_ext. intros key.
  rewrite <- (listing_current labelName (documentId st)).
  destruct (listing _ _ _ _); reflexivity.
Qed.

Lemma keys_update l k v :
  map fst (localStorage.update l k v)
  = if existsb (String.eqb k) (map fst l) then map fst l
    else (map fst l ++ [k])%list.
Proof.
  induction l as [|[k' v'] l IH]; simpl; [reflexivity|].
  destruct (String.eqb k k') eqn:E; simpl.
  - apply String.eqb_eq in E. now subst.
  - rewrite IH. destruct (existsb _ _); reflexivity.
Qed.

Lemma existsb_eqb_In k ks : existsb (String.eqb k) ks = true <-> In k ks.
Proof.
  rewrite existsb_exists. split.
  - intros (x & Hx & E). apply String.eqb_eq in E. now subst.
  - intros H. exists k. split; [exact H | apply String.eqb_refl].
Qed.

Lemma sum_same (g g' : string -> nat) (key : string) (ks : list string) :
  ~ In key ks -> (forall k, k <> key -> g' k = g k) ->
  list_sum (map g' ks) = list_sum (map g ks).
Proof.
  intros Hni Ho. f_equal. apply map_ext_in.
  intros k Hk. apply Ho. intros ->. contradiction.
Qed.

(** A sum over keys without repetition, when one key gains one. *)
Lemma sum_point (g g' : string -> nat) (key : string) (ks : list string) :
  NoDup ks -> In key ks ->
  (forall k, k <> key -> g' k = g k) -> g' key = S (g key) ->
  list_sum (map g' ks) = S (list_sum (map g ks)).
Proof.
  intros Hnd Hin Ho Hk. induction Hnd as [|k ks Hni Hnd IH]; [contradiction|].
  simpl. destruct Hin as [->|Hin].
  - rewrite Hk, (sum_same g g' key ks Hni Ho). reflexivity.
  - rewrite (Ho k) by (intros ->; contradiction).
    rewrite IH by exact Hin. lia.
Qed.

(** Writing a record that lists the label, over one that did not, adds one
    listed document and keeps the keys without repetition. *)
Lemma count_setItem labelName ls key text ls' :
  NoDup (localStorage.keys ls) ->
  localStorage.setItem ls key text = Some ls' ->
  listed labelName key (localStorage.getItem ls key) = false ->
  listed labelName key (Some text) = true ->
  count_listed labelName ls' = S (count_listed labelName ls)
  /\ NoDup (localStorage.keys ls').
Proof.
  intros Hnd Hs Hb Ha.
  assert (Hget := fun k => setItem_storage_get ls key text ls' k Hs).
  unfold count_listed.
  set (g := fun k => if listed labelName k (localStorage.getItem ls k)
                     then 1 else 0).
  set (g' := fun k => if listed labelName k (localStorage.getItem ls' k)
                      then 1 else 0).
  assert (Ho : forall k, k <> key -> g' k = g k).
  { intros k Hk. unfold g, g'. rewrite Hget.
    destruct (String.eqb_spec k key); [contradiction | reflexivity]. }
  assert (Hk : g' key = S (g key)).
  { unfold g, g'. rewrite Hget, String.eqb_refl, Ha, Hb. reflexivity. }
  assert (Hkeys : localStorage.keys ls'
                  = if existsb (String.eqb key) (localStorage.keys ls)
                    then localStorage.keys ls
                    else (localStorage.keys ls ++ [key])%list).
  { unfold localStorage.setItem in Hs.
    destruct (Nat.leb _ _); inversion Hs; subst.
    unfold localStorage.keys. simpl. apply keys_update. }
  rewrite Hkeys.
  destruct (existsb (String.eqb key) (localStorage.keys ls)) eqn:Ex.
  - apply existsb_eqb_In in Ex. split; [|exact Hnd].
    now apply (sum_point g g' key).
  - assert (Hni : ~ In key (localStorage.keys ls)).
    { intros Hin. apply existsb_eqb_In in Hin. congruence. }
    split.
    + rewrite map_app, list_sum_app. simpl.
      rewrite (sum_same g g' key _ Hni Ho), Hk.
      assert (Hg : g key = 0) by (unfold g; now rewrite Hb).
      lia.
    + apply NoDup_app.
      * exact Hnd.
      * constructor; [intros []|constructor].
      * intros k Hin [<-|[]]. contradiction.
Qed.

(** The loop counts exactly the documents that come to list the label. *)
Lemma forEach_count labelName docs n st st1 n1 :
  forallb wf docs = true -> wf labelName = true -> primitive labelName = true ->
  NoDup (localStorage.keys (storage st)) ->
  forEach docs (import_entry labelName) n st = (st1, Normal n1) ->
  count_listed labelName (storage st1) + n
  = count_listed labelName (storage st) + n1
  /\ NoDup (localStorage.keys (storage st1)).
Proof.
  intros Hw HwL Hp. revert n st.
  induction docs as [|doc docs IH]; intros n st Hnd H.
  - inversion H; subst. split; [reflexivity | exact Hnd].
  - simpl in Hw. apply andb_true_iff in Hw as [Hw1 Hw2].
    rewrite forEach_cons in H.
    destruct (import_entry labelName doc n st) as [st' [n'|e]] eqn:E;
      [|discriminate].
    destruct (import_entry_normal _ _ _ _ _ _ Hw1 HwL Hp E)
      as [(-> & -> & _)|(-> & key & fresh & text & ls & _ & Hb & Hs & -> & Ha)].
    + exact (IH Hw2 n st Hnd H).
    + destruct (count_setItem labelName _ key text ls Hnd Hs Hb Ha) as (Hc & Hnd').
      destruct (IH Hw2 (S n) (set_storage ls st) Hnd' H) as (Hc' & Hnd'').
      split; [|exact Hnd'']. simpl in Hc'. lia.
Qed.

(** C3, as the code has it: a completed import of a text with label [L]
    returns exactly [{success: true, message: "Imported label \"L\" to N
    document(s)."}], without a property [importedCount]; [N], which only
    the message carries, is the number of documents that came to list [L]:
    by so much the list of [findDocumentsWithLabel] grows. *)
Theorem import_result (st st' : State) (s : string) (r labelName : json)
    (docs : list json) :
  valid_payload s = Some (labelName, docs) ->
  importLabel s st = (st', Normal r) ->
  get_prop r "success" = Normal (Some (JBool true)) ->
  exists n,
    r = JObj [("success", JBool true);
              ("message",
               JStr (dq "Imported label '" ++ to_string labelName
                       ++ dq "' to " ++ num_to_string (Z.of_nat n)
                       ++ " document(s)."))]
    /\ get_prop r "importedCount" = Normal None
    /\ (primitive labelName = true ->
        NoDup (localStorage.keys (storage st)) ->
        length (documents_with labelName st')
        = length (documents_with labelName st) + n).
Proof.
  intros Hv H Hr.
  destruct (valid_payload_wf s labelName docs Hv) as (HwL & Hwd & _).
  rewrite (importLabel_valid s st labelName docs Hv) in H.
  destruct (forEach docs (import_entry labelName) 0 st) as [sA [n|e]] eqn:EF.
  2:{ injection H as _ <-. rewrite failed_success in Hr. discriminate. }
  cbv zeta in H.
  destruct (mounted (fst (loadLabels sA))
            && negb (displayable (labels (fst (loadLabels sA))))) eqn:Em.
  { injection H as _ <-. rewrite failed_success in Hr. discriminate. }
  injection H as Hst Hres. exists n.
  split; [now rewrite <- Hres|]. split; [now rewrite <- Hres|].
  intros Hp Hnd.
  destruct (forEach_count labelName docs 0 st sA n Hwd HwL Hp Hnd EF) as (Hc & _).
  destruct (loadLabels_frame sA) as (Hs & _).
  rewrite !documents_with_length, <- Hst. cbn [storage set_refreshes].
  rewrite Hs. lia.
Qed.

(** *** What isolates an entry, and what does not *)

(** An entry without [url], with a falsy [url] or with an address that is
    not one of a document is passed over. *)
Lemma import_entry_skips labelName doc n st :
  entry_target doc = Normal None ->
  import_entry labelName doc n st = (st, Normal n).
Proof. intros H. now rewrite import_entry_eq, H. Qed.

(** A stored text that does not parse is replaced by the fresh record of
    the entry: the inner [try] covers the read. *)
Lemma existing_data_unparsable s fresh :
  JSON.parse s = None -> existing_data (Some s) fresh = JObj fresh.
Proof.
  intros H. unfold existing_data, present.
  destruct s; [reflexivity|]. now rewrite H.
Qed.

(** An error raised by an entry ends the loop there. *)
Lemma forEach_throws {A B} (x : A) (r : list A) (f : A -> B -> JS B) b st st' e :
  f x b st = (st', Throw e) -> forEach (x :: r) f b st = (st', Throw e).
Proof. intros H. now rewrite forEach_cons, H. Qed.

(** A refused write is such an error: the inner [try] does not cover
    [setItem]. *)
Lemma merge_entry_refused labelName key fresh n st m l :
  existing_data (localStorage.getItem (storage st) key) fresh = JObj m ->
  obj_get m "labels" = Some (JArr l) ->
  array_includes l labelName = false ->
  localStorage.setItem (storage st) key
    (JSON.stringify (JObj (obj_set m "labels" (JArr (l ++ [labelName])))))
  = None ->
  merge_entry labelName key fresh n st = (st, Throw QuotaExceededError).
Proof.
  intros He Hg Hi Hs. unfold merge_entry. cbv zeta. rewrite He.
  cbn [get_prop]. rewrite Hg. cbn [value_includes]. rewrite Hi, Hs.
  reflexivity.
Qed.

(** C2, at the failing input: the storage has room to add the label to
    [docB] but not to [docA].  The write for [docA] is refused, and the
    import stops there: it returns [{success: false, message: "Invalid
    JSON: ..."}] and the entry of [docB], which comes next, is never
    processed, although the same import with that entry alone appends the
    label to [docB] and succeeds. *)
Theorem import_write_failure_aborts :
  importLabel Examples.payload Examples.st_tight
  = (Examples.st_tight, Normal (failed QuotaExceededError))
  /\ listed (JStr "Q1") "gd-labels-docB"
       (localStorage.getItem
          (storage (fst (importLabel Examples.payload Examples.st_tight)))
          "gd-labels-docB") = false
  /\ snd (importLabel Examples.payload_B Examples.st_tight)
     = Normal (imported (JStr "Q1") 1)
  /\ listed (JStr "Q1") "gd-labels-docB"
       (localStorage.getItem
          (storage (fst (importLabel Examples.payload_B Examples.st_tight)))
          "gd-labels-docB") = true.
Proof. vm_compute. repeat split. Qed.

(** ** The claims on concrete states *)

Module Witnesses.
Import Examples.

(** C1 as stated fails: with two labels, [removeLabel(5)] and
    [removeLabel(-1)] return without any error; the first leaves the list
    as it is, the second removes the last label. *)
Lemma removeLabel_out_of_range_no_error :
  labels st_ab = strings ["a"; "b"]
  /\ snd (removeLabel 5 st_ab) = Normal tt
  /\ (forall e, snd (removeLabel 5 st_ab) <> Throw e)
  /\ labels (fst (removeLabel 5 st_ab)) = strings ["a"; "b"]
  /\ snd (removeLabel (-1) st_ab) = Normal tt
  /\ labels (fst (removeLabel (-1) st_ab)) = strings ["a"].
Proof. vm_compute. repeat split; discriminate. Qed.

(** With the entries in the other order the record of [docB] is written
    before the write for [docA] is refused: the import reports a failure
    and has stored a part of its effect. *)
Lemma import_partial_effect :
  snd (importLabel payload_rev st_tight) = Normal (failed QuotaExceededError)
  /\ listed (JStr "Q1") "gd-labels-docB"
       (localStorage.getItem (storage (fst (importLabel payload_rev st_tight)))
          "gd-labels-docB") = true
  /\ listed (JStr "Q1") "gd-labels-docA"
       (localStorage.getItem (storage (fst (importLabel payload_rev st_tight)))
          "gd-labels-docA") = false.
Proof. vm_compute. repeat split. Qed.

Lemma read_paths_do_not_write_witness :
  storage (fst (loadLabels st_behind)) = storage st_behind
  /\ storage (fst (checkAndReloadLabels st_behind)) = storage st_behind
  /\ fst (findDocumentsWithLabel (JStr "a") st_behind) = st_behind.
Proof.
  destruct (read_paths_do_not_write st_behind (JStr "a")) as (H1 & H2 & H3 & _).
  repeat split; assumption.
Defined.

Lemma removeLabel_spec_witness :
  labels st_ab = JArr [JStr "a"; JStr "b"]
  /\ exists l',
       labels (fst (removeLabel 0 st_ab)) = JArr l'
       /\ l' = remove_at 0 [JStr "a"; JStr "b"].
Proof.
  split; [reflexivity|].
  destruct (removeLabel_spec st_ab [JStr "a"; JStr "b"] 0 eq_refl)
    as (l' & _ & Hl & _ & Hin & _).
  exists l'. split; [exact Hl|]. apply Hin. simpl. lia.
Defined.

(** C3 as stated fails: the result of a completed import has no property
    [importedCount]; the count is in the message only. *)
Lemma import_result_no_importedCount :
  snd (importLabel payload st_two) = Normal (imported (JStr "Q1") 1)
  /\ get_prop (imported (JStr "Q1") 1) "success" = Normal (Some (JBool true))
  /\ get_prop (imported (JStr "Q1") 1) "importedCount" = Normal None
  /\ get_prop (imported (JStr "Q1") 1) "importedCount"
     <> Normal (Some (JNum 1)).
Proof. vm_compute. repeat split; discriminate. Qed.

Lemma two_docs_nodup : NoDup (localStorage.keys (storage st_two)).
Proof.
  repeat constructor; simpl; intuition discriminate.
Defined.

Lemma import_result_witness :
  valid_payload payload = Some (JStr "Q1", payload_docs)
  /\ exists n,
       length (documents_with (JStr "Q1") (fst (importLabel payload st_two)))
       = length (documents_with (JStr "Q1") st_two) + n.
Proof.
  split; [vm_compute; reflexivity|].
  destruct (import_result st_two (fst (importLabel payload st_two)) payload
              (imported (JStr "Q1") 1) (JStr "Q1") payload_docs)
    as (n & _ & _ & Hc).
  - vm_compute; reflexivity.
  - vm_compute; reflexivity.
  - reflexivity.
  - exists n. exact (Hc eq_refl two_docs_nodup).
Defined.

(** C4 as stated fails: the stored value is malformed, which [loadLabels]
    reads as no labels, the last known labels are [a], and the check
    neither refreshes nor replaces anything. *)
Lemma check_silent_on_malformed :
  labels (fst (loadLabels st_malformed)) = strings []
  /\ lastKnownLabelsJson st_malformed = JSON.stringify (strings ["a"])
  /\ strings [] <> strings ["a"]
  /\ checkAndReloadLabels st_malformed = (st_malformed, Normal tt).
Proof. vm_compute. repeat split; discriminate. Qed.

Lemma check_fires_iff_differs_witness :
  no_id (documentId st_behind) = false
  /\ current_labels
       (localStorage.getItem (storage st_behind) (active_key st_behind))
     = Normal (strings ["a"; "b"; "c"])
  /\ refreshes (fst (checkAndReloadLabels st_behind)) = S (refreshes st_behind).
Proof.
  split; [reflexivity|]. split; [vm_compute; reflexivity|].
  destruct (check_fires_iff_differs st_behind (strings ["a"; "b"])
              (strings ["a"; "b"; "c"]))
    as (_ & _ & Hd & _).
  - reflexivity.
  - reflexivity.
  - reflexivity.
  - vm_compute; reflexivity.
  - apply Hd. discriminate.
Defined.

Lemma import_twice_witness :
  valid_payload payload = Some (JStr "Q1", payload_docs)
  /\ exists st2,
       importLabel payload (fst (importLabel payload st_two))
       = (st2, Normal (imported (JStr "Q1") 0)).
Proof.
  split; [vm_compute; reflexivity|].
  destruct (import_twice st_two (fst (importLabel payload st_two)) payload
              (imported (JStr "Q1") 1) (JStr "Q1") payload_docs)
    as (_ & H2).
  - vm_compute; reflexivity.
  - vm_compute; reflexivity.
  - reflexivity.
  - destruct (H2 eq_refl) as (st2 & E & _). exists st2. exact E.
Defined.

Lemma reorder_spec_witness :
  labels st_drag = strings ["a"; "b"; "c"; "d"]
  /\ labels (fst (onDrop 2 st_drag)) = strings ["b"; "c"; "a"; "d"]
  /\ labels (fst ((onDragStart 2 ;; onDrop 0) (fst (onDrop 2 st_drag))))
     = strings ["a"; "b"; "c"; "d"].
Proof.
  split; [reflexivity|].
  destruct (reorder_spec st_drag
              [JStr "a"; JStr "b"; JStr "c"; JStr "d"] 0 2)
    as (_ & _ & _ & H1 & H2).
  - reflexivity.
  - reflexivity.
  - simpl; lia.
  - simpl; lia.
  - lia.
  - split; [exact H1 | exact H2].
Defined.

(** C7 as stated fails: the address a legacy array decodes to is not
    empty; it is derived from the document id of the key. *)
Lemma legacy_url_not_empty :
  decode_stored "abc" (dq "['x','y']")
  <> Normal (strings ["x"; "y"], JStr "Untitled", JStr "")
  /\ documents_with (JStr "x") st_legacy
     = [JObj [("id", JStr "abc"); ("title", JStr "Untitled");
              ("url", JStr "https://docs.google.com/document/d/abc/edit");
              ("isCurrent", JBool false)]].
Proof. vm_compute. split; [discriminate | reflexivity]. Qed.

Lemma legacy_array_decodes_witness :
  JSON.parse (dq "['x','y']") = Some (strings ["x"; "y"])
  /\ decode_stored "abc" (dq "['x','y']")
     = Normal (strings ["x"; "y"], JStr "Untitled", JStr (derived_url "abc")).
Proof.
  split; [vm_compute; reflexivity|].
  apply (legacy_array_decodes (dq "['x','y']") ["x"; "y"] "abc").
  vm_compute; reflexivity.
Defined.

(** C9 as stated fails: a record with an empty title and an empty address
    decodes to the title ["Untitled"] and the derived address. *)
Lemma decode_encode_empty_title :
  decode_stored "abc" (encode (strings []) "" "")
  = Normal (strings [], JStr "Untitled",
            JStr "https://docs.google.com/document/d/abc/edit")
  /\ decode_stored "abc" (encode (strings []) "" "")
     <> Normal (strings [], JStr "", JStr "").
Proof. vm_compute. split; [reflexivity | discriminate]. Qed.

Lemma decode_encode_witness :
  "Report" <> "" /\ urlA <> ""
  /\ decode_stored "docA" (encode (strings ["a"; "b"]) "Report" urlA)
     = Normal (strings ["a"; "b"], JStr "Report", JStr urlA).
Proof.
  split; [discriminate|]. split; [discriminate|].
  apply (decode_encode ["a"; "b"] "Report" urlA "docA"); discriminate.
Defined.

Lemma check_throw_no_effect_witness :
  current_labels
    (localStorage.getItem (storage st_malformed) (active_key st_malformed))
  = Throw SyntaxError
  /\ checkAndReloadLabels st_malformed = (st_malformed, Normal tt).
Proof.
  split; [vm_compute; reflexivity|].
  apply (check_throw_no_effect st_malformed SyntaxError).
  vm_compute; reflexivity.
Defined.

End Witnesses.

(** * Further properties of the code *)

(** ** JSON.stringify with indentation reads back *)

Module PrettyFacts.
Import JSON JSONFacts.

Example stringify_indent_example :
  stringify_indent 0
    (JObj [("label", JStr "Q1");
           ("documents", JArr [JObj [("title", JStr "T")]; JArr []])])
  = dq "{
  'label': 'Q1',
  'documents': [
    {
      'title': 'T'
    },
    []
  ]
}".
Proof. vm_compute. reflexivity. Qed.

Lemma skip_ws_spaces n s : skip_ws (spaces n ++ s) = skip_ws s.
Proof. induction n as [|n IH]; [reflexivity | exact IH]. Qed.

Lemma skip_ws_nl n s : skip_ws (String newline (spaces n ++ s)) = skip_ws s.
Proof. exact (skip_ws_spaces n s). Qed.

Lemma parse_value_skip fuel a b :
  skip_ws a = skip_ws b -> parse_value fuel a = parse_value fuel b.
Proof.
  intros H. destruct fuel; [reflexivity|]. now rewrite !parse_value_S, H.
Qed.

Lemma parse_items_skip fuel a b :
  skip_ws a = skip_ws b -> parse_items fuel a = parse_items fuel b.
Proof.
  intros H. destruct fuel; [reflexivity|].
  now rewrite !parse_items_S, (parse_value_skip fuel a b H).
Qed.

Lemma parse_props_skip fuel a b acc :
  skip_ws a = skip_ws b -> parse_props fuel a acc = parse_props fuel b acc.
Proof.
  intros H. destruct fuel; [reflexivity|]. now rewrite !parse_props_S, H.
Qed.

Lemma starts_value_indent n v r :
  starts_value (stringify_indent n v ++ r) = true.
Proof.
  destruct v as [|b|z|s|[|x l]|[|kv m]]; try reflexivity;
    apply (starts_value_print _ r).
Qed.

Lemma stringify_indent_arr n x l :
  stringify_indent n (JArr (x :: l))
  = String "[" (String newline
      (spaces (S (S n))
       ++ join_sep (stringify_indent (S (S n))) (item_sep (S (S n))) (x :: l)
       ++ String newline (spaces n ++ "]"))).
Proof.
  change (stringify_indent n (JArr (x :: l)))
    with (String "[" (String newline (spaces (S (S n))))
          ++ join_sep (stringify_indent (S (S n))) (item_sep (S (S n))) (x :: l)
          ++ String newline (spaces n) ++ "]").
  reflexivity.
Qed.

Lemma stringify_indent_obj n kv m :
  stringify_indent n (JObj (kv :: m))
  = String "{" (String newline
      (spaces (S (S n))
       ++ join_sep (print_prop (S (S n))) (item_sep (S (S n))) (kv :: m)
       ++ String newline (spaces n ++ "}"))).
Proof.
  change (stringify_indent n (JObj (kv :: m)))
    with (String "{" (String newline (spaces (S (S n))))
          ++ join_sep (print_prop (S (S n))) (item_sep (S (S n))) (kv :: m)
          ++ String newline (spaces n) ++ "}").
  reflexivity.
Qed.

Lemma join_sep_cons {A} (f : A -> string) sep x y l :
  join_sep f sep (x :: y :: l) = f x ++ sep ++ join_sep f sep (y :: l).
Proof. reflexivity. Qed.

Section RoundTrip.

Let reads_back (v : json) : Prop :=
  wf v = true ->
  forall n fuel rest, need v <= fuel -> no_digit rest ->
    parse_value fuel (stringify_indent n v ++ rest) = Some (v, rest).

Lemma parse_items_indent (l : list json) :
  Forall reads_back l -> l <> [] -> forallb wf l = true ->
  forall n k fuel rest,
    list_sum (map (fun x => S (need x)) l) <= fuel ->
    parse_items fuel
      (join_sep (stringify_indent n) (item_sep n) l
         ++ String newline (spaces k ++ String "]" rest))
    = Some (l, rest).
Proof.
  induction 1 as [|v l Hv Hl IH]; [congruence|].
  intros _ Hwf n k fuel rest Hf. simpl in Hwf, Hf.
  apply andb_true_iff in Hwf as [Hwv Hwl].
  destruct fuel as [|fuel]; [lia|].
  rewrite parse_items_S.
  destruct l as [|v' l'].
  - change (join_sep (stringify_indent n) (item_sep n) [v])
      with (stringify_indent n v).
    rewrite (Hv Hwv n fuel); [| lia | reflexivity].
    rewrite skip_ws_nl.
    reflexivity.
  - rewrite join_sep_cons, !sapp_assoc.
    change (item_sep n ++ ?x)
      with (String "," (String newline (spaces n ++ x))).
    rewrite (Hv Hwv n fuel); [| simpl in Hf; lia | reflexivity].
    change (skip_ws (String "," ?x)) with (String "," x).
    cbv iota. change (Ascii.eqb "," ",") with true. cbv iota.
    rewrite (parse_items_skip fuel _ _ (skip_ws_nl n _)).
    rewrite IH; [reflexivity | discriminate | exact Hwl | simpl in *; lia].
Qed.

Lemma parse_props_indent (m : list (string * json)) :
  Forall (fun kv => reads_back (snd kv)) m -> m <> [] ->
  nodup_keys m = true -> forallb (fun kv => wf (snd kv)) m = true ->
  forall n k fuel rest acc,
    (forall kv, In kv m -> has_key acc (fst kv) = false) ->
    list_sum (map (fun kv => S (need (snd kv))) m) <= fuel ->
    parse_props fuel
      (join_sep (print_prop n) (item_sep n) m
         ++ String newline (spaces k ++ String "}" rest)) acc
    = Some ((acc ++ m)%list, rest).
Proof.
  induction 1 as [|[key v] m Hv Hm IH]; [congruence|].
  intros _ Hnd Hwf n k fuel rest acc Hacc Hf. simpl in Hnd, Hwf, Hf, Hv.
  apply andb_true_iff in Hwf as [Hwv Hwm].
  apply andb_true_iff in Hnd as [Hk Hnd].
  apply negb_true_iff in Hk.
  destruct fuel as [|fuel]; [lia|].
  assert (Hfresh : has_key acc key = false)
    by (apply (Hacc (key, v)); now left).
  assert (Hq : forall x, skip_ws (quote key ++ x) = quote key ++ x)
    by reflexivity.
  assert (Hsp : forall x, parse_value fuel (String " " x) = parse_value fuel x)
    by (intros x; now apply parse_value_skip).
  rewrite parse_props_S.
  destruct m as [|kv' m'].
  - change (join_sep (print_prop n) (item_sep n) [(key, v)])
      with (quote key ++ ": " ++ stringify_indent n v).
    rewrite !sapp_assoc, Hq, read_string_quote.
    change (": " ++ ?x) with (String ":" (String " " x)).
    change (skip_ws (String ":" ?x)) with (String ":" x).
    cbv iota. change (Ascii.eqb ":" ":") with true. cbv iota.
    rewrite Hsp, (Hv Hwv n fuel); [| lia | reflexivity].
    rewrite skip_ws_nl.
    change (skip_ws (String "}" ?x)) with (String "}" x).
    cbv iota. change (Ascii.eqb "}" ",") with false.
    change (Ascii.eqb "}" "}") with true. cbv iota.
    now rewrite obj_set_fresh.
  - rewrite join_sep_cons.
    change (print_prop n (key, v))
      with (quote key ++ ": " ++ stringify_indent n v).
    rewrite !sapp_assoc, Hq, read_string_quote.
    change (": " ++ ?x) with (String ":" (String " " x)).
    change (skip_ws (String ":" ?x)) with (String ":" x).
    cbv iota. change (Ascii.eqb ":" ":") with true. cbv iota.
    change (item_sep n ++ ?x)
      with (String "," (String newline (spaces n ++ x))).
    rewrite Hsp, (Hv Hwv n fuel); [| simpl in Hf; lia | reflexivity].
    change (skip_ws (String "," ?x)) with (String "," x).
    cbv iota. change (Ascii.eqb "," ",") with true. cbv iota.
    rewrite (parse_props_skip fuel _ _ _ (skip_ws_nl n _)).
    rewrite IH; try assumption; try discriminate.
    + rewrite obj_set_fresh by exact Hfresh.
      now rewrite <- app_assoc.
    + intros kv Hin. rewrite obj_set_fresh by exact Hfresh.
      rewrite has_key_app, (Hacc kv) by now right. simpl.
      rewrite orb_false_r.
      destruct (String.eqb_spec (fst kv) key) as [E|]; [|reflexivity].
      exfalso. unfold has_key in Hk.
      assert (Ht : existsb (fun kv0 => (key =? fst kv0)%string) (kv' :: m')
                   = true).
      { apply existsb_exists. exists kv. split; [exact Hin|].
        rewrite E. apply String.eqb_refl. }
      congruence.
    + simpl in *; lia.
Qed.

Lemma parse_value_indent (v : json) : reads_back v.
Proof.
  induction v as [|b|z|s|l IH|m IH] using json_induction;
    intros Hwf n fuel rest Hf Hr;
    try exact (parse_value_print _ Hwf fuel rest Hf Hr).
  - destruct l as [|x l];
      [exact (parse_value_print (JArr []) Hwf fuel rest Hf Hr)|].
    destruct fuel as [|fuel]; [simpl in Hf; lia|].
    simpl in Hwf, Hf.
    rewrite stringify_indent_arr.
    change (String "[" ?x ++ rest) with (String "[" (x ++ rest)).
    rewrite parse_value_arr.
    change (String newline ?x ++ rest) with (String newline (x ++ rest)).
    rewrite !sapp_assoc.
    change (String newline ?x ++ rest) with (String newline (x ++ rest)).
    rewrite !sapp_assoc.
    change ("]" ++ rest) with (String "]" rest).
    rewrite skip_ws_nl.
    set (body := join_sep (stringify_indent (S (S n))) (item_sep (S (S n)))
                   (x :: l)
                 ++ String newline (spaces n ++ String "]" rest)).
    assert (Hs : starts_value body = true).
    { unfold body. destruct l.
      - apply starts_value_indent.
      - rewrite join_sep_cons, sapp_assoc. apply starts_value_indent. }
    rewrite (skip_ws_starts _ Hs).
    destruct body as [|c' r'] eqn:Ej; [discriminate|].
    simpl in Hs. apply andb_true_iff in Hs as [Hs _].
    apply andb_true_iff in Hs as [_ Hs]. apply negb_true_iff in Hs.
    rewrite Hs. rewrite <- Ej.
    rewrite (parse_items_skip fuel _ body (skip_ws_nl _ _)).
    unfold body.
    rewrite parse_items_indent; try assumption;
      [reflexivity | discriminate | simpl; lia].
  - destruct m as [|kv m];
      [exact (parse_value_print (JObj []) Hwf fuel rest Hf Hr)|].
    destruct fuel as [|fuel]; [simpl in Hf; lia|].
    simpl in Hwf, Hf. apply andb_true_iff in Hwf as [Hnd Hwf].
    rewrite stringify_indent_obj.
    change (String "{" ?x ++ rest) with (String "{" (x ++ rest)).
    rewrite parse_value_obj.
    change (String newline ?x ++ rest) with (String newline (x ++ rest)).
    rewrite !sapp_assoc.
    change (String newline ?x ++ rest) with (String newline (x ++ rest)).
    rewrite !sapp_assoc.
    change ("}" ++ rest) with (String "}" rest).
    rewrite skip_ws_nl.
    set (body := join_sep (print_prop (S (S n))) (item_sep (S (S n)))
                   (kv :: m)
                 ++ String newline (spaces n ++ String "}" rest)).
    assert (Hs : starts_value body = true).
    { unfold body. destruct m; reflexivity. }
    rewrite (skip_ws_starts _ Hs).
    destruct body as [|c' r'] eqn:Ej; [discriminate|].
    simpl in Hs. apply andb_true_iff in Hs as [_ Hs].
    apply negb_true_iff in Hs.
    rewrite Hs. rewrite <- Ej.
    rewrite (parse_props_skip fuel _ body _ (skip_ws_nl _ _)).
    unfold body.
    rewrite parse_props_indent; try assumption;
      [reflexivity | discriminate | reflexivity | simpl; lia].
Qed.

End RoundTrip.

Lemma item_sep_length n : 1 <= String.length (item_sep n).
Proof. simpl. lia. Qed.

Lemma need_le_length_indent (v : json) :
  forall n, need v <= String.length (stringify_indent n v).
Proof.
  induction v as [|b|z|s|l IH|m IH] using json_induction; intros n;
    try exact (need_le_length _).
  - destruct l as [|x l]; [exact (need_le_length (JArr []))|].
    rewrite stringify_indent_arr.
    cbn [String.length need]. rewrite !slength_app.
    enough (list_sum (map (fun x => S (need x)) (x :: l))
            <= S (String.length
                    (join_sep (stringify_indent (S (S n)))
                       (item_sep (S (S n))) (x :: l)))) by lia.
    generalize (S (S n)). intros k.
    induction IH as [|v l' Hv Hl IHl]; [simpl; lia|].
    destruct l' as [|v' l''].
    + specialize (Hv k). simpl in *. lia.
    + rewrite join_sep_cons, !slength_app.
      specialize (Hv k). assert (Hsep := item_sep_length k).
      simpl map in *. simpl list_sum in *. lia.
  - destruct m as [|kv m]; [exact (need_le_length (JObj []))|].
    rewrite stringify_indent_obj.
    cbn [String.length need]. rewrite !slength_app.
    enough (list_sum (map (fun kv => S (need (snd kv))) (kv :: m))
            <= S (String.length
                    (join_sep (print_prop (S (S n)))
                       (item_sep (S (S n))) (kv :: m)))) by lia.
    generalize (S (S n)). intros k.
    induction IH as [|p l' Hv Hl IHl]; [simpl; lia|].
    destruct l' as [|p' l''].
    + specialize (Hv k). unfold join_sep, print_prop.
      rewrite !slength_app. simpl in *. lia.
    + rewrite join_sep_cons, !slength_app.
      specialize (Hv k). assert (Hsep := item_sep_length k).
      unfold print_prop at 1. rewrite !slength_app.
      simpl map in *. simpl list_sum in *. lia.
Qed.

(** [JSON.parse(JSON.stringify(v, null, 2))] is [v]. *)
Theorem parse_stringify_indent (v : json) :
  wf v = true -> JSON.parse (stringify_indent 0 v) = Some v.
Proof.
  intros Hwf. unfold JSON.parse.
  rewrite <- (sapp_nil_r (stringify_indent 0 v)) at 2.
  rewrite (parse_value_indent v Hwf 0 _ "" (need_le_length_indent v 0) I).
  reflexivity.
Qed.

End PrettyFacts.

(** ** Document ids, addresses and keys *)

Lemma take_id_all s : all_id_chars (take_id s) = true.
Proof.
  induction s as [|c r IH]; [reflexivity|]. cbn [take_id].
  destruct (is_id_char c) eqn:E; [|reflexivity].
  cbn [all_id_chars]. now rewrite E.
Qed.

Lemma take_id_prefix s : exists r, s = take_id s ++ r.
Proof.
  induction s as [|c s IH]; [now exists ""|]. cbn [take_id].
  destruct (is_id_char c); [|now exists (String c s)].
  destruct IH as (r & E). exists r. cbn [append]. now rewrite <- E.
Qed.

Lemma strip_prefix_app_l a b s r :
  strip_prefix (a ++ b) s = Some r ->
  exists r', strip_prefix a s = Some r' /\ strip_prefix b r' = Some r.
Proof.
  revert s; induction a as [|x a IH]; intros s H; simpl in *.
  - eauto.
  - destruct s as [|y s]; [discriminate|].
    destruct (Ascii.eqb x y); [apply IH; exact H | discriminate].
Qed.

Lemma str_includes_here hay needle r :
  strip_prefix needle hay = Some r -> str_includes hay needle = true.
Proof. intros H. destruct hay; simpl; now rewrite H. Qed.

Lemma str_includes_cons c hay needle :
  str_includes hay needle = true -> str_includes (String c hay) needle = true.
Proof.
  intros H. simpl. now destruct (strip_prefix needle (String c hay)).
Qed.

Lemma str_includes_cons_inv c hay needle :
  str_includes (String c hay) needle = false ->
  strip_prefix needle (String c hay) = None
  /\ str_includes hay needle = false.
Proof.
  simpl. destruct (strip_prefix needle (String c hay)); [discriminate|auto].
Qed.

Lemma match_document_id_eq url :
  match_document_id url
  = match strip_prefix id_marker url with
    | Some rest =>
        match take_id rest with
        | EmptyString =>
            match url with
            | String _ r => match_document_id r
            | EmptyString => None
            end
        | id => Some id
        end
    | None =>
        match url with
        | String _ r => match_document_id r
        | EmptyString => None
        end
    end.
Proof. destruct url; reflexivity. Qed.

(** An id is found exactly where the address has the marker followed by an
    id character, and it is never empty. *)
Lemma match_document_id_some url id :
  match_document_id url = Some id ->
  id <> "" /\ all_id_chars id = true
  /\ str_includes url (id_marker ++ id) = true.
Proof.
  induction url as [|c url IH]; intros H; rewrite match_document_id_eq in H.
  - simpl in H. discriminate.
  - destruct (strip_prefix id_marker (String c url)) as [rest|] eqn:E.
    + destruct (take_id rest) as [|c' id'] eqn:Et.
      * destruct (IH H) as (H1 & H2 & H3).
        repeat split; try assumption. now apply str_includes_cons.
      * inversion H; subst. split; [discriminate|].
        split; [rewrite <- Et; apply take_id_all|].
        destruct (take_id_prefix rest) as (r & Er). rewrite Et in Er.
        apply strip_prefix_spec in E.
        apply (str_includes_here _ _ r). rewrite E, Er.
        rewrite <- sapp_assoc. apply strip_prefix_app.
    + destruct (IH H) as (H1 & H2 & H3).
      repeat split; try assumption. now apply str_includes_cons.
Qed.

Lemma match_document_id_none url :
  match_document_id url = None ->
  forall c, is_id_char c = true ->
            str_includes url (id_marker ++ String c "") = false.
Proof.
  induction url as [|c0 url IH]; intros H c Hc; [reflexivity|].
  rewrite match_document_id_eq in H.
  assert (Hhere : strip_prefix (id_marker ++ String c "") (String c0 url) = None).
  { destruct (strip_prefix (id_marker ++ String c "") (String c0 url)) eqn:E;
      [|reflexivity].
    apply strip_prefix_app_l in E as (r' & E1 & E2).
    rewrite E1 in H. destruct r' as [|c' r'']; [discriminate|].
    simpl in E2. destruct (Ascii.eqb_spec c c'); [subst|discriminate].
    simpl in H. rewrite Hc in H. discriminate. }
  assert (Hnext : match_document_id url = None).
  { destruct (strip_prefix id_marker (String c0 url)) as [rest|];
      [destruct (take_id rest); [exact H | discriminate] | exact H]. }
  change (str_includes (String c0 url) (id_marker ++ String c ""))
    with (match strip_prefix (id_marker ++ String c "") (String c0 url) with
          | Some _ => true
          | None => str_includes url (id_marker ++ String c "")
          end).
  rewrite Hhere. now apply IH.
Qed.

(** X1: the id [getDocumentIdFromUrl] and [getDocumentId] extract is never
    empty, is made of id characters only and stands in the address right
    after [/document/d/]; and [null] is returned only for an address in
    which [/document/d/] is nowhere followed by an id character. *)
Theorem document_id_extracted (url : string) :
  getDocumentId url = match_document_id url
  /\ match getDocumentIdFromUrl (JStr url) with
     | Normal (Some id) =>
         id <> "" /\ all_id_chars id = true
         /\ str_includes url (id_marker ++ id) = true
     | Normal None =>
         forall c, is_id_char c = true ->
                   str_includes url (id_marker ++ String c "") = false
     | Throw _ => False
     end.
Proof.
  split; [reflexivity|]. cbn [getDocumentIdFromUrl].
  destruct (match_document_id url) as [id|] eqn:E.
  - now apply match_document_id_some.
  - now apply match_document_id_none.
Qed.

Lemma take_id_app id r :
  all_id_chars id = true ->
  match r with String c _ => is_id_char c = false | EmptyString => True end ->
  take_id (id ++ r) = id.
Proof.
  intros H Hr. induction id as [|c id IH].
  - destruct r as [|c r]; [reflexivity|]. cbn [append take_id]. now rewrite Hr.
  - cbn [all_id_chars] in H. apply andb_true_iff in H as [H1 H2].
    cbn [append take_id]. rewrite H1. f_equal. now apply IH.
Qed.

Lemma match_document_id_skip c r :
  strip_prefix id_marker (String c r) = None ->
  match_document_id (String c r) = match_document_id r.
Proof. intros H. now rewrite match_document_id_eq, H. Qed.

Lemma derived_url_id id :
  id <> "" -> all_id_chars id = true ->
  match_document_id (derived_url id) = Some id.
Proof.
  intros Hne Hid. unfold derived_url. cbn [append].
  repeat (rewrite match_document_id_skip by reflexivity).
  rewrite match_document_id_eq.
  change (strip_prefix id_marker
            (String "/" (String "d" (String "o" (String "c" (String "u"
              (String "m" (String "e" (String "n" (String "t" (String "/"
                (String "d" (String "/" (id ++ "/edit"))))))))))))))
    with (Some (id ++ "/edit")).
  cbv iota. rewrite take_id_app by (exact Hid || reflexivity).
  destruct id; [contradiction | reflexivity].
Qed.

(** X2: the address derived from a document id leads back to that id, and
    the key built from an id gives the id back to the scan, so the record
    the scan shows with a derived address is the one an import of that
    address merges into. *)
Theorem id_round_trips (id : string) (st : State) :
  id <> "" -> all_id_chars id = true ->
  getDocumentIdFromUrl (JStr (derived_url id)) = Normal (Some id)
  /\ getStorageKey (Some id) st = (st, Normal ("gd-labels-" ++ id))
  /\ strip_prefix "gd-labels-" ("gd-labels-" ++ id) = Some id
  /\ exists fresh,
       entry_target (JObj [("title", JStr "Untitled");
                           ("url", JStr (derived_url id))])
       = Normal (Some ("gd-labels-" ++ id, fresh)).
Proof.
  intros Hne Hid.
  assert (E := derived_url_id id Hne Hid).
  split; [cbn [getDocumentIdFromUrl]; now rewrite E|].
  split; [destruct id; [contradiction | reflexivity]|].
  split; [apply strip_prefix_app|].
  unfold entry_target. cbn [get_prop obj_get String.eqb Ascii.eqb Bool.eqb].
  assert (Ht : truthy (JStr (derived_url id)) = true) by reflexivity.
  rewrite Ht. cbn [negb getDocumentIdFromUrl]. rewrite E.
  destruct id; [contradiction|]. eexists. reflexivity.
Qed.

(** ** Saving, loading and checking *)

(** X3: [saveLabels] never throws and never touches the labels in memory;
    without a document id, or when the storage refuses the write, it
    changes nothing at all: the last known snapshot is not advanced. *)
Theorem saveLabels_silent (st : State) :
  let st' := fst (saveLabels st) in
  snd (saveLabels st) = Normal tt
  /\ labels st' = labels st
  /\ refreshes st' = refreshes st
  /\ (no_id (documentId st) = true -> st' = st)
  /\ (localStorage.setItem (storage st) (active_key st) (saved_text st) = None
      -> st' = st).
Proof.
  rewrite saveLabels_eq. cbn [fst snd].
  split; [reflexivity|].
  destruct (no_id (documentId st)); [repeat split|].
  destruct (localStorage.setItem _ _ _); repeat split; discriminate.
Qed.

Lemma saved_text_record st :
  saved_text st
  = encode (labels st)
      (if String.eqb (pageTitle st) "" then "Untitled" else pageTitle st)
      (href st).
Proof. reflexivity. Qed.

Lemma encode_present lbls title url :
  present (Some (encode lbls title url)) = Some (encode lbls title url).
Proof. reflexivity. Qed.

Lemma parse_labels_encode l title url :
  wf (JArr l) = true ->
  parse_labels (encode (JArr l) title url) = Normal (JArr l).
Proof.
  intros H. unfold parse_labels. rewrite parse_encode by exact H. reflexivity.
Qed.

(** X4: what [saveLabels] stores, [loadLabels] reads back: after a save
    that the storage accepted, a load restores the same label list, in the
    same order, whatever the labels in memory have become in between, and
    sets the last known snapshot to it. *)
Theorem save_then_load (st : State) (l : list json) (ls : localStorage.t)
    (other : json) :
  labels st = JArr l -> wf (JArr l) = true ->
  no_id (documentId st) = false ->
  localStorage.setItem (storage st) (active_key st) (saved_text st) = Some ls ->
  let st1 := set_labels other (fst (saveLabels st)) in
  labels (fst (loadLabels st1)) = JArr l
  /\ lastKnownLabelsJson (fst (loadLabels st1)) = JSON.stringify (JArr l)
  /\ storage (fst (loadLabels st1)) = ls.
Proof.
  intros Hl Hw Hid Hs st1. subst st1.
  rewrite (saveLabels_written st ls Hid Hs). cbn [fst].
  rewrite loadLabels_eq.
  cbn [fst documentId storage set_labels set_lastKnownLabelsJson set_storage].
  rewrite Hid.
  change (active_key (set_labels other _)) with (active_key st).
  assert (Hg : localStorage.getItem ls (active_key st) = Some (saved_text st))
    by (eapply setItem_get; eassumption).
  rewrite !Hg, saved_text_record, Hl, !encode_present.
  rewrite !parse_labels_encode by exact Hw.
  repeat split.
Qed.

(** X5: with a document id, [loadLabels] leaves the last known snapshot
    equal to the text of the labels it leaves in memory, also when the
    stored value is malformed or absent; it never throws, and without a
    document id it does nothing. *)
Theorem loadLabels_synced (st : State) :
  let st' := fst (loadLabels st) in
  snd (loadLabels st) = Normal tt
  /\ (no_id (documentId st) = false ->
      lastKnownLabelsJson st' = JSON.stringify (labels st'))
  /\ (no_id (documentId st) = true -> st' = st)
  /\ (present (localStorage.getItem (storage st) (active_key st)) = None ->
      labels st' = labels st).
Proof.
  rewrite loadLabels_eq. cbn [fst snd]. split; [reflexivity|].
  destruct (no_id (documentId st)).
  - repeat split. discriminate.
  - destruct (present _) as [s|].
    + destruct (parse_labels s); repeat split; discriminate.
    + repeat split. discriminate.
Qed.

(** X6: the check is idempotent: a second check right after a first one
    changes nothing and refreshes nothing, whatever the first one did. *)
Theorem check_idempotent (st : State) :
  let st1 := fst (checkAndReloadLabels st) in
  checkAndReloadLabels st1 = (st1, Normal tt).
Proof.
  cbv zeta. rewrite (checkAndReloadLabels_eq st). cbn [fst].
  destruct (no_id (documentId st)) eqn:Hid.
  - rewrite checkAndReloadLabels_eq, Hid. reflexivity.
  - destruct (current_labels _) as [cur|e] eqn:Hc.
    + destruct (negb _) eqn:Hn.
      * rewrite checkAndReloadLabels_eq.
        cbn [documentId storage lastKnownLabelsJson set_refreshes
               set_lastKnownLabelsJson set_labels].
        rewrite Hid.
        change (active_key (set_refreshes _ _)) with (active_key st).
        rewrite Hc, String.eqb_refl. reflexivity.
      * rewrite checkAndReloadLabels_eq, Hid, Hc, Hn. reflexivity.
    + rewrite checkAndReloadLabels_eq, Hid, Hc. reflexivity.
Qed.

(** X7: a check right after a load is silent: when a value is stored for
    the active document, or the labels in memory are empty, it changes
    nothing and refreshes nothing. *)
Theorem check_after_load (st : State) :
  (present (localStorage.getItem (storage st) (active_key st)) = None ->
   labels st = JArr []) ->
  let st1 := fst (loadLabels st) in
  checkAndReloadLabels st1 = (st1, Normal tt).
Proof.
  intros H. cbv zeta. rewrite (loadLabels_eq st). cbn [fst].
  destruct (no_id (documentId st)) eqn:Hid.
  - rewrite checkAndReloadLabels_eq, Hid. reflexivity.
  - unfold current_labels in *.
    destruct (present _) as [s|] eqn:Hp.
    + destruct (parse_labels s) as [lbls|e] eqn:Hl;
        rewrite checkAndReloadLabels_eq;
        cbn [documentId storage lastKnownLabelsJson
               set_lastKnownLabelsJson set_labels];
        rewrite Hid;
        change (active_key (set_lastKnownLabelsJson _ _)) with (active_key st);
        unfold current_labels; rewrite Hp, Hl; [|reflexivity].
      now rewrite String.eqb_refl.
    + rewrite checkAndReloadLabels_eq.
      cbn [documentId storage lastKnownLabelsJson set_lastKnownLabelsJson].
      rewrite Hid.
      change (active_key (set_lastKnownLabelsJson _ _)) with (active_key st).
      unfold current_labels. rewrite Hp, (H eq_refl). reflexivity.
Qed.

(** ** The scan *)

Lemma In_documents_with labelName st e :
  In e (documents_with labelName st)
  <-> exists key,
        In key (localStorage.keys (storage st))
        /\ listing labelName (documentId st) key
             (localStorage.getItem (storage st) key) = Some e.
Proof.
  unfold documents_with. rewrite findDocumentsWithLabel_eq. cbn [snd].
  rewrite in_flat_map. split.
  - intros (key & Hk & He). exists key. split; [exact Hk|].
    destruct (listing _ _ _ _) as [d|]; [|contradiction].
    destruct He as [->|[]]. reflexivity.
  - intros (key & Hk & He). exists key. split; [exact Hk|].
    rewrite He. now left.
Qed.

Lemma listing_some labelName c key saved e :
  listing labelName c key saved = Some e
  <-> exists docId s lbls t u,
        key = "gd-labels-" ++ docId /\ saved = Some s
        /\ decode_stored docId s = Normal (lbls, t, u)
        /\ value_includes (Some lbls) labelName = Normal true
        /\ e = scan_entry c docId t u.
Proof.
  unfold listing, decode_stored, scan_entry. split.
  - destruct (strip_prefix "gd-labels-" key) as [docId|] eqn:Ek; [|discriminate].
    apply strip_prefix_spec in Ek.
    destruct saved as [s|]; cbn [JSON_parse_item]; [|discriminate].
    destruct (JSON_parse s) as [data|] eqn:Ep; [|discriminate].
    destruct (decode docId data) as [[[lbls t] u]|] eqn:Ed; [|discriminate].
    destruct (value_includes (Some lbls) labelName) as [[|]|] eqn:Ei;
      try discriminate.
    intros H. injection H as <-. exists docId, s, lbls, t, u.
    rewrite Ep. repeat split; assumption.
  - intros (docId & s & lbls & t & u & -> & -> & Hd & Hi & ->).
    rewrite strip_prefix_app. cbn [JSON_parse_item].
    destruct (JSON_parse s) as [data|]; [|discriminate].
    now rewrite Hd, Hi.
Qed.

Lemma documents_with_spec labelName st e :
  In e (documents_with labelName st)
  <-> exists docId s lbls t u,
        In ("gd-labels-" ++ docId) (localStorage.keys (storage st))
        /\ localStorage.getItem (storage st) ("gd-labels-" ++ docId) = Some s
        /\ decode_stored docId s = Normal (lbls, t, u)
        /\ value_includes (Some lbls) labelName = Normal true
        /\ e = scan_entry (documentId st) docId t u.
Proof.
  split.
  - intros He. apply In_documents_with in He as (key & Hk & Hl).
    apply listing_some in Hl
      as (docId & s & lbls & t & u & -> & Hs & Hd & Hi & ->).
    exists docId, s, lbls, t, u. repeat split; assumption.
  - intros (docId & s & lbls & t & u & Hk & Hs & Hd & Hi & ->).
    apply In_documents_with.
    exists ("gd-labels-" ++ docId). split; [exact Hk|].
    apply listing_some. exists docId, s, lbls, t, u.
    repeat split; assumption.
Qed.

(** X8: [findDocumentsWithLabel] never throws and lists exactly the
    documents with a stored key [gd-labels-<id>] whose stored value parses
    and whose labels include the label; each entry carries the id of the
    key, the decoded title and address, and [isCurrent] is true exactly
    for the active document.  A key without the prefix, an unparsable
    value or a value that decodes with an error yields no entry and does
    not disturb the others. *)
Theorem scan_lists_exactly (labelName : json) (st : State) (e : json) :
  (exists docs, snd (findDocumentsWithLabel labelName st) = Normal docs)
  /\ (In e (documents_with labelName st)
      <-> exists docId s lbls t u,
            In ("gd-labels-" ++ docId) (localStorage.keys (storage st))
            /\ localStorage.getItem (storage st) ("gd-labels-" ++ docId)
               = Some s
            /\ decode_stored docId s = Normal (lbls, t, u)
            /\ value_includes (Some lbls) labelName = Normal true
            /\ e = scan_entry (documentId st) docId t u).
Proof.
  split; [rewrite findDocumentsWithLabel_eq; cbn [snd]; eauto|].
  apply documents_with_spec.
Qed.

Lemma setItem_keys ls k v ls' :
  localStorage.setItem ls k v = Some ls' -> In k (localStorage.keys ls').
Proof.
  unfold localStorage.setItem. intros H.
  destruct (Nat.leb _ _); inversion H; subst. unfold localStorage.keys.
  cbn [localStorage.items]. rewrite keys_update.
  destruct (existsb _ _) eqn:E.
  - now apply existsb_eqb_In.
  - apply in_or_app. right. now left.
Qed.

(** X9: what [saveLabels] stores, the scan finds: after a save the storage
    accepted, the active document is listed for a label exactly when its
    labels include it, with the title of the page, its address and
    [isCurrent] true. *)
Theorem saved_document_listed (st : State) (d : string) (l : list json)
    (ls : localStorage.t) (labelName : json) :
  documentId st = Some d -> d <> "" ->
  labels st = JArr l -> wf (JArr l) = true -> href st <> "" ->
  localStorage.setItem (storage st) (active_key st) (saved_text st) = Some ls ->
  let st' := fst (saveLabels st) in
  let title := if String.eqb (pageTitle st) "" then "Untitled"
               else pageTitle st in
  (array_includes l labelName = true ->
   In (JObj [("id", JStr d); ("title", JStr title); ("url", JStr (href st));
             ("isCurrent", JBool true)])
      (documents_with labelName st'))
  /\ (array_includes l labelName = false ->
      forall e, In e (documents_with labelName st') ->
                get_prop e "id" <> Normal (Some (JStr d))).
Proof.
  intros Hd Hne Hl Hw Hh Hs st' title.
  assert (Hid : no_id (documentId st) = false)
    by (rewrite Hd; destruct d; [contradiction | reflexivity]).
  assert (Hkey : active_key st = "gd-labels-" ++ d)
    by (unfold active_key; now rewrite Hd).
  assert (Hst : storage st' = ls /\ documentId st' = Some d).
  { subst st'. rewrite (saveLabels_written st ls Hid Hs). now split. }
  destruct Hst as (Hst & Hd').
  assert (Hg : localStorage.getItem ls ("gd-labels-" ++ d) = Some (saved_text st))
    by (rewrite <- Hkey; eapply setItem_get; eassumption).
  assert (Hdec : decode_stored d (saved_text st)
                 = Normal (JArr l, JStr title, JStr (href st))).
  { rewrite saved_text_record, Hl. unfold decode_stored.
    rewrite parse_encode by exact Hw. unfold decode, record. simpl.
    fold title.
    assert (Ht : title <> "").
    { unfold title. destruct (String.eqb_spec (pageTitle st) "");
        [discriminate | assumption]. }
    destruct (String.eqb_spec title ""); [contradiction|].
    destruct (String.eqb_spec (href st) ""); [contradiction|]. reflexivity. }
  split.
  - intros Hi. apply (documents_with_spec labelName st').
    exists d, (saved_text st), (JArr l), (JStr title), (JStr (href st)).
    rewrite Hst, Hd'. repeat split; try assumption.
    + rewrite <- Hkey. eapply setItem_keys; eassumption.
    + cbn [value_includes]. now rewrite Hi.
    + unfold scan_entry. now rewrite String.eqb_refl.
  - intros Hi e He Hid'.
    apply (documents_with_spec labelName st') in He
      as (docId & s & lbls & t & u & _ & Hs' & Hd'' & Hi' & ->).
    unfold scan_entry in Hid'. cbn in Hid'. injection Hid' as ->.
    rewrite Hst, Hg in Hs'. injection Hs' as <-.
    rewrite Hdec in Hd''. injection Hd'' as <- _ _.
    cbn [value_includes] in Hi'. congruence.
Qed.

(** ** Building the section, and the timer that follows *)

Lemma createLabelsSection_eq st :
  createLabelsSection st
  = (let s2 := fst (loadLabels (set_mounted true st)) in
     (set_refreshes (S (refreshes s2)) s2,
      if displayable (labels s2) then Normal tt else Throw TypeError)).
Proof.
  unfold createLabelsSection. rewrite bind_modify. unfold bind.
  assert (Hn := loadLabels_normal (set_mounted true st)).
  destruct (loadLabels_frame (set_mounted true st)) as (_ & _ & Hm & _).
  destruct (loadLabels (set_mounted true st)) as [s2 c].
  cbn [fst snd] in *. subst c. rewrite updateLabelsDisplay_eq, Hm.
  reflexivity.
Qed.

(** X10: a legacy value, the bare array, stored for the active document is
    upgraded without loss: building the section loads the array as the
    labels, and the save of the timer, when the storage accepts it,
    replaces the stored array by the record [{labels, title, url}] with
    the same labels in the same order. *)
Theorem legacy_upgraded (st : State) (s : string) (l : list json)
    (ls : localStorage.t) :
  no_id (documentId st) = false ->
  present (localStorage.getItem (storage st) (active_key st)) = Some s ->
  JSON.parse s = Some (JArr l) ->
  let title := if String.eqb (pageTitle st) "" then "Untitled"
               else pageTitle st in
  localStorage.setItem (storage st) (active_key st)
    (encode (JArr l) title (href st)) = Some ls ->
  let st1 := fst (createLabelsSection st) in
  let st2 := fst (onTitleTimer st1) in
  createLabelsSection st = (st1, Normal tt)
  /\ labels st1 = JArr l
  /\ storage st1 = storage st
  /\ localStorage.getItem (storage st2) (active_key st)
     = Some (encode (JArr l) title (href st))
  /\ parse_labels (encode (JArr l) title (href st)) = Normal (JArr l)
  /\ labels st2 = JArr l.
Proof.
  intros Hid Hp Hparse title Hs st1 st2.
  assert (Hw : wf (JArr l) = true) by (eapply parse_wf; eassumption).
  assert (Hpl : parse_labels s = Normal (JArr l)).
  { unfold parse_labels, JSON_parse. now rewrite Hparse. }
  assert (E1 : fst (loadLabels (set_mounted true st))
               = set_lastKnownLabelsJson (JSON.stringify (JArr l))
                   (set_labels (JArr l) (set_mounted true st))).
  { rewrite loadLabels_eq. cbn [fst documentId storage set_mounted].
    change (active_key (set_mounted true st)) with (active_key st).
    now rewrite Hid, Hp, Hpl. }
  assert (Est1 : createLabelsSection st
                 = (set_refreshes (S (refreshes st))
                      (set_lastKnownLabelsJson (JSON.stringify (JArr l))
                         (set_labels (JArr l) (set_mounted true st))),
                    Normal tt)).
  { rewrite createLabelsSection_eq. cbv zeta. rewrite E1. reflexivity. }
  subst st2 st1. rewrite Est1. cbn [fst].
  split; [reflexivity|]. split; [reflexivity|]. split; [reflexivity|].
  unfold onTitleTimer.
  set (s1 := set_refreshes _ _).
  assert (Hs1 : localStorage.setItem (storage s1) (active_key s1) (saved_text s1)
                = Some ls) by exact Hs.
  rewrite (saveLabels_written s1 ls Hid Hs1). cbn [fst].
  split; [| split; [now apply parse_labels_encode | reflexivity]].
  cbn [storage set_lastKnownLabelsJson set_storage].
  eapply setItem_get. exact Hs.
Qed.

(** X11: a stored value that cannot be read is not kept: building the
    section falls back to the empty list, and the save of the timer, when
    the storage accepts it, replaces the stored text by the record of the
    empty list. *)
Theorem unreadable_overwritten (st : State) (s : string) (e : exn)
    (ls : localStorage.t) :
  no_id (documentId st) = false ->
  present (localStorage.getItem (storage st) (active_key st)) = Some s ->
  parse_labels s = Throw e ->
  let title := if String.eqb (pageTitle st) "" then "Untitled"
               else pageTitle st in
  localStorage.setItem (storage st) (active_key st)
    (encode (JArr []) title (href st)) = Some ls ->
  let st1 := fst (createLabelsSection st) in
  let st2 := fst (onTitleTimer st1) in
  createLabelsSection st = (st1, Normal tt)
  /\ labels st1 = JArr []
  /\ localStorage.getItem (storage st1) (active_key st) = Some s
  /\ localStorage.getItem (storage st2) (active_key st)
     = Some (encode (JArr []) title (href st)).
Proof.
  intros Hid Hp Hpl title Hs st1 st2.
  assert (E1 : fst (loadLabels (set_mounted true st))
               = set_lastKnownLabelsJson "[]"
                   (set_labels (JArr []) (set_mounted true st))).
  { rewrite loadLabels_eq. cbn [fst documentId storage set_mounted].
    change (active_key (set_mounted true st)) with (active_key st).
    now rewrite Hid, Hp, Hpl. }
  assert (Est1 : createLabelsSection st
                 = (set_refreshes (S (refreshes st))
                      (set_lastKnownLabelsJson "[]"
                         (set_labels (JArr []) (set_mounted true st))),
                    Normal tt)).
  { rewrite createLabelsSection_eq. cbv zeta. rewrite E1. reflexivity. }
  subst st2 st1. rewrite Est1. cbn [fst].
  split; [reflexivity|]. split; [reflexivity|].
  split.
  { cbn [storage set_refreshes set_lastKnownLabelsJson set_labels set_mounted].
    unfold present in Hp.
    destruct (localStorage.getItem (storage st) (active_key st)) as [[|c r]|];
      try discriminate. congruence. }
  unfold onTitleTimer.
  set (s1 := set_refreshes _ _).
  assert (Hs1 : localStorage.setItem (storage s1) (active_key s1) (saved_text s1)
                = Some ls) by exact Hs.
  rewrite (saveLabels_written s1 ls Hid Hs1). cbn [fst].
  cbn [storage set_lastKnownLabelsJson set_storage].
  eapply setItem_get. exact Hs.
Qed.

(** ** Adding, removing and moving labels *)

Lemma trim_start_spec s :
  exists a, s = a ++ trim_start s /\ all_space a = true
            /\ starts_with_space (trim_start s) = false.
Proof.
  induction s as [|c s IH]; [now exists ""|]. cbn [trim_start].
  destruct (is_space c) eqn:E.
  - destruct IH as (a & Ha & Hs & Hh). exists (String c a).
    cbn [append all_space]. rewrite E, Hs. repeat split; [congruence|exact Hh].
  - exists "". repeat split. exact E.
Qed.

Lemma trim_end_spec s :
  exists b, s = trim_end s ++ b /\ all_space b = true
            /\ ends_with_space (trim_end s) = false.
Proof.
  induction s as [|c s IH]; [now exists ""|].
  destruct IH as (b & Hb & Hs & He). cbn [trim_end].
  destruct (trim_end s) as [|c' r'] eqn:Et.
  - destruct (is_space c) eqn:E.
    + exists (String c b). cbn [append all_space] in *. rewrite E, Hs.
      repeat split. congruence.
    + exists b. cbn [append] in *. repeat split; [congruence|exact Hs|exact E].
  - exists b. cbn [append] in *. repeat split; [congruence|exact Hs|exact He].
Qed.

Lemma trim_end_head s :
  starts_with_space s = false -> starts_with_space (trim_end s) = false.
Proof.
  destruct s as [|c s]; [reflexivity|]. cbn [starts_with_space trim_end].
  intros H. destruct (trim_end s); [rewrite H|]; exact H || reflexivity.
Qed.

Lemma trim_spec t :
  exists a b, t = a ++ trim t ++ b /\ all_space a = true /\ all_space b = true
              /\ starts_with_space (trim t) = false
              /\ ends_with_space (trim t) = false.
Proof.
  unfold trim.
  destruct (trim_start_spec t) as (a & Ha & Hsa & Hh).
  destruct (trim_end_spec (trim_start t)) as (b & Hb & Hsb & He).
  exists a, b. repeat split; try assumption.
  - now rewrite <- Hb.
  - now apply trim_end_head.
Qed.

Lemma all_space_trim t : all_space t = true <-> trim t = "".
Proof.
  destruct (trim_spec t) as (a & b & Ht & Ha & Hb & Hs & He).
  split.
  - intros Hsp. destruct (trim t) as [|c r] eqn:E; [reflexivity|].
    exfalso. rewrite Ht in Hsp.
    assert (Hc : is_space c = true).
    { clear - Hsp. induction a as [|c0 a IH]; cbn [append all_space] in Hsp.
      - now apply andb_true_iff in Hsp as [? _].
      - apply andb_true_iff in Hsp as [_ ?]. now apply IH. }
    cbn [starts_with_space] in Hs. congruence.
  - intros E. rewrite Ht, E. cbn [append]. clear - Ha Hb.
    induction a as [|c a IH]; cbn [append all_space] in *; [exact Hb|].
    apply andb_true_iff in Ha as [-> Ha]. now apply IH.
Qed.

Lemma addLabel_eq st l t :
  labels st = JArr l ->
  addLabel t st
  = if String.eqb (trim t) "" then (st, Normal tt)
    else (set_refreshes (S (refreshes st))
            (fst (saveLabels (set_labels (JArr (l ++ [JStr (trim t)])) st))),
          Normal tt).
Proof.
  intros H. unfold addLabel.
  destruct (String.eqb_spec t "") as [->|Hne]; [reflexivity|].
  destruct (String.eqb (trim t) ""); [reflexivity|]. cbn [negb andb].
  rewrite bind_get, H, bind_modify.
  now rewrite (persist_refresh _ (l ++ [JStr (trim t)])).
Qed.

(** X12: [addLabel] ignores a text that is empty or white space only: no
    label, no write, no refresh.  Any other text is appended at the end of
    the list, after the labels already there and also when it is among
    them, without the white space around it; the list is then saved and
    the display refreshed once. *)
Theorem addLabel_spec (st : State) (l : list json) (t : string) :
  labels st = JArr l ->
  (all_space t = true -> addLabel t st = (st, Normal tt))
  /\ (all_space t = false ->
      exists a x b,
        t = a ++ x ++ b /\ all_space a = true /\ all_space b = true
        /\ x <> "" /\ starts_with_space x = false
        /\ ends_with_space x = false
        /\ snd (addLabel t st) = Normal tt
        /\ labels (fst (addLabel t st)) = JArr (l ++ [JStr x])
        /\ refreshes (fst (addLabel t st)) = S (refreshes st)
        /\ fst (addLabel t st)
           = set_refreshes (S (refreshes st))
               (fst (saveLabels (set_labels (JArr (l ++ [JStr x])) st)))).
Proof.
  intros H. rewrite (addLabel_eq st l t H).
  destruct (trim_spec t) as (a & b & Ht & Ha & Hb & Hs & He).
  assert (Hall := all_space_trim t).
  split.
  - intros Hsp. apply Hall in Hsp. now rewrite Hsp.
  - intros Hsp. destruct (String.eqb_spec (trim t) "") as [E|E].
    + apply Hall in E. congruence.
    + exists a, (trim t), b. cbn [fst snd].
      repeat split; try assumption.
      cbn [labels set_refreshes]. now rewrite saveLabels_labels.
Qed.

Lemma remove_at_last {A} (l : list A) (x : A) :
  remove_at (length l) (l ++ [x]) = l.
Proof.
  unfold remove_at. rewrite firstn_app, Nat.sub_diag, firstn_all.
  rewrite skipn_all2 by (rewrite length_app; simpl; lia).
  simpl. now rewrite !app_nil_r.
Qed.

(** X13: adding a label, from a text that is not white space only, and
    then removing the last row gives back the label list as it was. *)
Theorem add_then_remove (st : State) (l : list json) (t : string) :
  labels st = JArr l -> all_space t = false ->
  labels (fst ((addLabel t ;; removeLabel (Z.of_nat (length l))) st)) = JArr l
  /\ snd ((addLabel t ;; removeLabel (Z.of_nat (length l))) st) = Normal tt.
Proof.
  intros H Ht. unfold bind. rewrite (addLabel_eq st l t H).
  destruct (String.eqb_spec (trim t) "") as [E|E];
    [apply all_space_trim in E; congruence|].
  set (st1 := set_refreshes _ _).
  assert (Hl : labels st1 = JArr (l ++ [JStr (trim t)])).
  { unfold st1. cbn [labels set_refreshes]. now rewrite saveLabels_labels. }
  rewrite (removeLabel_eq st1 _ _ Hl). cbn [fst snd labels set_refreshes].
  rewrite saveLabels_labels. cbn [labels set_labels].
  split; [|reflexivity]. f_equal.
  rewrite splice_remove_in by (rewrite length_app; simpl; lia).
  rewrite Nat2Z.id. apply remove_at_last.
Qed.

Lemma nth_split_at {A} (i : nat) (l : list A) (d : A) :
  i < length l -> l = (firstn i l ++ nth i l d :: skipn (S i) l)%list.
Proof.
  revert i; induction l as [|x l IH]; intros i H; simpl in H; [lia|].
  destruct i as [|i]; [reflexivity|]. simpl. f_equal. apply IH. lia.
Qed.

Lemma insert_at_perm {A} (j : nat) (x : A) (l : list A) :
  Permutation (insert_at j x l) (x :: l).
Proof.
  unfold insert_at. symmetry.
  rewrite <- (firstn_skipn j l) at 1. apply Permutation_middle.
Qed.

Lemma remove_at_perm {A} (i : nat) (l : list A) (d : A) :
  i < length l -> Permutation (nth i l d :: remove_at i l) l.
Proof.
  intros H. unfold remove_at. rewrite (nth_split_at i l d H) at 4.
  apply Permutation_middle.
Qed.

Lemma splice_insert_any {A} (l : list A) (j : Z) (x : A) :
  splice l j 0 [x] = insert_at (splice_start (length l) j) x l.
Proof.
  unfold splice, insert_at. cbn [Nat.min]. now rewrite Nat.add_0_r.
Qed.

(** X14: a drop never loses and never duplicates a label: whatever row it
    lands on, and also for a target outside the list, moving the label of
    a row of the list leaves a permutation of the list, of the same
    length. *)
Theorem reorder_permutes (l : list json) (i j : Z) :
  (0 <= i < Z.of_nat (length l))%Z ->
  Permutation (reorder l i j) l /\ length (reorder l i j) = length l.
Proof.
  intros Hi. unfold reorder.
  rewrite array_get_in by lia. rewrite splice_remove_in by exact Hi.
  rewrite splice_insert_any.
  assert (Hp : Permutation
                 (insert_at (splice_start (length (remove_at (Z.to_nat i) l)) j)
                    (nth (Z.to_nat i) l JNull) (remove_at (Z.to_nat i) l)) l).
  { etransitivity; [apply insert_at_perm|]. apply remove_at_perm. lia. }
  split; [exact Hp | now apply Permutation_length].
Qed.

(** X15: a drop whose dragged index is no row of the list any more (the
    list was replaced by a shorter one during the drag) removes nothing
    and inserts an entry that is no label: [undefined], which the save
    writes as [null]. *)
Theorem stale_drag_inserts_null (st : State) (l : list json) (i j : Z) :
  labels st = JArr l -> draggedIndex st = Some i ->
  (Z.of_nat (length l) <= i)%Z -> (0 <= j < Z.of_nat (length l))%Z ->
  let st' := fst (onDrop j st) in
  labels st' = JArr (insert_at (Z.to_nat j) JNull l)
  /\ length (insert_at (Z.to_nat j) JNull l) = S (length l)
  /\ snd (onDrop j st) = Normal tt.
Proof.
  intros H Hd Hi Hj st'. subst st'.
  rewrite (onDrop_eq st l i j H Hd) by lia. cbn [fst snd labels set_refreshes].
  rewrite saveLabels_labels. cbn [labels set_labels].
  split; [|split; [apply insert_at_length | reflexivity]].
  f_equal. unfold reorder.
  rewrite splice_remove_past by exact Hi.
  rewrite splice_insert by lia. f_equal.
  unfold array_get. destruct (Z.ltb_spec i 0); [reflexivity|].
  apply nth_overflow. lia.
Qed.

(** ** Export, and the import of what was exported *)

Lemma or_default_wf x d :
  (forall v, x = Some v -> wf v = true) -> wf d = true ->
  wf (or_default x d) = true.
Proof.
  intros Hx Hd. unfold or_default. destruct x as [v|]; [|exact Hd].
  destruct (truthy v); [now apply Hx | exact Hd].
Qed.

Lemma decode_wf docId data l t u :
  wf data = true -> decode docId data = Normal (l, t, u) ->
  wf l = true /\ wf t = true /\ wf u = true.
Proof.
  unfold decode. intros Hw.
  destruct data as [|b|n|s|a|m]; cbn [isArray get_prop]; try discriminate;
    intros H; injection H as <- <- <-; try (repeat split; reflexivity).
  - repeat split; exact Hw.
  - repeat split; apply or_default_wf; try reflexivity;
      intros v Hv; eapply wf_obj_get; eassumption.
Qed.

Lemma decode_stored_wf docId s l t u :
  decode_stored docId s = Normal (l, t, u) ->
  wf l = true /\ wf t = true /\ wf u = true.
Proof.
  unfold decode_stored, JSON_parse.
  destruct (JSON.parse s) as [data|] eqn:E; [|discriminate].
  apply decode_wf. eapply parse_wf; eassumption.
Qed.

Lemma export_entries (docs : list json) :
  (forall e, In e docs ->
             exists c d t u, e = scan_entry c d t u
                             /\ wf t = true /\ wf u = true) ->
  exists entries,
    map_completion export_entry docs = Normal entries
    /\ forallb wf entries = true
    /\ Forall2 (fun e x =>
                  exists t u, get_prop e "title" = Normal (Some t)
                              /\ get_prop e "url" = Normal (Some u)
                              /\ x = JObj [("title", t); ("url", u)])
         docs entries.
Proof.
  induction docs as [|e docs IH]; intros H.
  - exists []. repeat split. constructor.
  - destruct IH as (entries & Hm & Hw & Hf);
      [intros e' He'; apply H; now right|].
    destruct (H e (or_introl eq_refl)) as (c & d & t & u & -> & Ht & Hu).
    exists (JObj [("title", t); ("url", u)] :: entries).
    cbn [map_completion]. rewrite Hm. repeat split.
    + cbn [forallb]. rewrite Hw. simpl. now rewrite Ht, Hu.
    + constructor; [|exact Hf]. exists t, u. repeat split.
Qed.

Lemma documents_with_wf labelName st e :
  In e (documents_with labelName st) ->
  exists c d t u, e = scan_entry c d t u /\ wf t = true /\ wf u = true.
Proof.
  intros He. apply In_documents_with in He as (key & _ & Hl).
  apply listing_some in Hl as (d & s & lbls & t & u & _ & _ & Hd & _ & ->).
  destruct (decode_stored_wf d s lbls t u Hd) as (_ & Ht & Hu).
  exists (documentId st), d, t, u. repeat split; assumption.
Qed.

Lemma exportLabel_eq labelName st :
  exists entries,
    exportLabel labelName st
    = (st, Normal (stringify_indent 0
                     (JObj [("label", labelName);
                            ("documents", JArr entries)])))
    /\ forallb wf entries = true
    /\ Forall2 (fun e x =>
                  exists t u, get_prop e "title" = Normal (Some t)
                              /\ get_prop e "url" = Normal (Some u)
                              /\ x = JObj [("title", t); ("url", u)])
         (documents_with labelName st) entries.
Proof.
  destruct (export_entries (documents_with labelName st)
              (documents_with_wf labelName st)) as (entries & Hm & Hw & Hf).
  exists entries. split; [|split; assumption].
  unfold exportLabel, bind. unfold documents_with in Hm.
  rewrite findDocumentsWithLabel_eq in *. cbn [snd] in Hm.
  unfold lift. rewrite Hm. reflexivity.
Qed.

Lemma export_parses labelName entries :
  wf labelName = true -> forallb wf entries = true ->
  JSON.parse
    (stringify_indent 0
       (JObj [("label", labelName); ("documents", JArr entries)]))
  = Some (JObj [("label", labelName); ("documents", JArr entries)]).
Proof.
  intros HwL Hw. apply PrettyFacts.parse_stringify_indent. simpl.
  now rewrite HwL, Hw.
Qed.

(** X16: for a label without duplicate keys (any string is one),
    [exportLabel] never throws and changes nothing; its text, two spaces of
    indentation per level, parses back to the object [{label, documents}]
    with one entry [{title, url}] for each document
    [findDocumentsWithLabel] lists, in the same order; for a label that is
    not falsy the text passes the check [importLabel] makes. *)
Theorem export_reads_back (labelName : json) (st : State) :
  wf labelName = true ->
  exists text entries,
    exportLabel labelName st = (st, Normal text)
    /\ JSON.parse text
       = Some (JObj [("label", labelName); ("documents", JArr entries)])
    /\ Forall2 (fun e x =>
                  exists t u, get_prop e "title" = Normal (Some t)
                              /\ get_prop e "url" = Normal (Some u)
                              /\ x = JObj [("title", t); ("url", u)])
         (documents_with labelName st) entries
    /\ (truthy labelName = true ->
        valid_payload text = Some (labelName, entries)).
Proof.
  intros HwL.
  destruct (exportLabel_eq labelName st) as (entries & He & Hw & Hf).
  assert (Hp := export_parses labelName entries HwL Hw).
  eexists _, entries.
  split; [exact He|]. split; [exact Hp|]. split; [exact Hf|].
  intros Ht. unfold valid_payload. rewrite Hp. cbn. now rewrite Ht.
Qed.

Lemma exported_settled labelName st e t u id :
  In e (documents_with labelName st) ->
  get_prop e "id" = Normal (Some (JStr id)) ->
  get_prop e "url" = Normal (Some u) ->
  getDocumentIdFromUrl u = Normal (Some id)
  \/ getDocumentIdFromUrl u = Normal None ->
  settled labelName st (JObj [("title", t); ("url", u)]).
Proof.
  intros He Hid Hu Hm.
  apply In_documents_with in He as (key & _ & Hl).
  assert (Hl' := Hl).
  apply listing_some in Hl'
    as (d & s & lbls & t' & u' & -> & _ & _ & _ & ->).
  unfold scan_entry in Hid, Hu. cbn in Hid, Hu.
  injection Hid as <-. injection Hu as <-.
  unfold settled, entry_target. cbn [get_prop obj_get String.eqb Ascii.eqb
                                     Bool.eqb].
  destruct (truthy u'); cbn [negb]; [|exact I].
  destruct Hm as [Hm|Hm]; rewrite Hm; [|exact I].
  destruct d as [|c r]; [exact I|].
  rewrite <- listing_current with (c := documentId st). now rewrite Hl.
Qed.

(** X17: importing the text [exportLabel] gave, in the storage it was
    exported from, writes nothing and counts no document, when the address
    stored for each listed document leads back to that document or names
    none: every entry finds its label already present.  The import then
    reloads the labels of the active document and reports 0 documents,
    unless the reloaded labels cannot be displayed. *)
Theorem export_then_import (labelName : json) (st : State) (text : string) :
  wf labelName = true -> truthy labelName = true ->
  (forall e, In e (documents_with labelName st) ->
             exists id u,
               get_prop e "id" = Normal (Some (JStr id))
               /\ get_prop e "url" = Normal (Some u)
               /\ (getDocumentIdFromUrl u = Normal (Some id)
                   \/ getDocumentIdFromUrl u = Normal None)) ->
  snd (exportLabel labelName st) = Normal text ->
  let st1 := fst (loadLabels st) in
  importLabel text st
  = (set_refreshes (S (refreshes st1)) st1,
     Normal (if mounted st1 && negb (displayable (labels st1))
             then failed TypeError
             else imported labelName 0))
  /\ storage st1 = storage st.
Proof.
  intros HwL Ht Hback Hx st1.
  destruct (exportLabel_eq labelName st) as (entries & He & Hw & Hf).
  assert (Hx' : stringify_indent 0
                  (JObj [("label", labelName); ("documents", JArr entries)])
                = text).
  { rewrite He in Hx.
    exact (f_equal (fun c => match c with
                             | Normal t => t
                             | Throw _ => text
                             end) Hx). }
  clear Hx. subst text.
  assert (Hv : valid_payload
                 (stringify_indent 0
                    (JObj [("label", labelName); ("documents", JArr entries)]))
               = Some (labelName, entries)).
  { unfold valid_payload. rewrite (export_parses labelName entries HwL Hw).
    cbn. now rewrite Ht. }
  destruct (valid_payload_wf _ _ _ Hv) as (_ & Hwd & _).
  assert (Hs : Forall (settled labelName st) entries).
  { assert (Hin : forall e, In e (documents_with labelName st) ->
                             In e (documents_with labelName st)) by auto.
    clear He Hw Hv Hwd.
    revert Hf Hin. generalize (documents_with labelName st) at 1 2.
    intros docs Hf Hin.
    induction Hf as [|e x docs entries (t & u & Ht' & Hu & ->) Hf IH];
      [constructor|].
    constructor.
    - assert (He' := Hin e (or_introl eq_refl)).
      destruct (Hback e He') as (id & u' & Hid & Hu' & Hm).
      assert (u' = u) by congruence. subst u'.
      eapply exported_settled; eassumption.
    - apply IH. intros e' He'. apply Hin. now right. }
  split; [|apply loadLabels_frame].
  rewrite (importLabel_valid _ st labelName entries Hv).
  now rewrite (forEach_settled labelName entries 0 st Hwd Hs).
Qed.

(** ** What an import leaves alone *)

Lemma merge_entry_other labelName key fresh n st k :
  k <> key ->
  localStorage.getItem (storage (fst (merge_entry labelName key fresh n st))) k
  = localStorage.getItem (storage st) k.
Proof.
  intros Hne. unfold merge_entry. cbv zeta.
  destruct (get_prop _ "labels") as [lbls|]; [|reflexivity].
  destruct (value_includes lbls labelName) as [[|]|]; try reflexivity.
  destruct (existing_data _ _); try reflexivity.
  destruct lbls as [[| | | |l|]|]; try reflexivity.
  destruct (localStorage.setItem _ _ _) as [ls|] eqn:Es; [|reflexivity].
  cbn [fst storage set_storage]. eapply setItem_get_other; eassumption.
Qed.

Lemma import_entry_other labelName doc n st k :
  (forall fresh, entry_target doc <> Normal (Some (k, fresh))) ->
  localStorage.getItem (storage (fst (import_entry labelName doc n st))) k
  = localStorage.getItem (storage st) k.
Proof.
  intros H. rewrite import_entry_eq.
  destruct (entry_target doc) as [[[key fresh]|]|e]; try reflexivity.
  apply merge_entry_other. intros ->. now apply (H fresh).
Qed.

Lemma forEach_import_other labelName docs n st k :
  (forall doc fresh, In doc docs ->
                     entry_target doc <> Normal (Some (k, fresh))) ->
  localStorage.getItem
    (storage (fst (forEach docs (import_entry labelName) n st))) k
  = localStorage.getItem (storage st) k.
Proof.
  revert n st. induction docs as [|doc docs IH]; intros n st H; [reflexivity|].
  rewrite forEach_cons.
  assert (H1 := import_entry_other labelName doc n st k
                  (fun fresh => H doc fresh (or_introl eq_refl))).
  destruct (import_entry labelName doc n st) as [st' [n'|e]];
    cbn [fst] in H1; [|exact H1].
  rewrite IH; [exact H1|]. intros d f Hd. apply H. now right.
Qed.

Lemma entry_target_key doc key fresh :
  entry_target doc = Normal (Some (key, fresh)) ->
  exists id, key = "gd-labels-" ++ id /\ id <> ""
             /\ exists u, get_prop doc "url" = Normal (Some u)
                          /\ getDocumentIdFromUrl u = Normal (Some id).
Proof.
  unfold entry_target.
  destruct (get_prop doc "url") as [[u|]|]; try discriminate.
  destruct (truthy u); cbn [negb]; [|discriminate].
  destruct (getDocumentIdFromUrl u) as [[[|c r]|]|] eqn:E; try discriminate.
  intros H. injection H as <- _. exists (String c r).
  split; [reflexivity|]. split; [discriminate|]. now exists u.
Qed.

(** X18: [importLabel] never throws: whatever the text, it returns a
    result [{success, message}] and keeps the active document.  A text
    that does not parse, or holds no label that is not falsy with an array
    of documents, gives a failed result and leaves the whole state as it
    was. *)
Theorem import_never_throws (s : string) (st : State) :
  exists st' b msg,
    importLabel s st
    = (st', Normal (JObj [("success", JBool b); ("message", JStr msg)]))
    /\ documentId st' = documentId st
    /\ (valid_payload s = None -> st' = st /\ b = false).
Proof.
  destruct (valid_payload s) as [[labelName docs]|] eqn:Hv.
  - rewrite (importLabel_valid s st labelName docs Hv).
    destruct (forEach docs (import_entry labelName) 0 st) as [st1 [n|e]] eqn:E.
    + cbv zeta. destruct (loadLabels_frame st1) as (_ & Hd & _).
      assert (Hd1 : documentId st1 = documentId st).
      { clear - E. revert E. generalize 0. revert st.
        induction docs as [|doc docs IH]; intros st n0 E.
        - injection E as <- _. reflexivity.
        - rewrite forEach_cons in E.
          destruct (import_entry labelName doc n0 st) as [sa [na|ea]] eqn:Ea;
            [|discriminate].
          rewrite (IH _ _ E). rewrite import_entry_eq in Ea.
          destruct (entry_target doc) as [[[key fresh]|]|];
            [| injection Ea as <- _; reflexivity | discriminate].
          unfold merge_entry in Ea. cbv zeta in Ea.
          destruct (get_prop _ "labels") as [lbls|]; [|discriminate].
          destruct (value_includes lbls labelName) as [[|]|];
            [injection Ea as <- _; reflexivity | | discriminate].
          destruct (existing_data _ _); try discriminate.
          destruct lbls as [[| | | |l|]|]; try discriminate.
          destruct (localStorage.setItem _ _ _); [|discriminate].
          injection Ea as <- _. reflexivity. }
      destruct (mounted _ && negb _);
        eexists _, _, _; (split; [reflexivity|]);
        (split; [cbn [documentId set_refreshes]; congruence | discriminate]).
    + eexists _, _, _. split; [reflexivity|].
      split; [|discriminate].
      clear - E. revert E. generalize 0. revert st.
      induction docs as [|doc docs IH]; intros st n0 E; [discriminate|].
      rewrite forEach_cons in E.
      assert (Hstep : documentId (fst (import_entry labelName doc n0 st))
                      = documentId st).
      { rewrite import_entry_eq.
        destruct (entry_target doc) as [[[key fresh]|]|]; try reflexivity.
        unfold merge_entry. cbv zeta.
        destruct (get_prop _ "labels") as [lbls|]; [|reflexivity].
        destruct (value_includes lbls labelName) as [[|]|]; try reflexivity.
        destruct (existing_data _ _); try reflexivity.
        destruct lbls as [[| | | |l|]|]; try reflexivity.
        destruct (localStorage.setItem _ _ _); reflexivity. }
      destruct (import_entry labelName doc n0 st) as [sa [na|ea]];
        cbn [fst] in Hstep.
      * rewrite (IH _ _ E). exact Hstep.
      * injection E as <- _. exact Hstep.
  - destruct (importLabel_invalid s st Hv) as (r & Hr & Hs).
    unfold importLabel, try_catch, JSON_parse in *. unfold valid_payload in Hv.
    rewrite bind_lift in *.
    destruct (JSON.parse s) as [d|];
      [|eexists _, _, _; split; [reflexivity|]; split; [reflexivity|]; auto].
    rewrite bind_lift in *.
    destruct (get_prop d "label") as [label|e];
      [|eexists _, _, _; split; [reflexivity|]; split; [reflexivity|]; auto].
    rewrite bind_lift in *.
    destruct (get_prop d "documents") as [docs|e];
      [|eexists _, _, _; split; [reflexivity|]; split; [reflexivity|]; auto].
    destruct label as [L|];
      [|eexists _, _, _; split; [reflexivity|]; split; [reflexivity|]; auto].
    destruct docs as [[| | | |docs|]|];
      try (eexists _, _, _; split; [reflexivity|]; split; [reflexivity|]; auto).
    destruct (truthy L); [discriminate|].
    eexists _, _, _; split; [reflexivity|]; split; [reflexivity|]; auto.
Qed.

(** X19: an import, also one that fails half way, writes only under the
    keys its entries address, [gd-labels-<id>] with the id found in the
    address of an entry: the value stored under any other key is the one
    of before. *)
Theorem import_touches_targets_only (s : string) (st : State)
    (labelName : json) (docs : list json) (k : string) :
  valid_payload s = Some (labelName, docs) ->
  (forall doc u id,
      In doc docs -> get_prop doc "url" = Normal (Some u) ->
      getDocumentIdFromUrl u = Normal (Some id) ->
      k <> "gd-labels-" ++ id) ->
  localStorage.getItem (storage (fst (importLabel s st))) k
  = localStorage.getItem (storage st) k.
Proof.
  intros Hv Hk.
  assert (Ht : forall doc fresh, In doc docs ->
                 entry_target doc <> Normal (Some (k, fresh))).
  { intros doc fresh Hd Et.
    apply entry_target_key in Et as (id & -> & _ & u & Hu & Hi).
    now apply (Hk doc u id). }
  rewrite (importLabel_valid s st labelName docs Hv).
  assert (H := forEach_import_other labelName docs 0 st k Ht).
  destruct (forEach docs (import_entry labelName) 0 st) as [st1 [n|e]];
    cbn [fst] in *; [|exact H].
  cbv zeta. cbn [fst storage set_refreshes].
  destruct (loadLabels_frame st1) as (-> & _). exact H.
Qed.

(** ** Two tabs on one document *)

(** X20: a tab that comes back into focus catches up with a save made in
    another tab on the same document: whatever labels it shows, as long
    as its last known snapshot is the text of these labels, the check
    leaves it with the labels the other tab saved, and writes nothing. *)
Theorem other_tab_catches_up (a b : State) (l : list json)
    (ls : localStorage.t) :
  labels a = JArr l -> wf (JArr l) = true ->
  no_id (documentId a) = false -> documentId b = documentId a ->
  localStorage.setItem (storage a) (active_key a) (saved_text a) = Some ls ->
  wf (labels b) = true ->
  lastKnownLabelsJson b = JSON.stringify (labels b) ->
  let b1 := fst (onFocus (set_storage ls b)) in
  storage (fst (saveLabels a)) = ls
  /\ snd (onFocus (set_storage ls b)) = Normal tt
  /\ labels b1 = JArr l
  /\ lastKnownLabelsJson b1 = JSON.stringify (JArr l)
  /\ storage b1 = ls
  /\ (labels b <> JArr l -> refreshes b1 = S (refreshes b)).
Proof.
  intros Hl Hw Hid Hd Hs Hwb Hk b1. subst b1.
  split; [now rewrite (saveLabels_written a ls Hid Hs)|].
  unfold onFocus. rewrite checkAndReloadLabels_eq.
  cbn [fst snd documentId storage lastKnownLabelsJson set_storage].
  rewrite Hd, Hid.
  assert (Hkey : active_key (set_storage ls b) = active_key a)
    by (unfold active_key; cbn [documentId set_storage]; now rewrite Hd).
  rewrite Hkey.
  rewrite (setItem_get _ _ _ _ Hs), saved_text_record, Hl.
  unfold current_labels. rewrite encode_present.
  rewrite parse_labels_encode by exact Hw. rewrite Hk.
  destruct (String.eqb_spec (JSON.stringify (JArr l))
              (JSON.stringify (labels b))) as [E|E]; cbn [negb].
  - apply stringify_inj in E; [|exact Hw|exact Hwb].
    cbn [labels lastKnownLabelsJson storage set_storage].
    repeat split; try congruence.
  - repeat split.
Qed.

(** ** A drop that moves nothing *)

(** X21: a drop on the row that is being dragged, and a drop when no drag
    is in progress, change nothing: no reordering, no save, no refresh;
    and the end of a drag forgets the dragged row. *)
Theorem drop_without_move (st : State) (j : Z) :
  (onDragStart j ;; onDrop j) st = (set_draggedIndex (Some j) st, Normal tt)
  /\ (onDragEnd ;; onDrop j) st = (set_draggedIndex None st, Normal tt)
  /\ (draggedIndex st = None -> onDrop j st = (st, Normal tt)).
Proof.
  unfold onDragStart, onDragEnd, onDrop. rewrite !bind_modify, !bind_get.
  cbn [draggedIndex set_draggedIndex]. rewrite Z.eqb_refl. cbn [negb].
  repeat split. intros ->. reflexivity.
Qed.

(** ** The further properties on the examples *)

Module FurtherWitnesses.
Import Examples.

Lemma id_round_trips_witness :
  getDocumentIdFromUrl (JStr (derived_url "docA")) = Normal (Some "docA")
  /\ getStorageKey (Some "docA") blank = (blank, Normal "gd-labels-docA").
Proof.
  destruct (id_round_trips "docA" blank) as (H1 & H2 & _);
    [discriminate | reflexivity |].
  split; [exact H1 | exact H2].
Defined.

Lemma save_then_load_witness :
  labels (fst (loadLabels (set_labels JNull (fst (saveLabels st_ab)))))
  = JArr [JStr "a"; JStr "b"].
Proof.
  refine (proj1 (save_then_load st_ab [JStr "a"; JStr "b"]
                   (storage (fst (saveLabels st_ab))) JNull _ _ _ _));
    vm_compute; reflexivity.
Defined.

Lemma check_after_load_witness :
  checkAndReloadLabels (fst (loadLabels blank))
  = (fst (loadLabels blank), Normal tt).
Proof.
  apply (check_after_load blank). intros _. reflexivity.
Defined.

Lemma saved_document_listed_witness :
  In (JObj [("id", JStr "docA"); ("title", JStr "Report");
            ("url", JStr urlA); ("isCurrent", JBool true)])
     (documents_with (JStr "a") (fst (saveLabels st_ab))).
Proof.
  refine (proj1 (saved_document_listed st_ab "docA" [JStr "a"; JStr "b"]
                   (storage (fst (saveLabels st_ab))) (JStr "a")
                   _ _ _ _ _ _) _);
    try discriminate; vm_compute; reflexivity.
Defined.

Lemma legacy_upgraded_witness :
  labels (fst (createLabelsSection st_legacy_active))
  = JArr [JStr "x"; JStr "y"]
  /\ localStorage.getItem
       (storage (fst (onTitleTimer (fst (createLabelsSection st_legacy_active)))))
       "gd-labels-docA"
     = Some (encode (JArr [JStr "x"; JStr "y"]) "Report" urlA).
Proof.
  destruct (legacy_upgraded st_legacy_active (dq "['x','y']")
              [JStr "x"; JStr "y"]
              (storage (fst (onTitleTimer
                               (fst (createLabelsSection st_legacy_active))))))
    as (_ & H1 & _ & H2 & _); try (vm_compute; reflexivity).
  split; [exact H1 | exact H2].
Defined.

Lemma unreadable_overwritten_witness :
  labels (fst (createLabelsSection st_malformed)) = JArr []
  /\ localStorage.getItem
       (storage (fst (onTitleTimer (fst (createLabelsSection st_malformed)))))
       "gd-labels-docA"
     = Some (encode (JArr []) "Report" urlA).
Proof.
  destruct (unreadable_overwritten st_malformed "{" SyntaxError
              (storage (fst (onTitleTimer
                               (fst (createLabelsSection st_malformed))))))
    as (_ & H1 & _ & H2); try (vm_compute; reflexivity).
  split; [exact H1 | exact H2].
Defined.

Lemma addLabel_spec_witness :
  addLabel "  " st_ab = (st_ab, Normal tt)
  /\ exists x, labels (fst (addLabel " c " st_ab))
               = JArr [JStr "a"; JStr "b"; JStr x]
               /\ starts_with_space x = false /\ ends_with_space x = false.
Proof.
  split.
  - apply (addLabel_spec st_ab [JStr "a"; JStr "b"] "  "); reflexivity.
  - destruct (addLabel_spec st_ab [JStr "a"; JStr "b"] " c " eq_refl)
      as (_ & H).
    destruct (H eq_refl) as (a & x & b & _ & _ & _ & _ & Hs & He & _ & Hl & _).
    exists x. repeat split; assumption.
Defined.

Lemma add_then_remove_witness :
  labels (fst ((addLabel " c " ;; removeLabel 2) st_ab))
  = JArr [JStr "a"; JStr "b"].
Proof.
  apply (add_then_remove st_ab [JStr "a"; JStr "b"] " c "); reflexivity.
Defined.

Lemma reorder_permutes_witness :
  Permutation (reorder [JStr "a"; JStr "b"; JStr "c"] 0 2)
    [JStr "a"; JStr "b"; JStr "c"].
Proof.
  apply (reorder_permutes [JStr "a"; JStr "b"; JStr "c"] 0 2). simpl. lia.
Defined.

Lemma stale_drag_inserts_null_witness :
  labels (fst (onDrop 0 st_stale)) = JArr [JNull; JStr "a"; JStr "b"].
Proof.
  apply (stale_drag_inserts_null st_stale [JStr "a"; JStr "b"] 3 0);
    try reflexivity; simpl; lia.
Defined.

Lemma export_reads_back_witness :
  exists text entries,
    exportLabel (JStr "Q1") st_two = (st_two, Normal text)
    /\ valid_payload text = Some (JStr "Q1", entries).
Proof.
  destruct (export_reads_back (JStr "Q1") st_two eq_refl)
    as (text & entries & He & _ & _ & Hv).
  exists text, entries. split; [exact He | exact (Hv eq_refl)].
Defined.

Lemma export_then_import_witness :
  exists text,
    snd (exportLabel (JStr "Q1") st_two) = Normal text
    /\ snd (importLabel text st_two) = Normal (imported (JStr "Q1") 0)
    /\ storage (fst (importLabel text st_two)) = storage st_two.
Proof.
  destruct (snd (exportLabel (JStr "Q1") st_two)) as [text|e] eqn:E;
    [|vm_compute in E; discriminate].
  exists text. split; [reflexivity|].
  destruct (export_then_import (JStr "Q1") st_two text eq_refl eq_refl)
    as (H & Hs).
  - intros e He. vm_compute in He. destruct He as [<-|[]].
    exists "docA", (JStr urlA).
    split; [reflexivity|]. split; [reflexivity|]. left. reflexivity.
  - exact E.
  - rewrite H. split; [reflexivity|]. exact Hs.
Defined.

Lemma import_touches_targets_only_witness :
  localStorage.getItem (storage (fst (importLabel payload_B st_two)))
    "gd-labels-docA"
  = localStorage.getItem (storage st_two) "gd-labels-docA".
Proof.
  apply (import_touches_targets_only payload_B st_two (JStr "Q1")
           [JObj [("title", JStr "Notes"); ("url", JStr urlB)]]).
  - vm_compute. reflexivity.
  - intros doc u id [<-|[]] Hu Hi.
    vm_compute in Hu. injection Hu as <-.
    vm_compute in Hi. injection Hi as <-. discriminate.
Defined.

Lemma other_tab_catches_up_witness :
  labels (fst (onFocus (set_storage (storage (fst (saveLabels st_ab))) tab_b)))
  = JArr [JStr "a"; JStr "b"].
Proof.
  refine (proj1 (proj2 (proj2
            (other_tab_catches_up st_ab tab_b [JStr "a"; JStr "b"]
               (storage (fst (saveLabels st_ab))) _ _ _ _ _ _ _))));
    vm_compute; reflexivity.
Defined.

End FurtherWitnesses.
